(** * Rainbow Points: the per-wallet pipeline and its points extraction

    A shallow embedding of [src/rainbow.ts], [src/database.ts], [src/menu.ts]
    and the proxy manager:
    - JavaScript strings as lists of UTF-16 code units, with the string
      methods the sources call;
    - the regular expressions of the sources as syntax trees, run by a
      backtracking matcher in the continuation style of ECMA-262;
    - the DOM as a tree with the computed style and the rendered text
      ([innerText]) of every element given by the browser;
    - the result store as a finite map from address to record;
    - the browser automation as an explicit environment of step outcomes,
      threaded through a state-and-exception monad that logs every call
      to the store, to the browser context and to the file system. *)

From Stdlib Require Import ZArith NArith List Bool String Ascii Lia Sorted.
From stdpp Require Import base option list gmap.

Import ListNotations.
Local Open Scope N_scope.

(* ===================================================================== *)
(** ** JavaScript strings *)
(* ===================================================================== *)

Module JS.

(** A string is its sequence of UTF-16 code units. *)
Definition jsstring := list N.

(** Literals are written as Rocq strings (UTF-8 bytes) and decoded to
    UTF-16; a code point above the BMP becomes a surrogate pair. *)
Fixpoint utf16_of_utf8 (bs : list N) : jsstring :=
  match bs with
  | [] => []
  | b0 :: r0 =>
    if b0 <? 128 then b0 :: utf16_of_utf8 r0
    else if b0 <? 224 then
      match r0 with
      | b1 :: r1 => ((b0 mod 32) * 64 + b1 mod 64) :: utf16_of_utf8 r1
      | [] => [65533]
      end
    else if b0 <? 240 then
      match r0 with
      | b1 :: b2 :: r2 =>
        ((b0 mod 16) * 4096 + (b1 mod 64) * 64 + b2 mod 64) :: utf16_of_utf8 r2
      | _ => [65533]
      end
    else
      match r0 with
      | b1 :: b2 :: b3 :: r3 =>
        let cp := (b0 mod 8) * 262144 + (b1 mod 64) * 4096
                  + (b2 mod 64) * 64 + b3 mod 64 in
        let v := cp - 65536 in
        (55296 + v / 1024) :: (56320 + v mod 1024) :: utf16_of_utf8 r3
      | _ => [65533]
      end
  end.

Definition js (s : string) : jsstring :=
  utf16_of_utf8 (map N_of_ascii (list_ascii_of_string s)).

Definition code (a : ascii) : N := N_of_ascii a.

(** [a === b] on strings. *)
Fixpoint str_eqb (a b : jsstring) : bool :=
  match a, b with
  | [], [] => true
  | x :: a', y :: b' => (x =? y) && str_eqb a' b'
  | _, _ => false
  end.

(** [s.startsWith(p)]. *)
Fixpoint startsWith (s p : jsstring) : bool :=
  match p, s with
  | [], _ => true
  | y :: p', x :: s' => (x =? y) && startsWith s' p'
  | _ :: _, [] => false
  end.

(** [s.includes(p)]. *)
Fixpoint includes (s p : jsstring) : bool :=
  startsWith s p ||
  match s with
  | [] => false
  | _ :: s' => includes s' p
  end.

(** [s.indexOf(p)]: the first position where [p] starts, or [-1]. *)
Fixpoint indexOf_from (i : Z) (s p : jsstring) : Z :=
  if startsWith s p then i
  else match s with
       | [] => (-1)%Z
       | _ :: s' => indexOf_from (i + 1)%Z s' p
       end.

Definition indexOf (s p : jsstring) : Z := indexOf_from 0%Z s p.

Definition jslength (s : jsstring) : Z := Z.of_nat (length s).

(** [s.substring(a, b)]: both bounds are clamped to [0, s.length] and
    swapped when [a > b]. *)
Definition clamp (s : jsstring) (i : Z) : nat :=
  Z.to_nat (Z.min (Z.max i 0) (jslength s)).

Definition substring (s : jsstring) (a b : Z) : jsstring :=
  let a' := clamp s a in
  let b' := clamp s b in
  let lo := Nat.min a' b' in
  let hi := Nat.max a' b' in
  firstn (hi - lo) (skipn lo s).

(** WhiteSpace and LineTerminator of ECMA-262: what [trim] strips and
    what [\s] matches. *)
Definition isWhiteSpace (c : N) : bool :=
  ((9 <=? c) && (c <=? 13)) || (c =? 32) || (c =? 160) || (c =? 5760)
  || ((8192 <=? c) && (c <=? 8202)) || (c =? 8232) || (c =? 8233)
  || (c =? 8239) || (c =? 8287) || (c =? 12288) || (c =? 65279).

Fixpoint trimStart (s : jsstring) : jsstring :=
  match s with
  | c :: s' => if isWhiteSpace c then trimStart s' else s
  | [] => []
  end.

Definition trimEnd (s : jsstring) : jsstring := rev (trimStart (rev s)).

Definition trim (s : jsstring) : jsstring := trimEnd (trimStart s).

(** [s.toLowerCase()]. The sources only ever test the result with
    [includes] of an ASCII phrase or compare it with one, so the mapping
    is exact on every code unit whose image contains an ASCII unit: the
    Latin capitals, U+212A KELVIN SIGN (to [k]) and U+0130 (to [i] followed
    by U+0307). Every other unit is mapped to itself, standing for its
    non-ASCII lower-case form. *)
Definition lowerUnit (c : N) : jsstring :=
  if (65 <=? c) && (c <=? 90) then [c + 32]
  else if c =? 8490 then [107]
  else if c =? 304 then [105; 775]
  else [c].

Definition toLowerCase (s : jsstring) : jsstring := flat_map lowerUnit s.

(** [s.split('\n')]. *)
Fixpoint split_lines_aux (cur : jsstring) (s : jsstring) : list jsstring :=
  match s with
  | [] => [rev cur]
  | c :: s' =>
    if c =? 10 then rev cur :: split_lines_aux [] s'
    else split_lines_aux (c :: cur) s'
  end.

Definition split_lines (s : jsstring) : list jsstring := split_lines_aux [] s.

(** [a || b] on strings: the empty string is falsy. *)
Definition or_else (a b : jsstring) : jsstring :=
  match a with [] => b | _ => a end.

Definition truthy (a : jsstring) : bool :=
  match a with [] => false | _ => true end.

Definition isDigit (c : N) : bool := (48 <=? c) && (c <=? 57).

(** A Number as the sources meet it: a double whose value is an integer,
    or an infinity. [NaN] is [None] where a Number can be one. *)
Inductive number :=
| Num (z : Z)
| Infinity
| NegInfinity.

(** [n > 0], [n === 0] and [n < 0] *)
Definition gt0 (n : number) : bool :=
  match n with
  | Num z => (0 <? z)%Z
  | Infinity => true
  | NegInfinity => false
  end.

Definition is0 (n : number) : bool :=
  match n with
  | Num z => (z =? 0)%Z
  | _ => false
  end.

Definition lt0 (n : number) : bool :=
  match n with
  | Num z => (z <? 0)%Z
  | Infinity => false
  | NegInfinity => true
  end.

(** The double nearest to an integer: below 2^53 the integer itself; from
    there on the significand keeps 53 bits, a tie going to the even one,
    and what reaches 2^1024 is an infinity. *)
Definition toDouble (v : Z) : number :=
  let a := Z.abs v in
  if (a <? 2 ^ 53)%Z then Num v
  else
    let s := (Z.log2 a - 52)%Z in
    let q := (a / 2 ^ s)%Z in
    let r := (a mod 2 ^ s)%Z in
    let half := (2 ^ (s - 1))%Z in
    let q' := if (half <? r)%Z || ((r =? half)%Z && Z.odd q) then (q + 1)%Z else q in
    let m := (q' * 2 ^ s)%Z in
    if (2 ^ 1024 <=? m)%Z then (if (v <? 0)%Z then NegInfinity else Infinity)
    else Num (if (v <? 0)%Z then (- m)%Z else m).

(** [parseInt(s, 10)]: leading white space is skipped, a sign is read, then
    the longest run of decimal digits; [None] is [NaN]. The result is the
    double nearest to the integer the digits denote, as V8 (Chromium and
    Node) computes it: 9007199254740993 reads as 9007199254740992, and a
    run from 1.8e308 up as [Infinity]. *)
Fixpoint digits_prefix (s : jsstring) : list N :=
  match s with
  | c :: s' => if isDigit c then (c - 48) :: digits_prefix s' else []
  | [] => []
  end.

Definition digits_value (ds : list N) : Z :=
  fold_left (fun acc d => (acc * 10 + Z.of_N d)%Z) ds 0%Z.

Definition parseInt (s : jsstring) : option number :=
  let t := trimStart s in
  let '(neg, u) :=
    match t with
    | c :: t' => if c =? 45 then (true, t')
                 else if c =? 43 then (false, t') else (false, t)
    | [] => (false, t)
    end in
  match digits_prefix u with
  | [] => None
  | ds => Some (toDouble (if neg then (- digits_value ds)%Z else digits_value ds))
  end.

End JS.

Import JS.

(* ===================================================================== *)
(** ** Regular expressions *)
(* ===================================================================== *)

Module Regex.

(** The patterns of the sources use character classes, concatenation,
    alternation, greedy and lazy quantifiers, one capture group and the
    anchors [^] and [$] (never with the [m] flag). The group never stands
    under a quantifier, so no capture is reset between iterations. *)
Inductive regex :=
| Eps
| Cls (p : N -> bool)
| Cat (r1 r2 : regex)
| Alt (r1 r2 : regex)
| Rep (r : regex) (min : nat) (max : option nat) (greedy : bool)
| Grp (r : regex)
| Bol
| Eol.

(** A match state: the end index, the input left after it, and the span of
    capture group 1 when it has taken part. *)
Record mstate := MState {
  pos : nat;
  rest : jsstring;
  cap : option (nat * nat)
}.

Definition cont := mstate -> option mstate.

Definition max_pred (mx : option nat) : option nat :=
  match mx with Some k => Some (Nat.pred k) | None => None end.

Definition max_is_zero (mx : option nat) : bool :=
  match mx with Some O => true | _ => false end.

(** RepeatMatcher of ECMA-262 once the mandatory iterations are done
    ([min = 0]): an iteration that consumes nothing fails. Progress is
    measured on the input left, which bounds the number of iterations, so
    [n] starts at that length and its zero case is only reached with no
    input left, where no iteration can progress. *)
Fixpoint star (n : nat) (body : mstate -> cont -> option mstate)
    (mx : option nat) (greedy : bool) (x : mstate) (c : cont) : option mstate :=
  if max_is_zero mx then c x
  else
    match n with
    | O => c x
    | S n' =>
      let d := fun y : mstate =>
        if (length (rest y) <? length (rest x))%nat
        then star n' body (max_pred mx) greedy y c
        else None in
      if greedy then
        match body x d with
        | Some z => Some z
        | None => c x
        end
      else
        match c x with
        | Some z => Some z
        | None => body x d
        end
    end.

(** RepeatMatcher with [min] mandatory iterations first. *)
Fixpoint rep (body : mstate -> cont -> option mstate) (mn : nat)
    (mx : option nat) (greedy : bool) (x : mstate) (c : cont) : option mstate :=
  match mn with
  | S k =>
    if max_is_zero mx then c x
    else body x (fun y => rep body k (max_pred mx) greedy y c)
  | O => star (length (rest x)) body mx greedy x c
  end.

Fixpoint run (r : regex) (x : mstate) (c : cont) : option mstate :=
  match r with
  | Eps => c x
  | Cls p =>
    match rest x with
    | ch :: tl => if p ch then c (MState (S (pos x)) tl (cap x)) else None
    | [] => None
    end
  | Cat r1 r2 => run r1 x (fun y => run r2 y c)
  | Alt r1 r2 =>
    match run r1 x c with
    | Some z => Some z
    | None => run r2 x c
    end
  | Rep r0 mn mx g => rep (run r0) mn mx g x c
  | Grp r0 => run r0 x (fun y => c (MState (pos y) (rest y) (Some (pos x, pos y))))
  | Bol => if (pos x =? 0)%nat then c x else None
  | Eol => match rest x with [] => c x | _ :: _ => None end
  end.

(** The result of [s.match(re)] for a pattern without the [g] flag:
    [index], [match[0]] and [match[1]] ([None] is [undefined]). *)
Record jsmatch := JSMatch {
  m_index : nat;
  m_0 : jsstring;
  m_1 : option jsstring
}.

Definition slice (s : jsstring) (a b : nat) : jsstring :=
  firstn (b - a) (skipn a s).

(** RegExpBuiltinExec: the leftmost start index at which the pattern
    matches. *)
Fixpoint exec_from (r : regex) (s : jsstring) (i : nat) (suffix : jsstring)
    : option jsmatch :=
  match run r (MState i suffix None) Some with
  | Some y =>
    Some (JSMatch i (slice s i (pos y))
            (match cap y with
             | Some (a, b) => Some (slice s a b)
             | None => None
             end))
  | None =>
    match suffix with
    | [] => None
    | _ :: suffix' => exec_from r s (S i) suffix'
    end
  end.

Definition exec (r : regex) (s : jsstring) : option jsmatch :=
  exec_from r s 0 s.

(** [re.test(s)]. *)
Definition test (r : regex) (s : jsstring) : bool :=
  match exec r s with Some _ => true | None => false end.

(** Building blocks for writing the literals. *)
Definition chr (a : ascii) : regex := Cls (fun c => c =? code a).

(** A letter under the [i] flag (without [u]): Canonicalize never maps a
    unit above 127 to an ASCII one, so only the two ASCII cases match. *)
Definition chr_i (a : ascii) : regex :=
  Cls (fun c =>
    let k := code a in
    (c =? k)
    || ((65 <=? k) && (k <=? 90) && (c =? k + 32))
    || ((97 <=? k) && (k <=? 122) && (c =? k - 32))).

Fixpoint cats (rs : list regex) : regex :=
  match rs with
  | [] => Eps
  | [r] => r
  | r :: rs' => Cat r (cats rs')
  end.

Definition lit (s : string) : regex := cats (map chr (list_ascii_of_string s)).
Definition lit_i (s : string) : regex := cats (map chr_i (list_ascii_of_string s)).

(** [\d], [\s], [[^\d]], [[,\s\u00A0]], [[a-fA-F0-9]]. *)
Definition digit : regex := Cls isDigit.
Definition space : regex := Cls isWhiteSpace.
Definition nondigit : regex := Cls (fun c => negb (isDigit c)).
Definition separator : regex :=
  Cls (fun c => (c =? 44) || isWhiteSpace c || (c =? 160)).
Definition isHex (c : N) : bool :=
  ((97 <=? c) && (c <=? 102)) || ((65 <=? c) && (c <=? 70)) || isDigit c.
Definition hexdigit : regex := Cls isHex.

Definition star_g (r : regex) : regex := Rep r 0 None true.
Definition star_l (r : regex) : regex := Rep r 0 None false.
Definition plus_g (r : regex) : regex := Rep r 1 None true.
Definition times (r : regex) (a b : nat) : regex := Rep r a (Some b) true.

End Regex.

Import Regex.

(* ===================================================================== *)
(** ** The DOM *)
(* ===================================================================== *)

Module Dom.

(** The three properties of [getComputedStyle] the sources read. *)
Record style := Style {
  display : jsstring;
  visibility : jsstring;
  opacity : jsstring
}.

(** A node is a text node or an element. An element carries its computed
    style and its [innerText]: both are computed by the browser from the
    layout, so they are data of the page here. [textContent] is computed
    from the tree. *)
#[warnings="-register-all"]
Inductive node :=
| Text (data : jsstring)
| Elem (st : style) (inner : jsstring) (kids : list node).

(** An element or text node is named by the child indices leading to it
    from the root element ([<html>]); two references are the same node
    ([===]) when the paths are equal. *)
Definition path := list nat.

Fixpoint textContent (n : node) : jsstring :=
  match n with
  | Text d => d
  | Elem _ _ ks => flat_map textContent ks
  end.

Definition innerText (n : node) : jsstring :=
  match n with
  | Text _ => []
  | Elem _ inner _ => inner
  end.

Definition is_elem (n : node) : bool :=
  match n with Elem _ _ _ => true | Text _ => false end.

Fixpoint get (root : node) (p : path) : option node :=
  match p with
  | [] => Some root
  | i :: p' =>
    match root with
    | Elem _ _ ks =>
      match ks !! i with
      | Some k => get k p'
      | None => None
      end
    | Text _ => None
    end
  end.

(** [parentElement]: the root element's parent is the document, which is
    not an element. *)
Definition parentElement (p : path) : option path :=
  match p with
  | [] => None
  | _ :: _ => Some (removelast p)
  end.

Fixpoint elem_indices (ks : list node) (i : nat) : list nat :=
  match ks with
  | [] => []
  | k :: ks' =>
    if is_elem k then i :: elem_indices ks' (S i) else elem_indices ks' (S i)
  end.

(** [el.children]: the element children, in order. *)
Definition children (root : node) (p : path) : list path :=
  match get root p with
  | Some (Elem _ _ ks) => map (fun i => p ++ [i]) (elem_indices ks 0)
  | _ => []
  end.

(** [el.nextElementSibling]. *)
Definition nextElementSibling (root : node) (p : path) : option path :=
  match p with
  | [] => None
  | _ :: _ =>
    let q := removelast p in
    let i := List.last p 0%nat in
    match get root q with
    | Some (Elem _ _ ks) =>
      match elem_indices (skipn (S i) ks) (S i) with
      | j :: _ => Some (q ++ [j])
      | [] => None
      end
    | _ => None
    end
  end.

(** The nodes below [n] in document order, [n] itself excluded: the
    order in which a TreeWalker rooted at [n] visits them. *)
Fixpoint descendants (p : path) (n : node) : list (path * node) :=
  match n with
  | Text _ => []
  | Elem _ _ ks =>
    (fix go (ks : list node) (i : nat) : list (path * node) :=
       match ks with
       | [] => []
       | k :: ks' =>
         (p ++ [i], k) :: descendants (p ++ [i]) k ++ go ks' (S i)
       end) ks 0%nat
  end.

(** A document: its root element and the index of [<body>] among the
    root's children ([document.body]). *)
Record document := Document {
  html : node;
  body_at : nat
}.

Definition body_path (d : document) : path := [body_at d].

Definition body (d : document) : option node :=
  match get (html d) (body_path d) with
  | Some (Elem st inner ks) => Some (Elem st inner ks)
  | _ => None
  end.

End Dom.

Import Dom.

(* ===================================================================== *)
(** ** The points extraction engine *)
(* ===================================================================== *)

(** The function passed to [page.evaluate] in
    [checkPointsOrUseReferralCode] (rainbow.ts, lines 1029-1290). *)
Module Points.

(** [(\d{1,3}(?:[,\s\u00A0]\d{3})*|\d+)] *)
Definition number_group : regex :=
  Grp (Alt (Cat (times digit 1 3) (star_g (Cat separator (times digit 3 3))))
           (plus_g digit)).

(** [/My\s+Points[^\d]*(\d{1,3}(?:[,\s\u00A0]\d{3})*|\d+)/i] *)
Definition fastPattern : regex :=
  cats [lit_i "My"; plus_g space; lit_i "Points"; star_g nondigit; number_group].

(** [/My\s+Points\s*[^\d]*?(\d{1,3}(?:[,\s\u00A0]\d{3})*|\d+)/i] *)
Definition pointsPattern : regex :=
  cats [lit_i "My"; plus_g space; lit_i "Points"; star_g space;
        star_l nondigit; number_group].

(** [/^\s*(\d{1,3}(?:[,\s\u00A0]\d{3})*|\d+)\s*$/] *)
Definition numberPattern : regex :=
  cats [Bol; star_g space; number_group; star_g space; Eol].

(** [.replace(/[\s\u00A0,]/g, '')] *)
Definition stripSeparators (s : jsstring) : jsstring :=
  List.filter (fun c => negb (isWhiteSpace c || (c =? 160) || (c =? 44))) s.

(** The common tail of every strategy:
    [cleanNumber = g.replace(...); num = parseInt(cleanNumber, 10);
     if (!isNaN(num) && num > 0) { pointsText = cleanNumber; points = num }] *)
Definition parseClean (g : jsstring) : option (jsstring * number) :=
  let cleanNumber := stripSeparators g in
  match parseInt cleanNumber with
  | Some num => if gt0 num then Some (cleanNumber, num) else None
  | None => None
  end.

(** [if (match && match[1])]: the group took part and is not empty. *)
Definition group1 (m : option jsmatch) : option (jsmatch * jsstring) :=
  match m with
  | Some mt =>
    match m_1 mt with
    | Some g => if truthy g then Some (mt, g) else None
    | None => None
    end
  | None => None
  end.

Definition notToRank (afterNumber : jsstring) : bool :=
  negb (includes (toLowerCase afterNumber) (js "points to rank"))
  && negb (includes (toLowerCase afterNumber) (js "to rank")).

(** Lines 1040-1056: the pattern over the text of the body; the 30 units
    after the whole match must not name a rank. *)
Definition fastPath (text : jsstring) : option number :=
  match group1 (exec fastPattern text) with
  | Some (mt, g) =>
    let e := (Z.of_nat (m_index mt) + jslength (m_0 mt))%Z in
    let afterNumber := substring text e (e + 30)%Z in
    if notToRank afterNumber then
      match parseClean g with
      | Some (_, num) => Some num
      | None => None
      end
    else None
  | None => None
  end.

(** A text made of one number only. *)
Definition pureNumber (text : jsstring) : option (jsstring * number) :=
  match group1 (exec numberPattern text) with
  | Some (_, g) => parseClean g
  | None => None
  end.

(** Lines 1188-1203 and 1262-1278: the pattern over a container text; the
    text after the first occurrence of the captured digits is inspected. *)
Definition labelledNumber (combinedText : jsstring) : option (jsstring * number) :=
  match group1 (exec pointsPattern combinedText) with
  | Some (_, g) =>
    let numberIndex := indexOf combinedText g in
    let e := (numberIndex + jslength g)%Z in
    let afterNumber := substring combinedText e (e + 30)%Z in
    if notToRank afterNumber then parseClean g else None
  | None => None
  end.

Definition shown (st : style) : bool :=
  negb (str_eqb (display st) (js "none"))
  && negb (str_eqb (visibility st) (js "hidden")).

Definition shownOpaque (st : style) : bool :=
  shown st && negb (str_eqb (opacity st) (js "0")).

Definition styleAt (root : node) (p : path) : option style :=
  match get root p with
  | Some (Elem st _ _) => Some st
  | _ => None
  end.

(** The [acceptNode] filter of the TreeWalker (lines 1064-1081). *)
Definition acceptNode (n : node) : bool :=
  match n with
  | Text d => includes d (js "My Points")
  | Elem _ inner _ =>
    let text := textContent n in
    str_eqb text (js "My Points") || str_eqb inner (js "My Points")
    || (includes text (js "My Points") && (jslength text <? 50)%Z)
    || (includes inner (js "My Points") && (jslength inner <? 50)%Z)
  end.

(** Lines 1085-1105: the visible label elements, in document order. An
    accepted text node contributes its parent element. *)
Fixpoint collectLabels (root : node) (ns : list (path * node)) : list path :=
  match ns with
  | [] => []
  | (p, n) :: ns' =>
    if acceptNode n then
      match n with
      | Elem st _ _ =>
        if shownOpaque st then p :: collectLabels root ns'
        else collectLabels root ns'
      | Text _ =>
        match parentElement p with
        | Some q =>
          match styleAt root q with
          | Some st =>
            if shownOpaque st then q :: collectLabels root ns'
            else collectLabels root ns'
          | None => collectLabels root ns'
          end
        | None => collectLabels root ns'
        end
      end
    else collectLabels root ns'
  end.

Definition myPointsElements (d : document) : list path :=
  match body d with
  | Some b => collectLabels (html d) (descendants (body_path d) b)
  | None => []
  end.

Definition namesSection_lc (combinedText : jsstring) : bool :=
  includes (toLowerCase combinedText) (js "points")
  || includes (toLowerCase combinedText) (js "to rank")
  || includes (toLowerCase combinedText) (js "referrals")
  || includes (toLowerCase combinedText) (js "unranked").

(** Strategy 1 (lines 1118-1143): the next sibling element. *)
Definition strategy1 (root : node) (el : path) : option (jsstring * number) :=
  match nextElementSibling root el with
  | Some sib =>
    match get root sib with
    | Some (Elem st inner ks) =>
      if shown st then
        let text := trim (textContent (Elem st inner ks)) in
        let innerT := trim inner in
        let combinedText := or_else text innerT in
        if negb (namesSection_lc combinedText) then pureNumber combinedText
        else None
      else None
    | _ => None
    end
  | None => None
  end.

(** Strategy 2 (lines 1146-1169): the first visible child that is a
    number. *)
Fixpoint strategy2_loop (root : node) (cs : list path) : option (jsstring * number) :=
  match cs with
  | [] => None
  | c :: cs' =>
    match get root c with
    | Some (Elem st inner ks) =>
      if negb (shown st) then strategy2_loop root cs'
      else
        let combinedText := trim (or_else inner (textContent (Elem st inner ks))) in
        match pureNumber combinedText with
        | Some r => Some r
        | None => strategy2_loop root cs'
        end
    | _ => strategy2_loop root cs'
    end
  end.

Definition strategy2 (root : node) (el : path) : option (jsstring * number) :=
  strategy2_loop root (children root el).

Definition namesSection (combinedText : jsstring) : bool :=
  includes combinedText (js "Referrals")
  || includes combinedText (js "Your Rank")
  || includes (toLowerCase combinedText) (js "to rank")
  || includes combinedText (js "Unranked").

(** Strategy 3 (lines 1172-1206): the text of the parent element. *)
Definition strategy3 (root : node) (el : path) : option (jsstring * number) :=
  match parentElement el with
  | Some par =>
    match get root par with
    | Some (Elem st inner ks) =>
      let combinedText := or_else inner (textContent (Elem st inner ks)) in
      if negb (namesSection combinedText) then labelledNumber combinedText
      else None
    | _ => None
    end
  | None => None
  end.

Definition path_eqb (a b : path) : bool := bool_decide (a = b).

(** Strategy 4 (lines 1209-1242): the first other visible child of the
    parent that is a number and names no other section. *)
Fixpoint strategy4_loop (root : node) (el : path) (ss : list path)
    : option (jsstring * number) :=
  match ss with
  | [] => None
  | sib :: ss' =>
    if path_eqb sib el then strategy4_loop root el ss'
    else
      match get root sib with
      | Some (Elem st inner ks) =>
        if negb (shown st) then strategy4_loop root el ss'
        else
          let combinedText := or_else inner (textContent (Elem st inner ks)) in
          if namesSection combinedText then strategy4_loop root el ss'
          else
            match pureNumber (trim combinedText) with
            | Some r => Some r
            | None => strategy4_loop root el ss'
            end
      | _ => strategy4_loop root el ss'
      end
  end.

Definition strategy4 (root : node) (el : path) : option (jsstring * number) :=
  match parentElement el with
  | Some par => strategy4_loop root el (children root par)
  | None => None
  end.

(** Strategy 5 (lines 1245-1282): the element and up to three ancestors,
    stopping at the first whose text names another section. *)
Fixpoint strategy5_loop (root : node) (n : nat) (container : option path)
    : option (jsstring * number) :=
  match n with
  | O => None
  | S n' =>
    match container with
    | None => None
    | Some c =>
      match get root c with
      | Some (Elem st inner ks) =>
        let combinedText := or_else inner (textContent (Elem st inner ks)) in
        if includes combinedText (js "Referrals")
           || includes combinedText (js "Your Rank")
           || includes (toLowerCase combinedText) (js "to rank")
        then None
        else
          match labelledNumber combinedText with
          | Some r => Some r
          | None => strategy5_loop root n' (parentElement c)
          end
      | _ => None
      end
    end
  end.

Definition strategy5 (root : node) (el : path) : option (jsstring * number) :=
  strategy5_loop root 4 (Some el).

(** [if (!pointsText) { ... }]: a later strategy runs while no text has
    been stored, and stores its own find. *)
Definition unset (found : option (jsstring * number)) : bool :=
  match found with
  | Some (pointsText, _) => negb (truthy pointsText)
  | None => true
  end.

Definition orTry (found next : option (jsstring * number)) : option (jsstring * number) :=
  if unset found then
    match next with
    | Some r => Some r
    | None => found
    end
  else found.

Definition pointsAt (root : node) (el : path) : option (jsstring * number) :=
  let s1 := strategy1 root el in
  let s2 := orTry s1 (strategy2 root el) in
  let s3 := orTry s2 (strategy3 root el) in
  let s4 := orTry s3 (strategy4 root el) in
  orTry s4 (strategy5 root el).

(** [if (points !== null && points > 0) return points] *)
Fixpoint firstPoints (root : node) (els : list path) : option number :=
  match els with
  | [] => None
  | el :: els' =>
    match pointsAt root el with
    | Some (_, points) =>
      if gt0 points then Some points else firstPoints root els'
    | None => firstPoints root els'
    end
  end.

(** The whole evaluated function. A document without a body makes
    [document.body.textContent] throw, which the caller turns into
    [null] (line 1291). *)
Definition extractPoints (d : document) : option number :=
  match body d with
  | None => None
  | Some b =>
    let bodyText := textContent b in
    let bodyInnerText := innerText b in
    if negb (includes bodyText (js "My Points"))
       && negb (includes bodyInnerText (js "My Points"))
    then None
    else
      match fastPath (or_else bodyInnerText bodyText) with
      | Some num => Some num
      | None => firstPoints (html d) (myPointsElements d)
      end
  end.

End Points.

Import Points.
(* ===================================================================== *)
(** ** Exceptions, the world and its monad *)
(* ===================================================================== *)

(** What a [throw] carries: an [Error] with its message, or any other
    value ([error instanceof Error] is false). *)
Inductive thrown :=
| ErrorObj (message : jsstring)
| OtherValue.

Inductive result (A : Type) :=
| Ok (a : A)
| Throw (e : thrown).

Arguments Ok {A} a.
Arguments Throw {A} e.

(** [error instanceof Error ? error.message : 'Неизвестная ошибка'] *)
Definition messageOf (e : thrown) : jsstring :=
  match e with
  | ErrorObj m => m
  | OtherValue => js "Неизвестная ошибка"
  end.

(** [error instanceof Error && error.message.includes('баланс пуст')] *)
Definition isEmptyBalance (e : thrown) : bool :=
  match e with
  | ErrorObj m => includes m (js "баланс пуст")
  | OtherValue => false
  end.

(* ===================================================================== *)
(** ** The result store (database.ts) *)
(* ===================================================================== *)

Module Store.

Inductive status := success | error | empty_balance | pending.

Definition status_eqb (a b : status) : bool :=
  match a, b with
  | success, success | error, error
  | empty_balance, empty_balance | pending, pending => true
  | _, _ => false
  end.

(** A row of table [wallets]; the row id and the three timestamps play no
    part in the pipeline and are left out. *)
Record WalletRecord := {
  address : jsstring;
  points : option number;
  wstatus : status;
  error_message : option jsstring
}.

(** An open connection: the rows by address (the column is UNIQUE), and
    whether statements fail on it (a locked or corrupt file). *)
Record database := {
  rows : gmap jsstring WalletRecord;
  failing : bool
}.

(** The module variable [db]: [None] is [null]. *)
Definition connection := option database.

Definition notInitialised : thrown :=
  ErrorObj (js "База данных не инициализирована").

(** [getWalletByAddress]. *)
Definition getWalletByAddress (db : connection) (addr : jsstring)
    : result (option WalletRecord) :=
  match db with
  | None => Throw notInitialised
  | Some d => if failing d then Ok None else Ok (rows d !! addr)
  end.

(** [shouldSkipWallet]. *)
Definition shouldSkipWallet (db : connection) (addr : jsstring) : result bool :=
  match getWalletByAddress db addr with
  | Throw e => Throw e
  | Ok None => Ok false
  | Ok (Some wallet) =>
    Ok (status_eqb (wstatus wallet) success
        && match points wallet with
           | Some p => gt0 p
           | None => false
           end)
  end.

(** [errorMessage || null] *)
Definition orNull (m : option jsstring) : option jsstring :=
  match m with
  | Some s => if truthy s then Some s else None
  | None => None
  end.

(** [saveWalletData]: the upsert. It throws without a connection; a
    failing statement is logged and swallowed. *)
Definition saveWalletData (db : connection) (addr : jsstring)
    (pts : option number) (st : status) (errorMessage : option jsstring)
    : result connection :=
  match db with
  | None => Throw notInitialised
  | Some d =>
    if failing d then Ok (Some d)
    else Ok (Some {| rows := <[addr := {| address := addr; points := pts;
                                          wstatus := st;
                                          error_message := orNull errorMessage |}]>
                               (rows d);
                     failing := failing d |})
  end.

End Store.

Import Store.

(* ===================================================================== *)
(** ** The world *)
(* ===================================================================== *)

(** The calls a run makes to its collaborators, in order. *)
Inductive event :=
| EvProcess (privateKey : jsstring)
| EvSave (addr : jsstring) (pts : option number) (st : status) (msg : option jsstring)
| EvLaunch (tempProfile : jsstring)
| EvClose (tempProfile : jsstring)
| EvCleanup (tempProfile : jsstring).

Record world := World {
  db : connection;
  dirs : gset jsstring;
  trace : list event
}.

(** A computation reads and updates the world and returns or throws. *)
Definition M (A : Type) : Type := world -> result A * world.

Definition ret {A} (a : A) : M A := fun w => (Ok a, w).

Definition throw {A} (e : thrown) : M A := fun w => (Throw e, w).

Definition bind {A B} (m : M A) (k : A -> M B) : M B :=
  fun w =>
    match m w with
    | (Ok a, w') => k a w'
    | (Throw e, w') => (Throw e, w')
    end.

(** [try { m } catch (e) { h e }] *)
Definition try_catch {A} (m : M A) (h : thrown -> M A) : M A :=
  fun w =>
    match m w with
    | (Ok a, w') => (Ok a, w')
    | (Throw e, w') => h e w'
    end.

(** [try { m } catch { }] *)
Definition ignoring (m : M unit) : M unit := try_catch m (fun _ => ret tt).

Definition emit (ev : event) : M unit :=
  fun w => (Ok tt, World (db w) (dirs w) (trace w ++ [ev])).

Definition lift {A} (r : result A) : M A := fun w => (r, w).

Declare Scope m_scope.
Delimit Scope m_scope with M.
Notation "x <- m ;; k" := (bind m (fun x => k))
  (at level 100, m at next level, right associativity) : m_scope.
Notation "m ;; k" := (bind m (fun _ => k))
  (at level 100, right associativity) : m_scope.
Local Open Scope m_scope.

(** [saveWalletData] as the pipeline calls it. *)
Definition save (addr : jsstring) (pts : option number) (st : status)
    (msg : option jsstring) : M unit :=
  emit (EvSave addr pts st msg) ;;
  fun w =>
    match saveWalletData (db w) addr pts st msg with
    | Ok db' => (Ok tt, World db' (dirs w) (trace w))
    | Throw e => (Throw e, w)
    end.

(** A statement either runs to its end or returns from the function. *)
Inductive flow (A : Type) :=
| Returned (a : A)
| Next.

Arguments Returned {A} a.
Arguments Next {A}.

(* ===================================================================== *)
(** ** Loading the keys *)
(* ===================================================================== *)

Module Keys.

(** [/^0x[a-fA-F0-9]{64}$/] and [/^[a-fA-F0-9]{64}$/] *)
Definition prefixedKey : regex := cats [Bol; lit "0x"; times hexdigit 64 64; Eol].
Definition bareKey : regex := cats [Bol; times hexdigit 64 64; Eol].

(** What [loadPrivateKeys] reads. Class [KeyEncryption] lives in
    [key-encryption.ts], which is not part of the sources at hand: what
    its two methods answer is data here. [keysFile] is [keys.txt]:
    absent, unreadable, or its content. *)
Record key_source := {
  hasEncryptedKeys : bool;
  promptPasswordWithRetry : result (list jsstring);
  keysFile : option (result jsstring)
}.

(** The body of the [for] loop over the lines (lines 59-68). *)
Definition keysOfLine (line : jsstring) : list jsstring :=
  let trimmedLine := trim line in
  if truthy trimmedLine && negb (startsWith trimmedLine (js "#")) then
    if test prefixedKey trimmedLine then [trimmedLine]
    else if test bareKey trimmedLine then [js "0x" ++ trimmedLine]
    else []
  else [].

Definition loadPrivateKeys (src : key_source) : result (list jsstring) :=
  if hasEncryptedKeys src then
    match promptPasswordWithRetry src with
    | Ok ks => Ok ks
    | Throw _ => Ok []
    end
  else
    match keysFile src with
    | None => Ok []
    | Some (Throw e) => Throw e
    | Some (Ok content) => Ok (flat_map keysOfLine (split_lines content))
    end.

End Keys.

Import Keys.

(* ===================================================================== *)
(** ** The referral sub-flow and the points check *)
(* ===================================================================== *)

Module Referral.

(** [/Points\s+Earned:\s*(\d{1,3}(?:[,\s\u00A0]\d{3})*|\d+)/i] and the
    function evaluated at lines 1657-1673. *)
Definition earnedPattern : regex :=
  cats [lit_i "Points"; plus_g space; lit_i "Earned:"; star_g space; number_group].

Definition pointsEarnedOf (combinedText : jsstring) : option number :=
  match group1 (exec earnedPattern combinedText) with
  | Some (_, g) =>
    match parseClean g with
    | Some (_, num) => Some num
    | None => None
    end
  | None => None
  end.

(** What the page does while [enterReferralCode] runs (lines 1310-1855). *)
Record referral_env := {
  (** a locator finds the input and fills it (lines 1332-1374) *)
  inputByLocator : bool;
  (** otherwise the DOM sweep of line 1378 fills one, finds none, or
      rejects *)
  fillSweep : result bool;
  (** a locator presses Enter (lines 1441-1467) *)
  enterByLocator : bool;
  (** otherwise the DOM sweep of line 1471 rejects *)
  pressSweepError : option thrown;
  signInButtonFound : bool;
  closedAfterSignIn : bool;
  fundWalletButtonFound : bool;
  (** [waitForFunction] sees "Points Earned:" in time *)
  pointsEarnedShown : bool;
  (** the text of the body once it is shown *)
  earnedText : jsstring;
  doneButtonFound : bool
}.

Definition emptyBalanceError : thrown :=
  ErrorObj (js "Кошелек не подходит: баланс пуст").

(** Lines 1526-1845: the click on "Sign In" and what the page shows
    after it. *)
Definition afterSignIn (r : referral_env) : result (option number) :=
  if signInButtonFound r then
    if closedAfterSignIn r then Ok None
    else if fundWalletButtonFound r then Throw emptyBalanceError
    else if pointsEarnedShown r && doneButtonFound r then
      match pointsEarnedOf (earnedText r) with
      | Some pointsEarned => Ok (Some pointsEarned)
      | None => Ok None
      end
    else Ok None
  else Ok None.

(** The [try] block of [enterReferralCode] (lines 1313-1847). *)
Definition enterReferralCode_body (r : referral_env) : result (option number) :=
  match (if inputByLocator r then Ok true else fillSweep r) with
  | Throw e => Throw e
  | Ok inputFound =>
    if negb inputFound then Ok None
    else
      match (if enterByLocator r then None else pressSweepError r) with
      | Some e => Throw e
      | None => afterSignIn r
      end
  end.

(** [enterReferralCode]: its [catch] lets the empty-balance error through
    and turns any other into [null] (lines 1848-1854). *)
Definition enterReferralCode (r : referral_env) : result (option number) :=
  match enterReferralCode_body r with
  | Ok v => Ok v
  | Throw e => if isEmptyBalance e then Throw e else Ok None
  end.

(** What the page shows while [checkPointsOrUseReferralCode] runs. *)
Record page_env := {
  isClosed : bool;
  (** "Use Referral Code" is visible, by a locator or by the DOM sweep *)
  buttonFound : bool;
  referral : referral_env;
  (** the document [page.evaluate] runs on; [None] when it rejects *)
  evaluated : option document
}.

(** The [try] block of [checkPointsOrUseReferralCode] (lines 902-1299). *)
Definition checkPoints_body (p : page_env) : result (option number) :=
  if isClosed p then Ok None
  else if buttonFound p then
    match enterReferralCode (referral p) with
    | Ok (Some pointsFromReferral) => Ok (Some pointsFromReferral)
    | Ok None => Ok None
    | Throw e => if isEmptyBalance e then Throw e else Ok None
    end
  else
    match evaluated p with
    | Some d => Ok (extractPoints d)
    | None => Ok None
    end.

(** [checkPointsOrUseReferralCode]: the [try] block is closed by
    [catch { return null }] (lines 1300-1302). *)
Definition checkPointsOrUseReferralCode (p : page_env) : result (option number) :=
  match checkPoints_body p with
  | Ok v => Ok v
  | Throw _ => Ok None
  end.

End Referral.

Import Referral.

(* ===================================================================== *)
(** ** The wallet pipeline and the batch runner *)
(* ===================================================================== *)

Section Pipeline.

(** [privateKeyToAccount] of the viem library, reduced to the address of
    the account it builds; it throws on a key it does not accept. *)
Variable privateKeyToAccount : jsstring -> result jsstring.

Definition zeroAddress : jsstring :=
  js "0x0000000000000000000000000000000000000000".

(** [getAddressFromPrivateKey] (lines 23-31). *)
Definition getAddressFromPrivateKey (privateKey : jsstring) : jsstring :=
  match privateKeyToAccount privateKey with
  | Ok account_address => account_address
  | Throw _ => zeroAddress
  end.

(** What the browser does during one call of [processWallet]. *)
Record run_env := {
  (** [os.tmpdir()] and the digits of [Date.now()] *)
  tmpdir : jsstring;
  now : jsstring;
  (** [fs.mkdirSync] throws *)
  mkdirError : option thrown;
  (** [chromium.launchPersistentContext] rejects *)
  launchError : option thrown;
  findRainbowExtensionId : result (option jsstring);
  openRainbowWallet : option thrown;
  (** [walletPage.goto(walletMainUrl)] rejects *)
  gotoError : option thrown;
  page : page_env;
  (** [context.close()] rejects *)
  closeError : option thrown;
  (** [fs.rmSync] throws *)
  rmError : bool
}.

Definition failWith (e : option thrown) : M unit :=
  match e with
  | Some x => throw x
  | None => ret tt
  end.

(** [createTempProfile] (lines 77-81):
    [path.join(os.tmpdir(), `rainbow_wallet_${Date.now()}`)]. *)
Definition tempPath (env : run_env) : jsstring :=
  tmpdir env ++ js "/rainbow_wallet_" ++ now env.

Definition createTempProfile (env : run_env) : M jsstring :=
  let tempDir := tempPath env in
  failWith (mkdirError env) ;;
  (fun w => (Ok tt, World (db w) ({[ tempDir ]} ∪ dirs w) (trace w))) ;;
  ret tempDir.

(** [launchBrowserWithRainbow] (lines 122-175); minimising the window is
    wrapped in its own [try] and leaves no mark. *)
Definition launchBrowserWithRainbow (env : run_env) : M jsstring :=
  tempProfile <- createTempProfile env ;;
  emit (EvLaunch tempProfile) ;;
  failWith (launchError env) ;;
  ret tempProfile.

(** [cleanupTempProfile] (lines 106-114). *)
Definition cleanupTempProfile (env : run_env) (tempProfile : jsstring) : M unit :=
  emit (EvCleanup tempProfile) ;;
  fun w =>
    if bool_decide (tempProfile ∈ dirs w) && negb (rmError env)
    then (Ok tt, World (db w) (dirs w ∖ {[ tempProfile ]}) (trace w))
    else (Ok tt, w).

(** [await context.close()] *)
Definition closeContext (env : run_env) (tempProfile : jsstring) : M unit :=
  emit (EvClose tempProfile) ;;
  failWith (closeError env).

(** The block that ends every path of [processWallet] (lines 1938-1949,
    1966-1977, 1990-2001 and 2015-2026):
    [try { if (context) await context.close() } catch { }
     if (tempProfile) cleanupTempProfile(tempProfile)].
    [session] is [None] while [context] and [tempProfile] are still
    [null]. *)
Definition tearDown (env : run_env) (session : option jsstring) : M unit :=
  match session with
  | Some tempProfile =>
    ignoring (closeContext env tempProfile) ;;
    if truthy tempProfile then cleanupTempProfile env tempProfile else ret tt
  | None => ret tt
  end.

Definition extensionNotFound : thrown :=
  ErrorObj (js "Не удалось найти расширение Rainbow Wallet").

(** Lines 1925-1984: the inner [try] around the points check, for a check
    that ends as [checked]. *)
Definition pointsBlockOn (checked : result (option number)) (env : run_env)
    (walletAddress : jsstring) (session : option jsstring) : M (flow bool) :=
  try_catch
    (points <- lift checked ;;
     match points with
     | Some pts =>
       ignoring (save walletAddress (Some pts) success None) ;;
       tearDown env session ;;
       ret (Returned true)
     | None => ret Next
     end)
    (fun e =>
       if isEmptyBalance e then
         ignoring (save walletAddress (Some (Num 0)) empty_balance (Some (js "Баланс пуст"))) ;;
         tearDown env session ;;
         ret (Returned false)
       else throw e).

Definition pointsBlock (env : run_env) (walletAddress : jsstring)
    (session : option jsstring) : M (flow bool) :=
  pointsBlockOn (checkPointsOrUseReferralCode (page env)) env walletAddress session.

(** Lines 1916-1987: the [try] around the main view, closed by
    [catch { }]. The click and fill steps before it, from
    [clickImportOrConnectButton] to [enterPasswordAndSet], and
    [clickPointsTab] catch whatever they meet and write nothing, so they
    do not appear. *)
Definition mainViewBlock (env : run_env) (walletAddress : jsstring)
    (session : option jsstring) : M (flow bool) :=
  try_catch
    (failWith (gotoError env) ;;
     pointsBlock env walletAddress session)
    (fun _ => ret Next).

(** Lines 1890-2003: the outer [try] once the browser is up. *)
Definition afterLaunch (env : run_env) (walletAddress : jsstring)
    (session : option jsstring) : M bool :=
  extensionId <- lift (findRainbowExtensionId env) ;;
  (match extensionId with
   | Some ext => if truthy ext then ret tt else throw extensionNotFound
   | None => throw extensionNotFound
   end) ;;
  failWith (openRainbowWallet env) ;;
  fl <- mainViewBlock env walletAddress session ;;
  match fl with
  | Returned b => ret b
  | Next =>
    tearDown env session ;;
    ret true
  end.

(** Lines 2004-2029: the outer [catch]. *)
Definition onError (env : run_env) (walletAddress : jsstring)
    (session : option jsstring) (e : thrown) : M bool :=
  let errorMessage := messageOf e in
  ignoring (save walletAddress None error (Some errorMessage)) ;;
  tearDown env session ;;
  throw e.

(** [processWallet] (lines 1863-2030). [context] and [tempProfile] are
    assigned when the launch returns, so the [catch] sees them set exactly
    when the launch has succeeded. *)
Definition processWallet (env : run_env) (privateKey : jsstring) : M bool :=
  let walletAddress := getAddressFromPrivateKey privateKey in
  emit (EvProcess privateKey) ;;
  fun w =>
    match launchBrowserWithRainbow env w with
    | (Throw e, w') => onError env walletAddress None e w'
    | (Ok tempProfile, w') =>
      try_catch (afterLaunch env walletAddress (Some tempProfile))
                (onError env walletAddress (Some tempProfile)) w'
    end.

(** [shuffleArray] (lines 91-100); [rand i] is the index drawn at step
    [i], which [Math.floor(Math.random() * (i + 1))] keeps within [0, i]. *)
Fixpoint shuffle_loop {A} (rand : nat -> nat) (i : nat) (shuffled : list A) : list A :=
  match i with
  | O => shuffled
  | S i' =>
    let j := Nat.min (rand i) i in
    match shuffled !! i, shuffled !! j with
    | Some temp, Some other =>
      shuffle_loop rand i' (<[j := temp]> (<[i := other]> shuffled))
    | _, _ => shuffle_loop rand i' shuffled
    end
  end.

Definition shuffleArray {A} (rand : nat -> nat) (array : list A) : list A :=
  shuffle_loop rand (length array - 1) array.

Record tally := Tally {
  successCount : nat;
  errorCount : nat;
  skippedCount : nat
}.

(** The body of the [for] loop of [importWallet] (lines 2079-2112) for one
    key, and the loop over the keys; [runs i] is what the browser does in
    turn [i]. *)
Definition processKey (env : run_env) (privateKey : jsstring) (t : tally) : M tally :=
  let walletAddress := getAddressFromPrivateKey privateKey in
  skip <- (fun w => (shouldSkipWallet (db w) walletAddress, w)) ;;
  if (skip : bool) then
    ret (Tally (successCount t) (errorCount t) (S (skippedCount t)))
  else
    try_catch
      (result <- processWallet env privateKey ;;
       if (result : bool)
       then ret (Tally (S (successCount t)) (errorCount t) (skippedCount t))
       else ret t)
      (fun e =>
         let errorMessage := messageOf e in
         ignoring (save walletAddress None error (Some errorMessage)) ;;
         ret (Tally (successCount t) (S (errorCount t)) (skippedCount t))).

Fixpoint processKeys (runs : nat -> run_env) (i : nat) (privateKeys : list jsstring)
    (t : tally) : M tally :=
  match privateKeys with
  | [] => ret t
  | privateKey :: rest =>
    t' <- processKey (runs i) privateKey t ;;
    processKeys runs (S i) rest t'
  end.

(** What [importWallet] meets outside the per-wallet runs. *)
Record batch_env := {
  (** [new Database(dbPath)]: the connection, or what it throws *)
  opened : result database;
  (** the pragma or the schema statements throw *)
  setupError : option thrown;
  checkAndOfferEncryption : result bool;
  keySource : key_source;
  rand : nat -> nat;
  extensionExists : bool;
  runs : nat -> run_env
}.

(** [initDatabase] (database.ts, lines 31-57). *)
Definition initDatabase (b : batch_env) : M unit :=
  match opened b with
  | Throw e => throw e
  | Ok d =>
    (fun w => (Ok tt, World (Some d) (dirs w) (trace w))) ;;
    failWith (setupError b)
  end.

(** [importWallet] (lines 2036-2122); the tally is what the final
    statistics print, [None] when the function returns before the loop. *)
Definition importWallet (b : batch_env) : M (option tally) :=
  ignoring (initDatabase b) ;;
  shouldExit <- lift (checkAndOfferEncryption b) ;;
  if (shouldExit : bool) then ret None
  else
    privateKeys <- lift (loadPrivateKeys (keySource b)) ;;
    match privateKeys with
    | [] => ret None
    | _ :: _ =>
      let shuffledKeys := shuffleArray (rand b) privateKeys in
      if negb (extensionExists b) then ret None
      else
        t <- processKeys (runs b) 0 shuffledKeys (Tally 0 0 0) ;;
        ret (Some t)
    end.

End Pipeline.

(* ===================================================================== *)
(** ** The key-derivation library *)
(* ===================================================================== *)

(** [privateKeyToAccount] belongs to viem, an external dependency: the
    pipeline above takes it as a parameter. This module follows the
    published algorithm (the secp256k1 public key of the scalar,
    Keccak-256 of its 64 bytes, the last 20 bytes in hexadecimal with the
    EIP-55 checksum) so that the pipeline can be run on a concrete key. The
    curve arithmetic is affine and slow on large scalars. *)
Module Viem.

Local Open Scope N_scope.

(** *** Keccak-256 *)

Definition lane := N.
Definition mask64 : N := 18446744073709551615.

Definition rotl (v : lane) (r : N) : lane :=
  N.lor (N.land (N.shiftl v r) mask64) (N.shiftr v (64 - r)).

Definition roundConstants : list lane :=
  [0x0000000000000001; 0x0000000000008082; 0x800000000000808A; 0x8000000080008000;
   0x000000000000808B; 0x0000000080000001; 0x8000000080008081; 0x8000000000008009;
   0x000000000000008A; 0x0000000000000088; 0x0000000080008009; 0x000000008000000A;
   0x000000008000808B; 0x800000000000008B; 0x8000000000008089; 0x8000000000008003;
   0x8000000000008002; 0x8000000000000080; 0x000000000000800A; 0x800000008000000A;
   0x8000000080008081; 0x8000000000008080; 0x0000000080000001; 0x8000000080008008].

(** Rotation offsets, at index [x + 5 * y]. *)
Definition rotationOffsets : list N :=
  [0; 1; 62; 28; 27;  36; 44; 6; 55; 20;  3; 10; 43; 25; 39;
   41; 45; 15; 21; 8;  18; 2; 61; 56; 14].

Definition at_ (A : list lane) (i : nat) : lane := nth i A 0.

Definition indices : list nat := seq 0 25.

Definition theta (A : list lane) : list lane :=
  let C := map (fun x => N.lxor (at_ A x) (N.lxor (at_ A (x + 5))
             (N.lxor (at_ A (x + 10)) (N.lxor (at_ A (x + 15)) (at_ A (x + 20))))))
             (seq 0 5) in
  let D := map (fun x => N.lxor (at_ C ((x + 4) mod 5))
                                (rotl (at_ C ((x + 1) mod 5)) 1)) (seq 0 5) in
  map (fun i => N.lxor (at_ A i) (at_ D (i mod 5))) indices.

(** [B[y, 2x + 3y] = rot(A[x, y], r[x, y])], read from the side of [B]:
    the lane at [(X, Y)] comes from [x = (X + 3 Y) mod 5], [y = X]. *)
Definition rhoPi (A : list lane) : list lane :=
  map (fun i =>
         let X := (i mod 5)%nat in
         let Y := (i / 5)%nat in
         let x := ((X + 3 * Y) mod 5)%nat in
         let y := X in
         rotl (at_ A (x + 5 * y)) (nth (x + 5 * y) rotationOffsets 0)) indices.

Definition chi (B : list lane) : list lane :=
  map (fun i =>
         let x := (i mod 5)%nat in
         let y := (i / 5)%nat in
         N.lxor (at_ B i)
                (N.ldiff (at_ B ((x + 2) mod 5 + 5 * y)) (at_ B ((x + 1) mod 5 + 5 * y))))
      indices.

Definition iota (rc : lane) (A : list lane) : list lane :=
  match A with
  | a :: A' => N.lxor a rc :: A'
  | [] => []
  end.

Definition keccakF (A : list lane) : list lane :=
  fold_left (fun A rc => iota rc (chi (rhoPi (theta A)))) roundConstants A.

Fixpoint laneOfBytes (bs : list N) : lane :=
  match bs with
  | [] => 0
  | b :: bs' => b + 256 * laneOfBytes bs'
  end.

Fixpoint bytesOfLane (k : nat) (v : lane) : list N :=
  match k with
  | O => []
  | S k' => (v mod 256) :: bytesOfLane k' (v / 256)
  end.

Fixpoint chunks {A} (fuel size : nat) (l : list A) : list (list A) :=
  match fuel with
  | O => []
  | S fuel' =>
    match l with
    | [] => []
    | _ :: _ => firstn size l :: chunks fuel' size (skipn size l)
    end
  end.

Definition rate : nat := 136.

(** Padding [pad10*1] with the Keccak domain bit: [0x01 ... 0x80]. *)
Definition pad (msg : list N) : list N :=
  let k := (rate - (length msg mod rate))%nat in
  match k with
  | 1%nat => msg ++ [129]
  | _ => msg ++ [1] ++ repeat 0 (k - 2) ++ [128]
  end.

Definition absorb (A : list lane) (block : list N) : list lane :=
  let ls := map laneOfBytes (chunks 17 8 block) in
  keccakF (map (fun i => N.lxor (at_ A i) (nth i ls 0)) indices).

Definition keccak256 (msg : list N) : list N :=
  let padded := pad msg in
  let A := fold_left absorb (chunks (length padded) rate padded) (repeat 0 25) in
  flat_map (bytesOfLane 8) (firstn 4 A).

(** *** secp256k1 *)

Local Open Scope Z_scope.

Definition fieldP : Z := 2 ^ 256 - 2 ^ 32 - 977.
Definition orderN : Z :=
  0xFFFFFFFFFFFFFFFFFFFFFFFFFFFFFFFEBAAEDCE6AF48A03BBFD25E8CD0364141.
Definition Gx : Z :=
  0x79BE667EF9DCBBAC55A06295CE870B07029BFCDB2DCE28D959F2815B16F81798.
Definition Gy : Z :=
  0x483ADA7726A3C4655DA4FBFC0E1108A8FD17B448A68554199C47D08FFB10D4B8.

Fixpoint powmod (b : Z) (e : positive) : Z :=
  match e with
  | xH => b mod fieldP
  | xO e' => let h := powmod b e' in (h * h) mod fieldP
  | xI e' => let h := powmod b e' in (h * h mod fieldP * b) mod fieldP
  end.

Definition inv (a : Z) : Z := powmod (a mod fieldP) (Z.to_pos (fieldP - 2)).

(** A point of the curve, [None] for the point at infinity. *)
Definition point := option (Z * Z).

Definition padd (P Q : point) : point :=
  match P, Q with
  | None, _ => Q
  | _, None => P
  | Some (x1, y1), Some (x2, y2) =>
    if x1 =? x2 then
      if (y1 + y2) mod fieldP =? 0 then None
      else
        let l := (3 * x1 * x1 * inv (2 * y1)) mod fieldP in
        let x3 := (l * l - x1 - x2) mod fieldP in
        Some (x3, (l * (x1 - x3) - y1) mod fieldP)
    else
      let l := ((y2 - y1) * inv (x2 - x1)) mod fieldP in
      let x3 := (l * l - x1 - x2) mod fieldP in
      Some (x3, (l * (x1 - x3) - y1) mod fieldP)
  end.

Fixpoint pmul (k : positive) (P : point) : point :=
  match k with
  | xH => P
  | xO k' => let h := pmul k' P in padd h h
  | xI k' => let h := pmul k' P in padd (padd h h) P
  end.

Local Open Scope N_scope.

(** *** Hexadecimal *)

Definition hexValue (c : N) : N :=
  if (48 <=? c) && (c <=? 57) then c - 48
  else if (97 <=? c) && (c <=? 102) then c - 87
  else c - 55.

Definition isHexDigit (c : N) : bool :=
  ((48 <=? c) && (c <=? 57)) || ((97 <=? c) && (c <=? 102))
  || ((65 <=? c) && (c <=? 70)).

Definition numberOfHex (h : jsstring) : N :=
  fold_left (fun acc c => acc * 16 + hexValue c) h 0.

Definition hexDigit (v : N) : N := if v <? 10 then 48 + v else 87 + v.

Definition hexOfBytes (bs : list N) : jsstring :=
  flat_map (fun b => [hexDigit (b / 16); hexDigit (b mod 16)]) bs.

(** 32 bytes, big-endian. *)
Definition bytes32 (v : Z) : list N := rev (bytesOfLane 32 (Z.to_N v)).

(** EIP-55: a letter is upper-cased when the matching nibble of the hash
    of the lower-case address is 8 or more. *)
Definition checksumAddress (hexAddress : jsstring) : jsstring :=
  let hash := hexOfBytes (keccak256 hexAddress) in
  js "0x" ++
  map (fun '(c, h) =>
         if (8 <=? hexValue h) && (97 <=? c) && (c <=? 102) then c - 32 else c)
      (combine hexAddress hash).

Definition invalidKey : thrown := ErrorObj (js "invalid private key").

(** [privateKeyToAccount(privateKey).address]:
    [checksumAddress(keccak256(publicKey without its first byte) from
    its 13th byte)]. The key is read after its first two characters and
    must be 32 bytes of hexadecimal naming a scalar in [1, n - 1]. *)
Definition privateKeyToAccount (privateKey : jsstring) : result jsstring :=
  let h := skipn 2 privateKey in
  if (length h =? 64)%nat && forallb isHexDigit h then
    let d := Z.of_N (numberOfHex h) in
    if ((0 <? d) && (d <? orderN))%Z then
      match pmul (Z.to_pos d) (Some (Gx, Gy)) with
      | Some (x, y) =>
        let hashed := keccak256 (bytes32 x ++ bytes32 y) in
        Ok (checksumAddress (hexOfBytes (skipn 12 hashed)))
      | None => Throw invalidKey
      end
    else Throw invalidKey
  else Throw invalidKey.

End Viem.

(* ===================================================================== *)
(** ** Vocabulary of the properties *)
(* ===================================================================== *)

(** A canonical key: [0x] and 64 hexadecimal digits. *)
Definition hex64 (h : jsstring) : bool :=
  (length h =? 64)%nat && forallb isHex h.

Definition prefixed (t : jsstring) : bool :=
  match t with
  | a :: b :: h => (a =? 48) && (b =? 120) && hex64 h
  | _ => false
  end.

Definition key_shape (s : jsstring) : Prop :=
  exists h, s = js "0x" ++ h /\ length h = 64%nat /\ Forall (fun c => isHex c = true) h.



(** The events by kind. *)
Definition isSave (ev : event) : bool :=
  match ev with EvSave _ _ _ _ => true | _ => false end.

Definition isClose (ev : event) : bool :=
  match ev with EvClose _ => true | _ => false end.

Definition isCleanup (ev : event) : bool :=
  match ev with EvCleanup _ => true | _ => false end.

Definition savesOf (evs : list event) : list event := List.filter isSave evs.

(** The events a computation adds to the trace. *)
Definition eventsOf {A} (m : M A) (w : world) : list event :=
  skipn (length (trace w)) (trace (snd (m w))).

(** The store after a call of [saveWalletData] whose exception, if any, is
    ignored. *)
Definition savedDb (c : connection) (addr : jsstring) (pts : option number)
    (st : status) (msg : option jsstring) : connection :=
  match saveWalletData c addr pts st msg with
  | Ok c' => c'
  | Throw _ => c
  end.

(** The directories after [cleanupTempProfile]. *)
Definition dirsAfterCleanup (env : run_env) (tempProfile : jsstring)
    (ds : gset jsstring) : gset jsstring :=
  if bool_decide (tempProfile ∈ ds) && negb (rmError env)
  then ds ∖ {[ tempProfile ]}
  else ds.

(** The browser came up: the profile directory was made and the context
    launched. *)
Definition launched (env : run_env) : Prop :=
  mkdirError env = None /\ launchError env = None.

(** [if (!extensionId)] *)
Definition extensionPresent (ext : option jsstring) : bool :=
  match ext with
  | Some x => truthy x
  | None => false
  end.

(** A step between the launch and the main view ends the outer [try] of
    [processWallet] with an exception: the extension search rejects, finds
    nothing, or the wallet page does not open. *)
Inductive fatalStep (env : run_env) : thrown -> Prop :=
| fatal_search e :
    findRainbowExtensionId env = Throw e -> fatalStep env e
| fatal_missing ext :
    findRainbowExtensionId env = Ok ext -> extensionPresent ext = false ->
    fatalStep env extensionNotFound
| fatal_open ext e :
    findRainbowExtensionId env = Ok ext -> extensionPresent ext = true ->
    openRainbowWallet env = Some e -> fatalStep env e.

(** The three ways a launched run leaves [processWallet]. *)
Inductive exitPath :=
| ExitSuccess (pts : number)
| ExitNotFound
| ExitError (e : thrown).

Definition exitOf (env : run_env) : exitPath :=
  match findRainbowExtensionId env with
  | Throw e => ExitError e
  | Ok ext =>
    if extensionPresent ext then
      match openRainbowWallet env with
      | Some e => ExitError e
      | None =>
        match gotoError env with
        | Some _ => ExitNotFound
        | None =>
          match checkPointsOrUseReferralCode (page env) with
          | Ok (Some pts) => ExitSuccess pts
          | _ => ExitNotFound
          end
        end
      end
    else ExitError extensionNotFound
  end.

(** The world once the browser is up. *)
Definition launchedWorld (env : run_env) (key : jsstring) (w : world) : world :=
  World (db w) ({[ tempPath env ]} ∪ dirs w)
        (trace w ++ [EvProcess key; EvLaunch (tempPath env)]).

(** The world when a launched run leaves [processWallet], having made the
    store calls [saves] on the way. *)
Definition exitWorld (env : run_env) (key : jsstring) (w : world)
    (c : connection) (saves : list event) : world :=
  World c (dirsAfterCleanup env (tempPath env) ({[ tempPath env ]} ∪ dirs w))
        (trace w ++ [EvProcess key; EvLaunch (tempPath env)] ++ saves
           ++ [EvClose (tempPath env); EvCleanup (tempPath env)]).

(** The points check is reached and finds [pts]. *)
Definition pointsFound (env : run_env) (pts : number) : Prop :=
  exists ext,
    findRainbowExtensionId env = Ok ext /\ extensionPresent ext = true
    /\ openRainbowWallet env = None /\ gotoError env = None
    /\ checkPointsOrUseReferralCode (page env) = Ok (Some pts).

(** The sub-flow gets as far as seeing "Fund My Wallet". *)
Definition fundWalletSeen (p : page_env) : Prop :=
  isClosed p = false /\ buttonFound p = true
  /\ inputByLocator (referral p) = true
  /\ enterByLocator (referral p) = true
  /\ signInButtonFound (referral p) = true
  /\ closedAfterSignIn (referral p) = false
  /\ fundWalletButtonFound (referral p) = true.

(* ===================================================================== *)
(** ** Sample pages and environments *)
(* ===================================================================== *)

Module Samples.

Definition block : style := Style (js "block") (js "visible") (js "1").

(** An element laid out inline whose rendered text is the text of its
    children. *)
Definition el (ks : list node) : node := Elem block (flat_map textContent ks) ks.

Definition txt (s : string) : node := Text (js s).

(** [<html><head></head><body> ks </body></html>] *)
Definition pageOf (ks : list node) : document :=
  Document (el [el []; el ks]) 1.

(** All of the sentence in one element. *)
Definition rankFlat : document :=
  pageOf [el [txt "My Points 750 points to rank #1,200"]].


(** [<div><span>My Points</span><span>12,345</span></div>] *)
Definition labelAndNumber : document :=
  pageOf [el [el [txt "My Points"]; el [txt "12,345"]]].

(** [<div><span>My Points</span><span>12,345</span> <span>100 friends</span></div>] *)
Definition labelNumberFriends : document :=
  pageOf [el [el [txt "My Points"]; el [txt "12,345"]; txt " ";
              el [txt "100 friends"]]].

(** [<div><span>My Points</span><span>12,345</span>
         <span>750 points to rank #1,200 on the leaderboard</span></div>] *)
Definition labelNumberRank : document :=
  pageOf [el [el [txt "My Points"]; el [txt "12,345"];
              el [txt "750 points to rank #1,200 on the leaderboard"]]].




(** The key of scalar 1 and the address viem derives from it. *)
Definition key1 : jsstring :=
  js "0x0000000000000000000000000000000000000000000000000000000000000001".

Definition address1 : jsstring := js "0x7E5F4552091A69125d5DfCb7b8C2659029395Bdf".

Definition emptyStore : database := {| rows := ∅; failing := false |}.

(** A store that already holds a success for [address1]. *)
Definition doneStore : database :=
  {| rows := {[ address1 := {| address := address1; points := Some (Num 1500);
                               wstatus := success; error_message := None |} ]};
     failing := false |}.

Definition world0 : world := World (Some emptyStore) ∅ [].
Definition worldDone : world := World (Some doneStore) ∅ [].

Definition tally0 : tally := Tally 0 0 0.

(** A sub-flow in which nothing shows up. *)
Definition idleReferral : referral_env :=
  {| inputByLocator := false; fillSweep := Ok false; enterByLocator := false;
     pressSweepError := None; signInButtonFound := false;
     closedAfterSignIn := false; fundWalletButtonFound := false;
     pointsEarnedShown := false; earnedText := []; doneButtonFound := false |}.

(** The code is entered, "Sign In" is clicked, "Fund My Wallet" shows. *)
Definition fundWalletReferral : referral_env :=
  {| inputByLocator := true; fillSweep := Ok false; enterByLocator := true;
     pressSweepError := None; signInButtonFound := true;
     closedAfterSignIn := false; fundWalletButtonFound := true;
     pointsEarnedShown := false; earnedText := []; doneButtonFound := false |}.

(** A points tab without the referral button, showing [d]. *)
Definition showing (d : document) : page_env :=
  {| isClosed := false; buttonFound := false; referral := idleReferral;
     evaluated := Some d |}.

(** A points tab with the referral button and the sub-flow [r]. *)
Definition offering (r : referral_env) : page_env :=
  {| isClosed := false; buttonFound := true; referral := r;
     evaluated := Some (pageOf []) |}.

(** A run in which every step before the points tab goes well. *)
Definition runOn (p : page_env) : run_env :=
  {| tmpdir := js "/tmp"; now := js "1730000000000";
     mkdirError := None; launchError := None;
     findRainbowExtensionId := Ok (Some (js "opfgelmcmbiajamepnmloijbpoleiama"));
     openRainbowWallet := None; gotoError := None; page := p;
     closeError := None; rmError := false |}.

(** The extension is not found. *)
Definition runWithoutExtension : run_env :=
  {| tmpdir := js "/tmp"; now := js "1730000000000";
     mkdirError := None; launchError := None;
     findRainbowExtensionId := Ok None;
     openRainbowWallet := None; gotoError := None; page := showing labelAndNumber;
     closeError := None; rmError := false |}.

(** The navigation to the main view fails, and so does closing. *)
Definition runGotoFails : run_env :=
  {| tmpdir := js "/tmp"; now := js "1730000000000";
     mkdirError := None; launchError := None;
     findRainbowExtensionId := Ok (Some (js "opfgelmcmbiajamepnmloijbpoleiama"));
     openRainbowWallet := None;
     gotoError := Some (ErrorObj (js "net::ERR_FAILED"));
     page := showing labelAndNumber;
     closeError := Some (ErrorObj (js "Target closed")); rmError := false |}.

(** [keys.txt] with a comment, a bare key, a prefixed key, a key that is
    too short and an empty line. *)
Definition keysTxt : jsstring :=
  js "# wallets" ++ [10]
  ++ skipn 2 key1 ++ [13; 10]
  ++ js "  0xAC0974BEC39A17E36BA4A6B4D238FF944BACB478CBED5EFCAE784D7BF4F2FF80" ++ [10]
  ++ js "0x1234" ++ [10]
  ++ [10].

Definition plainKeys : key_source :=
  {| hasEncryptedKeys := false; promptPasswordWithRetry := Ok [];
     keysFile := Some (Ok keysTxt) |}.

(** Encrypted keys exist and the decryption yields one string. *)
Definition decryptedKeys : key_source :=
  {| hasEncryptedKeys := true; promptPasswordWithRetry := Ok [js "not a key"];
     keysFile := Some (Ok keysTxt) |}.

(** [keys.txt] with the bare key of scalar 1 alone. *)
Definition oneKey : key_source :=
  {| hasEncryptedKeys := false; promptPasswordWithRetry := Ok [];
     keysFile := Some (Ok (skipn 2 key1 ++ [10])) |}.

(** A batch over [oneKey] whose run shows the label and its number; the
    store opens when [store] is [Ok]. *)
Definition batchOn (store : result database) : batch_env :=
  {| opened := store; setupError := None; checkAndOfferEncryption := Ok false;
     keySource := oneKey; rand := fun _ => 0%nat; extensionExists := true;
     runs := fun _ => runOn (showing labelAndNumber) |}.

(** A world without a connection. *)
Definition worldOff : world := World None ∅ [].

End Samples.

(* ===================================================================== *)
(** * More of the code *)
(* ===================================================================== *)

(** ** The statistics of the store (database.ts) *)

Module Stats.

(** [getAllWallets] (lines 122-134). The rows come ordered by their time
    of last check, which the records here do not carry: they are listed in
    the order of the map, and what is stated of the list does not depend on
    its order. A failing statement gives the empty list. *)
Definition getAllWallets (c : connection) : result (list WalletRecord) :=
  match c with
  | None => Throw notInitialised
  | Some d => if failing d then Ok [] else Ok (map snd (map_to_list (rows d)))
  end.

Record WalletStats := {
  total : nat;
  withPoints : nat;
  withoutPoints : nat;
  errors : nat;
  totalPoints : number;
  averagePoints : number
}.

Definition hasPoints (w : WalletRecord) : bool :=
  match points w with
  | Some p => gt0 p
  | None => false
  end.

(** [w.status === 'success' && w.points !== null && w.points > 0] *)
Definition countsWithPoints (w : WalletRecord) : bool :=
  status_eqb (wstatus w) success && hasPoints w.

(** [w.status === 'empty_balance' ||
     (w.status === 'success' && (w.points === null || w.points === 0))] *)
Definition countsWithoutPoints (w : WalletRecord) : bool :=
  status_eqb (wstatus w) empty_balance
  || (status_eqb (wstatus w) success
      && match points w with
         | None => true
         | Some p => is0 p
         end).

Definition countsError (w : WalletRecord) : bool :=
  status_eqb (wstatus w) error.

(** [w.points || 0] *)
Definition pointsOrZero (w : WalletRecord) : number :=
  match points w with
  | Some p => p
  | None => Num 0
  end.

(** [a + b]. The sum of two integers is taken exactly: the rounding of a
    sum above 2^53 is outside this model. [Infinity + -Infinity], which
    is [NaN], does not arise below, where only numbers above zero are
    added. *)
Definition nadd (a b : number) : number :=
  match a, b with
  | Num x, Num y => Num (x + y)
  | NegInfinity, _ | _, NegInfinity => NegInfinity
  | _, _ => Infinity
  end.


(** [Math.round(a / n)] for [a >= 0] and [n > 0]: the nearest integer,
    a half rounded up. The quotient of two integers below 2^52 is close
    enough to the exact one for the rounding to agree. *)
Definition roundDiv (a : Z) (n : nat) : Z :=
  ((2 * a + Z.of_nat n) / (2 * Z.of_nat n))%Z.

Definition roundDivN (a : number) (n : nat) : number :=
  match a with
  | Num z => Num (roundDiv z n)
  | Infinity => Infinity
  | NegInfinity => NegInfinity
  end.

(** The statistics of a list of rows (lines 145-162). *)
Definition statsOf (allWallets : list WalletRecord) : WalletStats :=
  let walletsWithPoints := List.filter hasPoints allWallets in
  let totalPoints := fold_left (fun sum w => nadd sum (pointsOrZero w))
                       walletsWithPoints (Num 0) in
  {| total := length allWallets;
     withPoints := length (List.filter countsWithPoints allWallets);
     withoutPoints := length (List.filter countsWithoutPoints allWallets);
     errors := length (List.filter countsError allWallets);
     totalPoints := totalPoints;
     averagePoints :=
       if (0 <? length walletsWithPoints)%nat
       then roundDivN totalPoints (length walletsWithPoints)
       else Num 0 |}.

(** [getWalletStats] (lines 139-174). *)
Definition getWalletStats (c : connection) : result WalletStats :=
  match c with
  | None => Throw notInitialised
  | Some _ =>
    match getAllWallets c with
    | Ok allWallets => Ok (statsOf allWallets)
    | Throw _ =>
      Ok {| total := 0; withPoints := 0; withoutPoints := 0; errors := 0;
            totalPoints := Num 0; averagePoints := Num 0 |}
    end
  end.

(** A row that one of the three counters counts. *)
Definition counted (w : WalletRecord) : bool :=
  countsWithPoints w || countsWithoutPoints w || countsError w.

(** A row as the pipeline writes it: a success with points above zero, or
    an error. *)
Definition pipelineRow (w : WalletRecord) : bool :=
  countsWithPoints w || countsError w.

(** A store that holds such rows only. *)
Definition pipelineStore (c : connection) : Prop :=
  match c with
  | Some d => map_Forall (fun _ w => pipelineRow w = true) (rows d)
  | None => True
  end.


End Stats.

Import Stats.

(** ** The statistics screen (menu.ts) *)

Module Menu.

(** [Array.prototype.sort(comparefn)]. The sort is stable (ECMA-262 since
    2019), and for a comparator that is a total preorder, as the one below
    is, the result is then fixed: it is the one of the stable insertion
    sort written here. *)
Fixpoint insertBy {A} (comparefn : A -> A -> Z) (x : A) (l : list A) : list A :=
  match l with
  | [] => [x]
  | y :: l' =>
    if (comparefn x y <=? 0)%Z then x :: l else y :: insertBy comparefn x l'
  end.

Definition sortBy {A} (comparefn : A -> A -> Z) (l : list A) : list A :=
  fold_right (insertBy comparefn) [] l.

Section Order.

Variable privateKeyToAccount : jsstring -> result jsstring.

(** Lines 106-110: the map from the lower-cased address of each key to the
    key's index; a later [set] of the same address replaces the earlier.
    What is proved of the order below holds for any lower-casing. *)
Definition addressOrder (privateKeys : list jsstring) : gmap jsstring nat :=
  fold_left
    (fun m ik =>
       <[toLowerCase (getAddressFromPrivateKey privateKeyToAccount (snd ik)) := fst ik]> m)
    (imap pair privateKeys) ∅.

(** The comparator of lines 113-126. *)
Definition compareWallets (order : gmap jsstring nat) (a b : WalletRecord) : Z :=
  let orderA := order !! toLowerCase (address a) in
  let orderB := order !! toLowerCase (address b) in
  match orderA, orderB with
  | Some oa, Some ob => (Z.of_nat oa - Z.of_nat ob)%Z
  | Some _, None => (-1)%Z
  | None, Some _ => 1%Z
  | None, None => 0%Z
  end.

(** Lines 102-130 of [showStatistics]: the rows in the order of the key
    file; they stay as they are when no key is loaded or loading throws. *)
Definition orderedWallets (src : key_source) (wallets : list WalletRecord)
    : list WalletRecord :=
  match loadPrivateKeys src with
  | Ok [] => wallets
  | Ok privateKeys =>
    sortBy (compareWallets (addressOrder privateKeys)) wallets
  | Throw _ => wallets
  end.

End Order.

(** [s.padEnd(n)] *)
Definition padEnd (s : jsstring) (n : Z) : jsstring :=
  s ++ repeat 32 (Z.to_nat n - length s).

Definition col3Width : Z := 20.

(** Lines 160-167: the text of the status column. *)
Definition statusText (wallet : WalletRecord) : jsstring :=
  match wstatus wallet with
  | success => js "Успешно"
  | empty_balance => js "Пустой баланс"
  | error =>
    match error_message wallet with
    | Some m =>
      if truthy m then js "Ошибка: " ++ substring m 0 15 else js "Ошибка"
    | None => js "Ошибка"
    end
  | pending => js "Ошибка"
  end.

(** Lines 169-174: the text is cut when it is too long, then padded. *)
Definition statusCell (wallet : WalletRecord) : jsstring :=
  let status := statusText wallet in
  let status :=
    if (col3Width - 2 <? jslength status)%Z
    then substring status 0 (col3Width - 5) ++ js "..."
    else status in
  padEnd status (col3Width - 2).

End Menu.

Import Menu.

(** ** The proxy list (proxy-manager.ts) *)

Module Proxy.

(** [port] is [None] when [parseInt] gives [NaN]. *)
Record ProxyConfig := {
  host : jsstring;
  port : option number;
  username : jsstring;
  password : jsstring
}.

Record ProxyManager := {
  proxies : list ProxyConfig;
  currentIndex : nat
}.

(** [s.split(sep)] for a separator of one code unit. *)
Fixpoint split_aux (sep : N) (cur : jsstring) (s : jsstring) : list jsstring :=
  match s with
  | [] => [rev cur]
  | c :: s' =>
    if c =? sep then rev cur :: split_aux sep [] s'
    else split_aux sep (c :: cur) s'
  end.

Definition split (s : jsstring) (sep : N) : list jsstring := split_aux sep [] s.

(** [line.trim() && !line.startsWith('#')] *)
Definition keptLine (line : jsstring) : bool :=
  truthy (trim line) && negb (startsWith line (js "#")).

(** The body of the loop over the lines (lines 39-48 of the class). *)
Definition proxiesOfLine (line : jsstring) : list ProxyConfig :=
  match split (trim line) 58 with
  | [h; p; u; pw] =>
    [ {| host := trim h; port := parseInt (trim p);
         username := trim u; password := trim pw |} ]
  | _ => []
  end.

(** [loadProxies], run by the constructor. [file] is [proxy.txt]: absent,
    unreadable, or its content; reading is the only step that can throw,
    and its exception is caught. *)
Definition loadProxies (file : option (result jsstring)) : list ProxyConfig :=
  match file with
  | None => []
  | Some (Throw _) => []
  | Some (Ok content) =>
    flat_map proxiesOfLine (List.filter keptLine (split_lines content))
  end.

Definition newProxyManager (file : option (result jsstring)) : ProxyManager :=
  {| proxies := loadProxies file; currentIndex := 0 |}.

(** [getNextProxy]: the proxy returned and the manager after the call. *)
Definition getNextProxy (m : ProxyManager) : option ProxyConfig * ProxyManager :=
  match proxies m with
  | [] => (None, m)
  | _ :: _ =>
    (proxies m !! currentIndex m,
     {| proxies := proxies m;
        currentIndex := (currentIndex m + 1) mod length (proxies m) |})
  end.

(** The manager after [k] calls of [getNextProxy]. *)
Fixpoint afterCalls (k : nat) (m : ProxyManager) : ProxyManager :=
  match k with
  | O => m
  | S k' => afterCalls k' (snd (getNextProxy m))
  end.

End Proxy.

(** ** The extension id (rainbow.ts, lines 182-205 and 266-268) *)

Module Extension.

Definition scheme : jsstring := js "chrome-extension://".

(** [s.split(sep)] for a separator that is not empty: the pieces between
    the occurrences of [sep], found from left to right without overlap.
    [skip] counts the units of an occurrence still to pass over. *)
Fixpoint split_str_aux (sep : jsstring) (skip : nat) (cur : jsstring)
    (s : jsstring) : list jsstring :=
  match s with
  | [] => [rev cur]
  | c :: s' =>
    match skip with
    | S k => split_str_aux sep k cur s'
    | O =>
      if startsWith s sep
      then rev cur :: split_str_aux sep (length sep - 1) [] s'
      else split_str_aux sep 0 (c :: cur) s'
    end
  end.

Definition splitStr (s sep : jsstring) : list jsstring := split_str_aux sep 0 [] s.

(** [url.split('chrome-extension://')[1].split('/')[0]]; reading a
    property of [undefined] throws a [TypeError]. *)
Definition typeError : thrown :=
  ErrorObj (js "Cannot read properties of undefined (reading 'split')").

Definition extensionIdOfUrl (url : jsstring) : result jsstring :=
  match splitStr url scheme with
  | _ :: second :: _ =>
    match Proxy.split second 47 with
    | first :: _ => Ok first
    | [] => Throw typeError
    end
  | _ => Throw typeError
  end.

(** One pass over the open pages (lines 188-204): each page is its URL and
    its content, the empty string when [page.content()] rejects. *)
Fixpoint idFromPages (pages : list (jsstring * jsstring)) : result (option jsstring) :=
  match pages with
  | [] => Ok None
  | (url, pageContent) :: pages' =>
    if includes url scheme then
      match extensionIdOfUrl url with
      | Throw e => Throw e
      | Ok extensionId =>
        if includes (toLowerCase pageContent) (js "rainbow")
           || includes (toLowerCase url) (js "rainbow")
        then Ok (Some extensionId)
        else idFromPages pages'
      end
    else idFromPages pages'
  end.

(** [`chrome-extension://${extensionId}/popup.html`] of
    [openRainbowWallet]. *)
Definition walletUrl (extensionId : jsstring) : jsstring :=
  scheme ++ extensionId ++ js "/popup.html".

End Extension.

(** ** Further vocabulary *)

Definition isLaunch (ev : event) : bool :=
  match ev with EvLaunch _ => true | _ => false end.

(** The number of events of a kind. *)
Definition countOf (kind : event -> bool) (evs : list event) : nat :=
  length (List.filter kind evs).

(** From [w] to [w'] every browser launched was closed and its directory
    cleaned up, and no directory was left behind. *)
Definition balanced (w w' : world) : Prop :=
  exists evs,
    trace w' = trace w ++ evs
    /\ countOf isClose evs = countOf isLaunch evs
    /\ countOf isCleanup evs = countOf isLaunch evs
    /\ dirs w' ⊆ dirs w.

(** The number of elements of a tree, for inductions over documents. *)
Fixpoint node_size (n : node) : nat :=
  match n with
  | Text _ => 0
  | Elem _ _ ks => S (fold_right (fun k acc => (node_size k + acc)%nat) 0%nat ks)
  end.

(** ** Further sample environments *)

Module Cases.

(** The profile directory is made and the browser does not come up. *)
Definition runLaunchFails : run_env :=
  {| tmpdir := js "/tmp"; now := js "1730000000000";
     mkdirError := None;
     launchError := Some (ErrorObj (js "browserType.launchPersistentContext: Failed to launch"));
     findRainbowExtensionId := Ok (Some (js "opfgelmcmbiajamepnmloijbpoleiama"));
     openRainbowWallet := None; gotoError := None;
     page := Samples.showing Samples.labelAndNumber;
     closeError := None; rmError := false |}.

End Cases.

(* ===================================================================== *)
(** * Properties *)
(* ===================================================================== *)

(** ** The quantifier never runs short of iterations *)

Section Quantifier.

Variable body : mstate -> cont -> option mstate.

(** The body only answers through its continuation. *)
Hypothesis body_ext :
  forall x c1 c2, (forall y, c1 y = c2 y) -> body x c1 = body x c2.
Hypothesis body_fail :
  forall x c, (forall y, c y = None) -> body x c = None.

Lemma star_ext n mx g x c1 c2 :
  (forall y, c1 y = c2 y) -> star n body mx g x c1 = star n body mx g x c2.
Proof.
  revert mx x. induction n as [|n IH]; intros mx x H; cbn [star].
  - now rewrite H.
  - rewrite (H x).
    rewrite (body_ext x
               (fun y => if (length (rest y) <? length (rest x))%nat
                         then star n body (max_pred mx) g y c1 else None)
               (fun y => if (length (rest y) <? length (rest x))%nat
                         then star n body (max_pred mx) g y c2 else None)).
    + reflexivity.
    + intros y. destruct (_ <? _)%nat; [now apply IH|reflexivity].
Qed.

Lemma star_fail n mx g x c :
  (forall y, c y = None) -> star n body mx g x c = None.
Proof.
  revert mx x. induction n as [|n IH]; intros mx x H; cbn [star].
  - rewrite H. now destruct (max_is_zero mx).
  - rewrite (H x).
    rewrite body_fail.
    + now destruct (max_is_zero mx), g.
    + intros y. destruct (_ <? _)%nat; [now apply IH|reflexivity].
Qed.

Lemma star_no_input n mx g x c :
  rest x = [] -> star n body mx g x c = c x.
Proof.
  intros Hx. destruct n as [|n]; cbn [star].
  - now destruct (max_is_zero mx).
  - rewrite body_fail.
    + destruct (max_is_zero mx), g; try reflexivity. now destruct (c x).
    + intros y. rewrite Hx. reflexivity.
Qed.

(** Any bound from the length of the input left upwards gives the same
    result: the count that [rep] starts [star] with is enough. *)
Lemma star_fuel_enough n m mx g x c :
  (length (rest x) <= n)%nat -> (length (rest x) <= m)%nat ->
  star n body mx g x c = star m body mx g x c.
Proof.
  revert m mx x. induction n as [|n IH]; intros m mx x Hn Hm.
  - assert (Hx : rest x = []) by (destruct (rest x); [reflexivity|cbn in Hn; lia]).
    now rewrite !star_no_input.
  - destruct m as [|m].
    + assert (Hx : rest x = []) by (destruct (rest x); [reflexivity|cbn in Hm; lia]).
      now rewrite !star_no_input.
    + cbn [star].
      rewrite (body_ext x
                 (fun y => if (length (rest y) <? length (rest x))%nat
                           then star n body (max_pred mx) g y c else None)
                 (fun y => if (length (rest y) <? length (rest x))%nat
                           then star m body (max_pred mx) g y c else None)).
      * reflexivity.
      * intros y. destruct (_ <? _)%nat eqn:E; [|reflexivity].
        apply Nat.ltb_lt in E. apply IH; lia.
Qed.

Lemma rep_ext mn mx g x c1 c2 :
  (forall y, c1 y = c2 y) -> rep body mn mx g x c1 = rep body mn mx g x c2.
Proof.
  revert mx x c1 c2. induction mn as [|k IH]; intros mx x c1 c2 H; cbn [rep].
  - now apply star_ext.
  - rewrite (H x). destruct (max_is_zero mx); [reflexivity|].
    apply body_ext. intros y. now apply IH.
Qed.

Lemma rep_fail mn mx g x c :
  (forall y, c y = None) -> rep body mn mx g x c = None.
Proof.
  revert mx x. induction mn as [|k IH]; intros mx x H; cbn [rep].
  - now apply star_fail.
  - rewrite (H x). destruct (max_is_zero mx); [reflexivity|].
    apply body_fail. intros y. now apply IH.
Qed.

End Quantifier.

Lemma run_ext_fail r :
  (forall x c1 c2, (forall y, c1 y = c2 y) -> run r x c1 = run r x c2)
  /\ (forall x c, (forall y, c y = None) -> run r x c = None).
Proof.
  induction r as [|p|r1 [E1 F1] r2 [E2 F2]|r1 [E1 F1] r2 [E2 F2]
                 |r0 [E0 F0] mn mx g|r0 [E0 F0]| |]; split; intros x;
    cbn [run].
  - intros c1 c2 H. apply H.
  - intros c H. apply H.
  - intros c1 c2 H. destruct (rest x); [reflexivity|]. destruct (p n); [apply H|reflexivity].
  - intros c H. destruct (rest x); [reflexivity|]. destruct (p n); [apply H|reflexivity].
  - intros c1 c2 H. apply E1. intros y. now apply E2.
  - intros c H. apply F1. intros y. now apply F2.
  - intros c1 c2 H. rewrite (E1 x c1 c2 H), (E2 x c1 c2 H). reflexivity.
  - intros c H. now rewrite (F1 x c H), (F2 x c H).
  - intros c1 c2 H. now apply rep_ext.
  - intros c H. now apply rep_fail.
  - intros c1 c2 H. apply E0. intros y. apply H.
  - intros c H. apply F0. intros y. apply H.
  - intros c1 c2 H. now rewrite H.
  - intros c H. rewrite H. now destruct (_ =? _)%nat.
  - intros c1 c2 H. now rewrite H.
  - intros c H. rewrite H. now destruct (rest x).
Qed.

(** The quantifier of a pattern gives the same result with any larger
    bound on its iterations. *)
Lemma quantifier_bound_enough r n mx g x c :
  (length (rest x) <= n)%nat ->
  star n (run r) mx g x c = star (length (rest x)) (run r) mx g x c.
Proof.
  intros H. apply star_fuel_enough; try lia.
  - apply (proj1 (run_ext_fail r)).
  - apply (proj2 (run_ext_fail r)).
Qed.

(** ** The matcher on anchored patterns *)

Lemma star_max_zero n body g x c : star n body (Some O) g x c = c x.
Proof. destruct n; reflexivity. Qed.

Lemma run_cat a b x c : run (Cat a b) x c = run a x (fun y => run b y c).
Proof. reflexivity. Qed.

Lemma run_rep r mn mx g x c : run (Rep r mn mx g) x c = rep (run r) mn mx g x c.
Proof. reflexivity. Qed.

Lemma run_cls p x c :
  run (Cls p) x c =
  match rest x with
  | ch :: tl => if p ch then c (MState (S (pos x)) tl (cap x)) else None
  | [] => None
  end.
Proof. reflexivity. Qed.

Lemma run_eol x c :
  run Eol x c = match rest x with [] => c x | _ :: _ => None end.
Proof. reflexivity. Qed.

(** [p{n}] over a character class: the next [n] units are in the class. *)
Lemma rep_exact_class p g n x c :
  rep (run (Cls p)) n (Some n) g x c =
  if (n <=? length (rest x))%nat && forallb p (firstn n (rest x))
  then c (MState (pos x + n) (skipn n (rest x)) (cap x))
  else None.
Proof.
  revert x. induction n as [|n IH]; intros [i s cp]; simpl.
  - rewrite star_max_zero. simpl. now rewrite Nat.add_0_r.
  - destruct s as [|ch tl]; simpl; [reflexivity|].
    destruct (p ch); simpl; [|now rewrite andb_false_r].
    rewrite IH. simpl. now rewrite Nat.add_succ_r.
Qed.

(** A pattern that starts with [^] matches at index 0 or nowhere. *)
Lemma exec_from_bol r s i suffix :
  exec_from (Cat Bol r) s (S i) suffix = None.
Proof.
  revert i. induction suffix as [|a suffix IH]; intros i; simpl; [reflexivity|].
  apply IH.
Qed.

Lemma test_anchored r s :
  test (Cat Bol r) s =
  match run r (MState 0 s None) Some with Some _ => true | None => false end.
Proof.
  unfold test, exec.
  destruct s as [|a s']; unfold exec_from; fold exec_from;
    change (run (Cat Bol r) (MState 0 ?t None) Some)
      with (run r (MState 0 t None) Some);
    destruct (run r _ _); try reflexivity.
  now rewrite exec_from_bol.
Qed.

Lemma firstn_skipn_nil {A} n (l : list A) :
  (n <= length l)%nat -> skipn n l = [] -> firstn n l = l /\ length l = n.
Proof.
  intros Hle Hs. pose proof (firstn_skipn n l) as E. rewrite Hs, app_nil_r in E.
  split; [exact E|]. rewrite <- E at 1. rewrite length_firstn. lia.
Qed.

Lemma exact_class_eol p n s i cp :
  run (Cat (Rep (Cls p) n (Some n) true) Eol) (MState i s cp) Some <> None <->
  length s = n /\ forallb p s = true.
Proof.
  rewrite run_cat, run_rep, rep_exact_class. cbn [rest pos cap].
  destruct (n <=? length s)%nat eqn:Hle; cbn [andb].
  - apply Nat.leb_le in Hle.
    destruct (forallb p (firstn n s)) eqn:Hall.
    + rewrite run_eol. cbn [rest]. destruct (skipn n s) eqn:Hs.
      * destruct (firstn_skipn_nil n s Hle Hs) as [E L]. rewrite E in Hall.
        split; [intros _; now split|intros _; discriminate].
      * split; [congruence|]. intros [L _]. subst n.
        rewrite skipn_all in Hs. discriminate.
    + split; [congruence|]. intros [L H]. subst n.
      rewrite firstn_all in Hall. congruence.
  - apply Nat.leb_gt in Hle. split; [congruence|]. intros [L _]. lia.
Qed.

Lemma anchored_class_test p n s i cp :
  match run (Cat (Rep (Cls p) n (Some n) true) Eol) (MState i s cp) Some with
  | Some _ => true
  | None => false
  end = (length s =? n)%nat && forallb p s.
Proof.
  pose proof (exact_class_eol p n s i cp) as H.
  destruct (run _ _ _) eqn:E.
  - symmetry. apply andb_true_iff. rewrite Nat.eqb_eq. apply H. congruence.
  - symmetry. apply not_true_is_false. rewrite andb_true_iff, Nat.eqb_eq.
    intros K. apply H in K. congruence.
Qed.

(** ** The two key patterns *)

Lemma test_bareKey t : test bareKey t = hex64 t.
Proof.
  unfold bareKey, hex64. cbn [cats times]. rewrite test_anchored.
  apply anchored_class_test.
Qed.

Lemma test_prefixedKey t : test prefixedKey t = prefixed t.
Proof.
  unfold prefixedKey, prefixed, hex64. cbn [cats times lit map list_ascii_of_string].
  rewrite test_anchored.
  rewrite run_cat, run_cat. unfold chr. rewrite run_cls. cbn [rest pos cap].
  destruct t as [|a t]; [reflexivity|].
  change (code "0") with 48. destruct (a =? 48); [|now destruct t].
  rewrite run_cls. cbn [rest pos cap].
  destruct t as [|b h]; [reflexivity|].
  change (code "x") with 120. destruct (b =? 120); [|reflexivity].
  cbn [andb]. apply anchored_class_test.
Qed.

Lemma forallb_isHex h : forallb isHex h = true <-> Forall (fun c => isHex c = true) h.
Proof.
  rewrite forallb_forall, List.Forall_forall. reflexivity.
Qed.

Lemma prefixed_key_shape t : prefixed t = true <-> key_shape t.
Proof.
  unfold prefixed, key_shape, hex64. split.
  - destruct t as [|a [|b h]]; try discriminate.
    rewrite !andb_true_iff, !N.eqb_eq, Nat.eqb_eq, forallb_isHex.
    intros [[-> ->] [L H]]. now exists h.
  - intros (h & -> & L & H). change (js "0x" ++ h) with (48 :: 120 :: h).
    rewrite !andb_true_iff, !N.eqb_eq, Nat.eqb_eq, forallb_isHex. tauto.
Qed.

Lemma hex64_key_shape t : hex64 t = true -> key_shape (js "0x" ++ t).
Proof.
  unfold hex64. rewrite andb_true_iff, Nat.eqb_eq, forallb_isHex.
  intros [L H]. now exists t.
Qed.

(** What the loop body keeps of a line: the trimmed line when it is a
    prefixed key, [0x] and the trimmed line when it is a bare key, and
    nothing otherwise (an empty line and a comment are neither). *)
Lemma keysOfLine_spec line :
  keysOfLine line =
  if prefixed (trim line) then [trim line]
  else if hex64 (trim line) then [js "0x" ++ trim line]
  else [].
Proof.
  unfold keysOfLine. rewrite test_prefixedKey, test_bareKey.
  destruct (trim line) as [|a t] eqn:E; [reflexivity|].
  cbn [truthy andb].
  destruct (startsWith (a :: t) (js "#")) eqn:Hs; [|reflexivity].
  cbn [negb]. change (js "#") with [35] in Hs. cbn [startsWith] in Hs.
  apply andb_true_iff in Hs. destruct Hs as [Hs _].
  apply N.eqb_eq in Hs. subst a.
  unfold prefixed, hex64. cbn [forallb]. change (isHex 35) with false.
  cbn [andb]. rewrite andb_false_r. now destruct t.
Qed.

Lemma keysOfLine_shape line : Forall key_shape (keysOfLine line).
Proof.
  rewrite keysOfLine_spec.
  destruct (prefixed (trim line)) eqn:P.
  - constructor; [now apply prefixed_key_shape|constructor].
  - destruct (hex64 (trim line)) eqn:H; constructor.
    + now apply hex64_key_shape.
    + constructor.
Qed.

Lemma flat_map_keys_shape lines : Forall key_shape (flat_map keysOfLine lines).
Proof.
  induction lines as [|l ls IH]; simpl; [constructor|].
  apply Forall_app. split; [apply keysOfLine_shape|exact IH].
Qed.

(** ** The extraction engine *)

Lemma parseClean_positive g t n : parseClean g = Some (t, n) -> gt0 n = true.
Proof.
  unfold parseClean. destruct (parseInt _) as [num|]; [|discriminate].
  destruct (gt0 num) eqn:E; [|discriminate].
  now intros [= _ <-].
Qed.

Lemma fastPath_positive text n : fastPath text = Some n -> gt0 n = true.
Proof.
  unfold fastPath. destruct (group1 _) as [[mt g]|]; [|discriminate].
  destruct (notToRank _); [|discriminate].
  destruct (parseClean g) as [[t num]|] eqn:E; [|discriminate].
  intros [= <-]. eapply parseClean_positive; eauto.
Qed.

Lemma firstPoints_positive root els n :
  firstPoints root els = Some n -> gt0 n = true.
Proof.
  induction els as [|el els IH]; simpl; [discriminate|].
  destruct (pointsAt root el) as [[t p]|]; [|exact IH].
  destruct (gt0 p) eqn:E; [|exact IH].
  now intros [= <-].
Qed.

Lemma extractPoints_positive d n : extractPoints d = Some n -> gt0 n = true.
Proof.
  unfold extractPoints. destruct (body d) as [b|]; [|discriminate].
  destruct (_ && _); [discriminate|].
  destruct (fastPath _) as [num|] eqn:E.
  - intros [= <-]. eapply fastPath_positive; eauto.
  - apply firstPoints_positive.
Qed.

(** A rank phrase in the 30 units after the candidate disqualifies it, in
    the fast path and in the container strategies alike. *)
Lemma notToRank_false afterNumber :
  includes (toLowerCase afterNumber) (js "to rank") = true ->
  notToRank afterNumber = false.
Proof.
  intros H. unfold notToRank. rewrite H. apply andb_false_r.
Qed.


Lemma labelledNumber_rejects text mt g :
  group1 (exec pointsPattern text) = Some (mt, g) ->
  includes (toLowerCase
              (substring text (indexOf text g + jslength g)
                 (indexOf text g + jslength g + 30)))
           (js "to rank") = true ->
  labelledNumber text = None.
Proof.
  intros Hm Hr. unfold labelledNumber. rewrite Hm.
  now rewrite (notToRank_false _ Hr).
Qed.

Lemma or_else_truthy a b : truthy a = true -> or_else a b = a.
Proof. destruct a; [discriminate|reflexivity]. Qed.

(** Strategy 1 on a label whose next sibling is visible and reads
    ["12,345"]. *)
Lemma strategy1_grouped root el sib st inner ks :
  nextElementSibling root el = Some sib ->
  get root sib = Some (Elem st inner ks) ->
  shown st = true ->
  trim (textContent (Elem st inner ks)) = js "12,345" ->
  strategy1 root el = Some (js "12345", Num 12345).
Proof.
  intros Hn Hg Hs Ht. unfold strategy1. rewrite Hn, Hg, Hs, Ht.
  rewrite or_else_truthy by reflexivity.
  assert (E : namesSection_lc (js "12,345") = false) by (vm_compute; reflexivity).
  rewrite E. vm_compute. reflexivity.
Qed.

Lemma orTry_found t n next : truthy t = true -> orTry (Some (t, n)) next = Some (t, n).
Proof. intros H. unfold orTry, unset. now rewrite H. Qed.

Lemma pointsAt_strategy1 root el t n :
  strategy1 root el = Some (t, n) -> truthy t = true ->
  pointsAt root el = Some (t, n).
Proof.
  intros H Ht. unfold pointsAt. rewrite H. now rewrite !orTry_found.
Qed.

(** ** Where a number of the engine comes from *)

Lemma startsWith_app p s : startsWith (p ++ s) p = true.
Proof.
  induction p as [|a p IH]; [now destruct s|].
  cbn [app startsWith]. now rewrite N.eqb_refl, IH.
Qed.

Lemma includes_app p s : includes (p ++ s) p = true.
Proof.
  destruct (p ++ s) eqn:E; cbn [includes]; rewrite <- E, startsWith_app; reflexivity.
Qed.

Lemma startsWith_true s p : startsWith s p = true -> exists r, s = p ++ r.
Proof.
  revert s. induction p as [|a p IH]; intros s H; [now exists s|].
  destruct s as [|c s]; [discriminate|]. cbn [startsWith] in H.
  apply andb_true_iff in H. destruct H as [E H]. apply N.eqb_eq in E. subst c.
  destruct (IH s H) as [r ->]. now exists r.
Qed.















Lemma firstPoints_source root els n :
  firstPoints root els = Some n ->
  exists el txt, In el els /\ pointsAt root el = Some (txt, n).
Proof.
  induction els as [|el els IH]; [discriminate|]. cbn [firstPoints].
  destruct (pointsAt root el) as [[txt pts]|] eqn:E.
  - destruct (gt0 pts).
    + intros [= <-]. exists el, txt. split; [now left|exact E].
    + intros H. destruct (IH H) as (el' & txt' & Hin & Hp).
      exists el', txt'. split; [now right|exact Hp].
  - intros H. destruct (IH H) as (el' & txt' & Hin & Hp).
    exists el', txt'. split; [now right|exact Hp].
Qed.

Lemma firstPoints_reaches root before el after t n :
  pointsAt root el = Some (t, n) -> gt0 n = true ->
  (forall el' txt m, In el' before -> pointsAt root el' = Some (txt, m) -> m = n) ->
  firstPoints root (before ++ el :: after) = Some n.
Proof.
  intros Hp Hn. induction before as [|e before IH]; intros Hb; cbn [app firstPoints].
  - now rewrite Hp, Hn.
  - destruct (pointsAt root e) as [[txt m]|] eqn:E.
    + rewrite (Hb e txt m (or_introl eq_refl) E), Hn. reflexivity.
    + apply IH. intros el' txt m Hin. apply Hb. now right.
Qed.

(** ** The sub-flow and the points check *)

Lemma checkPoints_never_throws p e : checkPointsOrUseReferralCode p <> Throw e.
Proof.
  unfold checkPointsOrUseReferralCode. destruct (checkPoints_body p); discriminate.
Qed.

Lemma isEmptyBalance_signal : isEmptyBalance emptyBalanceError = true.
Proof. vm_compute. reflexivity. Qed.

(** Seeing "Fund My Wallet" raises the signal, and the points check turns
    it into [null]. *)
Lemma fundWallet_signal p :
  fundWalletSeen p -> enterReferralCode (referral p) = Throw emptyBalanceError.
Proof.
  intros (_ & _ & Hi & He & Hs & Hc & Hf).
  unfold enterReferralCode, enterReferralCode_body, afterSignIn.
  rewrite Hi, He, Hs, Hc, Hf. cbn [negb]. now rewrite isEmptyBalance_signal.
Qed.

Lemma fundWallet_swallowed p :
  fundWalletSeen p ->
  checkPoints_body p = Throw emptyBalanceError
  /\ checkPointsOrUseReferralCode p = Ok None.
Proof.
  intros H. pose proof (fundWallet_signal p H) as E.
  destruct H as (Hc & Hb & _).
  unfold checkPointsOrUseReferralCode, checkPoints_body.
  rewrite Hc, Hb, E, isEmptyBalance_signal. now split.
Qed.

(** ** The pipeline *)

Ltac monad_steps :=
  cbv beta iota delta [bind ret throw try_catch ignoring emit lift failWith].

(** The same, leaving [ignoring] folded for [ignoring_save]. *)
Ltac monad_steps_outer :=
  cbv beta iota delta [bind ret throw try_catch emit lift failWith].

Lemma ignoring_save a p s m w :
  ignoring (save a p s m) w =
  (Ok tt, World (savedDb (db w) a p s m) (dirs w) (trace w ++ [EvSave a p s m])).
Proof.
  unfold save, savedDb. monad_steps. cbn [db dirs trace].
  destruct (saveWalletData _ _ _ _ _); reflexivity.
Qed.

Lemma truthy_tempPath env : truthy (tempPath env) = true.
Proof.
  unfold tempPath. destruct (tmpdir env); reflexivity.
Qed.

Lemma tearDown_session env tp w :
  truthy tp = true ->
  tearDown env (Some tp) w =
  (Ok tt, World (db w) (dirsAfterCleanup env tp (dirs w))
             (trace w ++ [EvClose tp; EvCleanup tp])).
Proof.
  intros Ht. unfold tearDown, closeContext, cleanupTempProfile, dirsAfterCleanup.
  rewrite Ht.
  destruct (closeError env); monad_steps; cbn [db dirs trace];
    rewrite <- app_assoc; cbn [app];
    destruct (bool_decide _ && negb _); reflexivity.
Qed.

Section PipelineFacts.

Variable lib : jsstring -> result jsstring.

Lemma processWallet_launched env key w :
  launched env ->
  processWallet lib env key w =
  try_catch (afterLaunch env (getAddressFromPrivateKey lib key) (Some (tempPath env)))
            (onError env (getAddressFromPrivateKey lib key) (Some (tempPath env)))
            (launchedWorld env key w).
Proof.
  intros [Hm Hl]. unfold processWallet, launchBrowserWithRainbow, createTempProfile,
    launchedWorld.
  rewrite Hm, Hl. monad_steps. cbn [db dirs trace]. rewrite <- app_assoc. reflexivity.
Qed.

(** A launched run takes the exit that [exitOf] names: it saves a success
    and returns, returns without saving, or saves the error and rethrows;
    on each it closes the context and cleans the profile once. *)
Lemma processWallet_exit env key w :
  launched env ->
  processWallet lib env key w =
  match exitOf env with
  | ExitSuccess pts =>
    (Ok true,
     exitWorld env key w
       (savedDb (db w) (getAddressFromPrivateKey lib key) (Some pts) success None)
       [EvSave (getAddressFromPrivateKey lib key) (Some pts) success None])
  | ExitNotFound => (Ok true, exitWorld env key w (db w) [])
  | ExitError e =>
    (Throw e,
     exitWorld env key w
       (savedDb (db w) (getAddressFromPrivateKey lib key) None error (Some (messageOf e)))
       [EvSave (getAddressFromPrivateKey lib key) None error (Some (messageOf e))])
  end.
Proof.
  intros HL. rewrite (processWallet_launched env key w HL).
  pose proof (truthy_tempPath env) as Ht.
  unfold exitOf, afterLaunch, onError, mainViewBlock, pointsBlock, pointsBlockOn,
    try_catch, bind, lift,
    extensionPresent, failWith, throw, ret, exitWorld, launchedWorld.
  destruct (findRainbowExtensionId env) as [[ext|]|e];
    [destruct (truthy ext);
       [destruct (openRainbowWallet env) as [e|];
          [|destruct (gotoError env) as [e|];
             [|destruct (checkPointsOrUseReferralCode (page env)) as [[pts|]|e] eqn:E;
                [| |now apply checkPoints_never_throws in E]]]|]| |];
    try rewrite ignoring_save; cbn [db dirs trace];
    rewrite tearDown_session by exact Ht; cbn [db dirs trace];
    repeat rewrite <- app_assoc; reflexivity.
Qed.

End PipelineFacts.

Lemma eventsOf_app {A} (m : M A) w evs :
  trace (snd (m w)) = trace w ++ evs -> eventsOf m w = evs.
Proof.
  intros H. unfold eventsOf. rewrite H. apply drop_app_length.
Qed.

Lemma fatalStep_exit env e : fatalStep env e -> exitOf env = ExitError e.
Proof.
  unfold exitOf. intros [e' H|ext H Hp|ext e' H Hp Ho]; rewrite H; try rewrite Hp;
    try rewrite Ho; reflexivity.
Qed.

Lemma exit_fatalStep env e : exitOf env = ExitError e -> fatalStep env e.
Proof.
  unfold exitOf.
  destruct (findRainbowExtensionId env) as [ext|e1] eqn:Hf.
  - destruct (extensionPresent ext) eqn:Hp.
    + destruct (openRainbowWallet env) as [e1|] eqn:Ho.
      * intros [= <-]. now apply (fatal_open env ext e1).
      * destruct (gotoError env); [discriminate|].
        destruct (checkPointsOrUseReferralCode (page env)) as [[pts|]|e1];
          discriminate.
    + intros [= <-]. now apply (fatal_missing env ext).
  - intros [= <-]. now apply fatal_search.
Qed.

Lemma pointsFound_exit env pts : pointsFound env pts -> exitOf env = ExitSuccess pts.
Proof.
  intros (ext & H & Hp & Ho & Hg & Hc). unfold exitOf.
  now rewrite H, Hp, Ho, Hg, Hc.
Qed.

Section BatchFacts.

Variable lib : jsstring -> result jsstring.

(** A run whose browser does not come up saves the error and rethrows. *)
Lemma processWallet_mkdir_fails env key w e :
  mkdirError env = Some e ->
  processWallet lib env key w =
  (Throw e,
   World (savedDb (db w) (getAddressFromPrivateKey lib key) None error (Some (messageOf e)))
         (dirs w)
         (trace w ++ [EvProcess key;
                      EvSave (getAddressFromPrivateKey lib key) None error
                        (Some (messageOf e))])).
Proof.
  intros Hm. unfold processWallet, launchBrowserWithRainbow, createTempProfile, onError,
    tearDown.
  rewrite Hm. monad_steps_outer. rewrite ignoring_save. cbn [db dirs trace].
  now rewrite <- app_assoc.
Qed.

Lemma processWallet_launch_fails env key w e :
  mkdirError env = None -> launchError env = Some e ->
  processWallet lib env key w =
  (Throw e,
   World (savedDb (db w) (getAddressFromPrivateKey lib key) None error (Some (messageOf e)))
         ({[ tempPath env ]} ∪ dirs w)
         (trace w ++ [EvProcess key; EvLaunch (tempPath env);
                      EvSave (getAddressFromPrivateKey lib key) None error
                        (Some (messageOf e))])).
Proof.
  intros Hm Hl. unfold processWallet, launchBrowserWithRainbow, createTempProfile, onError,
    tearDown.
  rewrite Hm, Hl. monad_steps_outer. cbn [db dirs trace]. rewrite ignoring_save.
  cbn [db dirs trace]. now rewrite <- !app_assoc.
Qed.

(** Whatever makes [processWallet] throw, it has saved that error once, and
    nothing else. *)
Lemma processWallet_throw_saves env key w e :
  fst (processWallet lib env key w) = Throw e ->
  exists evs,
    trace (snd (processWallet lib env key w)) = trace w ++ evs
    /\ savesOf evs = [EvSave (getAddressFromPrivateKey lib key) None error
                        (Some (messageOf e))].
Proof.
  destruct (mkdirError env) as [e1|] eqn:Hm.
  - rewrite (processWallet_mkdir_fails env key w e1 Hm). cbn [fst snd trace].
    intros [= <-]. eexists. split; reflexivity.
  - destruct (launchError env) as [e1|] eqn:Hl.
    + rewrite (processWallet_launch_fails env key w e1 Hm Hl). cbn [fst snd trace].
      intros [= <-]. eexists. split; reflexivity.
    + rewrite (processWallet_exit lib env key w (conj Hm Hl)).
      destruct (exitOf env) as [pts| |e1]; cbn [fst snd]; try discriminate.
      intros [= <-]. unfold exitWorld. cbn [trace]. eexists. split; reflexivity.
Qed.

(** One turn of the batch loop on a key that is not skipped. *)
Lemma processKey_run env key t w :
  shouldSkipWallet (db w) (getAddressFromPrivateKey lib key) = Ok false ->
  processKey lib env key t w =
  match processWallet lib env key w with
  | (Ok true, w') =>
    (Ok (Tally (S (successCount t)) (errorCount t) (skippedCount t)), w')
  | (Ok false, w') => (Ok t, w')
  | (Throw e, w') =>
    (Ok (Tally (successCount t) (S (errorCount t)) (skippedCount t)),
     World (savedDb (db w') (getAddressFromPrivateKey lib key) None error
              (Some (messageOf e)))
           (dirs w')
           (trace w' ++ [EvSave (getAddressFromPrivateKey lib key) None error
                           (Some (messageOf e))]))
  end.
Proof.
  intros Hs. unfold processKey. monad_steps_outer. rewrite Hs.
  destruct (processWallet lib env key w) as [[[|]|e] w']; try reflexivity.
  now rewrite ignoring_save.
Qed.

Lemma processKey_skipped env key t w :
  shouldSkipWallet (db w) (getAddressFromPrivateKey lib key) = Ok true ->
  processKey lib env key t w =
  (Ok (Tally (successCount t) (errorCount t) (S (skippedCount t))), w).
Proof.
  intros Hs. unfold processKey. monad_steps. now rewrite Hs.
Qed.

End BatchFacts.

Lemma savedDb_row d addr pts st msg :
  failing d = false ->
  exists d',
    savedDb (Some d) addr pts st msg = Some d' /\ failing d' = false
    /\ rows d' !! addr = Some {| address := addr; points := pts; wstatus := st;
                                error_message := orNull msg |}.
Proof.
  intros Hf. unfold savedDb, saveWalletData. rewrite Hf.
  eexists. split; [reflexivity|]. cbn [rows failing]. split; [reflexivity|].
  apply lookup_insert_eq.
Qed.

Lemma savedDb_connected c addr pts st msg :
  is_Some c -> is_Some (savedDb c addr pts st msg).
Proof.
  intros [d ->]. unfold savedDb, saveWalletData. destruct (failing d); eauto.
Qed.

Section LoopFacts.

Variable lib : jsstring -> result jsstring.

Lemma processWallet_connected env key w :
  is_Some (db w) -> is_Some (db (snd (processWallet lib env key w))).
Proof.
  intros Hc.
  destruct (mkdirError env) as [e1|] eqn:Hm.
  - rewrite (processWallet_mkdir_fails lib env key w e1 Hm). cbn [snd db].
    now apply savedDb_connected.
  - destruct (launchError env) as [e1|] eqn:Hl.
    + rewrite (processWallet_launch_fails lib env key w e1 Hm Hl). cbn [snd db].
      now apply savedDb_connected.
    + rewrite (processWallet_exit lib env key w (conj Hm Hl)).
      destruct (exitOf env); unfold exitWorld; cbn [snd db]; trivial;
        now apply savedDb_connected.
Qed.

Lemma shouldSkipWallet_connected c addr :
  is_Some c -> exists b, shouldSkipWallet c addr = Ok b.
Proof.
  intros [d ->]. unfold shouldSkipWallet, getWalletByAddress.
  destruct (failing d); [eauto|]. destruct (rows d !! addr); eauto.
Qed.

Lemma processKey_returns env key t w :
  is_Some (db w) ->
  exists t' w', processKey lib env key t w = (Ok t', w') /\ is_Some (db w').
Proof.
  intros Hc.
  destruct (shouldSkipWallet_connected (db w) (getAddressFromPrivateKey lib key) Hc)
    as [[|] Hs].
  - rewrite (processKey_skipped lib env key t w Hs). eauto.
  - rewrite (processKey_run lib env key t w Hs).
    pose proof (processWallet_connected env key w Hc) as Hc'.
    destruct (processWallet lib env key w) as [[[|]|e] w']; cbn [snd] in Hc';
      eexists _, _; (split; [reflexivity|]); cbn [db]; trivial.
    now apply savedDb_connected.
Qed.

(** With the store connected the loop over the keys never throws, whatever
    the runs do: no wallet halts the batch. *)
Lemma processKeys_returns runs i keys t w :
  is_Some (db w) ->
  exists t' w', processKeys lib runs i keys t w = (Ok t', w') /\ is_Some (db w').
Proof.
  revert i t w. induction keys as [|key keys IH]; intros i t w Hc; cbn [processKeys].
  - unfold ret. eauto.
  - destruct (processKey_returns (runs i) key t w Hc) as (t1 & w1 & E & Hc1).
    unfold bind. rewrite E. now apply IH.
Qed.

End LoopFacts.

(* ===================================================================== *)
(** * The claims *)
(* ===================================================================== *)

(** ** C1: store calls per outcome *)

(** An error run calls [saveWalletData] twice: the extension is not found,
    [processWallet] saves the error and rethrows it, and the batch loop
    saves it again. The run does not make exactly one call. *)
Lemma C1_error_run_saves_twice :
  let lib := Viem.privateKeyToAccount in
  let saves :=
    savesOf (eventsOf (processKey lib Samples.runWithoutExtension Samples.key1
                         Samples.tally0) Samples.world0) in
  fst (processWallet lib Samples.runWithoutExtension Samples.key1 Samples.world0)
    = Throw extensionNotFound
  /\ saves = [EvSave Samples.address1 None error (Some (messageOf extensionNotFound));
              EvSave Samples.address1 None error (Some (messageOf extensionNotFound))]
  /\ length saves <> 1%nat.
Proof.
  cbv zeta. split; [vm_compute; reflexivity|].
  split; [vm_compute; reflexivity|]. vm_compute. discriminate.
Qed.

(** C1, amended. In one turn of the batch loop on a key that is not
    skipped: when the points check finds a value, [saveWalletData] is
    called exactly once, with the address, the value and [success]; when
    [processWallet] throws, it is called exactly twice with the same
    arguments (the address, [null], [error] and the message of the
    exception), once by [processWallet] and once by the loop. *)
Theorem C1_store_calls_per_outcome
    (lib : jsstring -> result jsstring) (env : run_env) (key : jsstring)
    (t : tally) (w : world) :
  shouldSkipWallet (db w) (getAddressFromPrivateKey lib key) = Ok false ->
  (forall pts, launched env -> pointsFound env pts ->
     savesOf (eventsOf (processKey lib env key t) w)
     = [EvSave (getAddressFromPrivateKey lib key) (Some pts) success None])
  /\ (forall e, fst (processWallet lib env key w) = Throw e ->
     savesOf (eventsOf (processKey lib env key t) w)
     = [EvSave (getAddressFromPrivateKey lib key) None error (Some (messageOf e));
        EvSave (getAddressFromPrivateKey lib key) None error (Some (messageOf e))]).
Proof.
  intros Hskip. split.
  - intros pts HL HP.
    erewrite eventsOf_app; cycle 1.
    { rewrite (processKey_run lib env key t w Hskip).
      rewrite (processWallet_exit lib env key w HL), (pointsFound_exit env pts HP).
      unfold exitWorld. cbn [snd trace]. reflexivity. }
    reflexivity.
  - intros e He.
    destruct (processWallet_throw_saves lib env key w e He) as (evs & Htr & Hsv).
    erewrite eventsOf_app; cycle 1.
    { rewrite (processKey_run lib env key t w Hskip).
      destruct (processWallet lib env key w) as [[[|]|e'] w'] eqn:E;
        cbn [fst] in He; try discriminate.
      injection He as ->. cbn [snd trace] in *. rewrite Htr.
      rewrite <- app_assoc. reflexivity. }
    unfold savesOf in *. rewrite List.filter_app, Hsv. reflexivity.
Qed.

(** The two hypotheses of C1 met: a success run on the sample page and an
    error run without the extension. *)
Lemma C1_store_calls_witness :
  savesOf (eventsOf (processKey Viem.privateKeyToAccount
                       (Samples.runOn (Samples.showing Samples.labelAndNumber))
                       Samples.key1 Samples.tally0) Samples.world0)
  = [EvSave Samples.address1 (Some (Num 12345)) success None].
Proof.
  apply (C1_store_calls_per_outcome Viem.privateKeyToAccount
           (Samples.runOn (Samples.showing Samples.labelAndNumber))
           Samples.key1 Samples.tally0 Samples.world0).
  - vm_compute. reflexivity.
  - split; reflexivity.
  - exists (Some (js "opfgelmcmbiajamepnmloijbpoleiama")).
    repeat split; vm_compute; reflexivity.
Defined.

(** ** C2: the derived address *)

(** The key of scalar 1 has the canonical shape, the library accepts it,
    and the address returned for it is not its own lower-casing: it is the
    mixed-case checksum form. *)
Lemma C2_address_is_mixed_case :
  let a := getAddressFromPrivateKey Viem.privateKeyToAccount Samples.key1 in
  key_shape Samples.key1
  /\ a = js "0x7E5F4552091A69125d5DfCb7b8C2659029395Bdf"
  /\ toLowerCase a = js "0x7e5f4552091a69125d5dfcb7b8c2659029395bdf"
  /\ toLowerCase a <> a.
Proof.
  cbv zeta. split.
  - apply prefixed_key_shape. vm_compute. reflexivity.
  - split; [vm_compute; reflexivity|].
    split; [vm_compute; reflexivity|]. vm_compute. discriminate.
Qed.

(** C2, amended. [getAddressFromPrivateKey] is a function of the key: the
    same key gives the same string. It returns the address of the
    library's account unchanged, and the all-zero address when the library
    throws; it does not change the case, so the result is lower-case
    exactly when the library's address is (the zero address is). *)
Theorem C2_address_as_derived
    (lib : jsstring -> result jsstring) (key : jsstring) :
  (forall key', key' = key ->
     getAddressFromPrivateKey lib key' = getAddressFromPrivateKey lib key)
  /\ (forall a, lib key = Ok a -> getAddressFromPrivateKey lib key = a)
  /\ (forall e, lib key = Throw e -> getAddressFromPrivateKey lib key = zeroAddress)
  /\ toLowerCase zeroAddress = zeroAddress
  /\ (toLowerCase (getAddressFromPrivateKey lib key) = getAddressFromPrivateKey lib key
      <-> match lib key with
          | Ok a => toLowerCase a = a
          | Throw _ => True
          end).
Proof.
  unfold getAddressFromPrivateKey.
  split; [intros key' ->; reflexivity|].
  split; [intros a ->; reflexivity|].
  split; [intros e ->; reflexivity|].
  split; [vm_compute; reflexivity|].
  destruct (lib key) as [a|e]; [reflexivity|].
  split; [trivial|]. intros _. vm_compute. reflexivity.
Qed.

(** C2 at the key of scalar 1 and at a string that is no key. *)
Lemma C2_address_witness :
  getAddressFromPrivateKey Viem.privateKeyToAccount Samples.key1 = Samples.address1
  /\ getAddressFromPrivateKey Viem.privateKeyToAccount (js "0x1234") = zeroAddress.
Proof.
  split.
  - refine (proj1 (proj2 (C2_address_as_derived Viem.privateKeyToAccount Samples.key1))
              Samples.address1 _).
    vm_compute. reflexivity.
  - refine (proj1 (proj2 (proj2 (C2_address_as_derived Viem.privateKeyToAccount
                                   (js "0x1234"))))
              Viem.invalidKey _).
    vm_compute. reflexivity.
Defined.

(** ** C3: a fatal step is recorded and the batch goes on *)

(** What [saveWalletData] stores for [error instanceof Error ?
    error.message : 'Неизвестная ошибка'], through
    [errorMessage || null]. *)
Lemma stored_message (e : thrown) :
  orNull (Some (messageOf e))
  = match e with
    | ErrorObj [] => None
    | ErrorObj m => Some m
    | OtherValue => Some (js "Неизвестная ошибка")
    end.
Proof.
  destruct e as [[|c m]|]; [reflexivity|reflexivity|vm_compute; reflexivity].
Qed.

Lemma extensionNotFound_stored :
  match extensionNotFound with
  | ErrorObj [] => None
  | ErrorObj m => Some m
  | OtherValue => Some (js "Неизвестная ошибка")
  end = Some (js "Не удалось найти расширение Rainbow Wallet").
Proof. vm_compute. reflexivity. Qed.

(** C3. With the store connected and answering, when a step between the
    launch and the main view throws (the extension search rejects or finds
    nothing, or the wallet page does not open), the turn of the loop ends
    normally with the error counter one higher, the store holds the
    address with status [error], no points and the message of the
    exception: the message [m] of an [Error] thrown with it, NULL when
    that message is empty, and the fixed text for a thrown value that is
    no [Error]. The loop goes on with the keys that are left and runs to
    its end. These steps are the only ones whose exception leaves
    [processWallet]: every later one is caught inside it. *)
Theorem C3_fatal_step_recorded
    (lib : jsstring -> result jsstring) (runs : nat -> run_env) (i : nat)
    (key : jsstring) (keysLeft : list jsstring) (t : tally) (w : world)
    (d : database) (e : thrown) :
  db w = Some d -> failing d = false ->
  shouldSkipWallet (db w) (getAddressFromPrivateKey lib key) = Ok false ->
  launched (runs i) -> fatalStep (runs i) e ->
  exists w' d',
    processKey lib (runs i) key t w
    = (Ok (Tally (successCount t) (S (errorCount t)) (skippedCount t)), w')
    /\ db w' = Some d'
    /\ rows d' !! getAddressFromPrivateKey lib key
       = Some {| address := getAddressFromPrivateKey lib key; points := None;
                 wstatus := error;
                 error_message :=
                   match e with
                   | ErrorObj [] => None
                   | ErrorObj m => Some m
                   | OtherValue => Some (js "Неизвестная ошибка")
                   end |}
    /\ processKeys lib runs i (key :: keysLeft) t w
       = processKeys lib runs (S i) keysLeft
           (Tally (successCount t) (S (errorCount t)) (skippedCount t)) w'
    /\ (exists t'' w'', processKeys lib runs i (key :: keysLeft) t w = (Ok t'', w''))
    /\ (forall e', fst (processWallet lib (runs i) key w) = Throw e'
                   <-> fatalStep (runs i) e').
Proof.
  intros Hdb Hf Hskip HL HF.
  pose proof (processKey_run lib (runs i) key t w Hskip) as HK.
  rewrite (processWallet_exit lib (runs i) key w HL), (fatalStep_exit _ _ HF) in HK.
  unfold exitWorld in HK. cbn [db dirs trace] in HK. rewrite Hdb in HK.
  destruct (savedDb_row d (getAddressFromPrivateKey lib key) None error
              (Some (messageOf e)) Hf) as (d1 & E1 & Hf1 & _).
  destruct (savedDb_row d1 (getAddressFromPrivateKey lib key) None error
              (Some (messageOf e)) Hf1) as (d2 & E2 & _ & Hrow).
  rewrite E1, E2 in HK.
  eexists. exists d2. split; [exact HK|]. split; [reflexivity|].
  split; [rewrite <- stored_message; exact Hrow|].
  split; [|split].
  - cbn [processKeys]. unfold bind at 1. now rewrite HK.
  - destruct (processKeys_returns lib runs i (key :: keysLeft) t w) as (t2 & w2 & E & _).
    + rewrite Hdb. eauto.
    + eauto.
  - intros e'. rewrite (processWallet_exit lib (runs i) key w HL). split.
    + intros H. apply exit_fatalStep.
      destruct (exitOf (runs i)); cbn [fst] in H; try discriminate. congruence.
    + intros H. now rewrite (fatalStep_exit _ _ H).
Qed.

(** C3 on a batch of two keys whose first run finds no extension. *)
Lemma C3_fatal_step_witness :
  exists w' d',
    processKey Viem.privateKeyToAccount Samples.runWithoutExtension Samples.key1
      Samples.tally0 Samples.world0
    = (Ok (Tally 0 1 0), w')
    /\ db w' = Some d'
    /\ rows d' !! getAddressFromPrivateKey Viem.privateKeyToAccount Samples.key1
       = Some {| address := getAddressFromPrivateKey Viem.privateKeyToAccount Samples.key1;
                 points := None; wstatus := error;
                 error_message :=
                   Some (js "Не удалось найти расширение Rainbow Wallet") |}
    /\ processKeys Viem.privateKeyToAccount (fun _ => Samples.runWithoutExtension) 0
         [Samples.key1; js "0x1234"] Samples.tally0 Samples.world0
       = processKeys Viem.privateKeyToAccount (fun _ => Samples.runWithoutExtension) 1
           [js "0x1234"] (Tally 0 1 0) w'
    /\ (exists t'' w'',
         processKeys Viem.privateKeyToAccount (fun _ => Samples.runWithoutExtension) 0
           [Samples.key1; js "0x1234"] Samples.tally0 Samples.world0 = (Ok t'', w''))
    /\ (forall e',
          fst (processWallet Viem.privateKeyToAccount Samples.runWithoutExtension
                 Samples.key1 Samples.world0) = Throw e'
          <-> fatalStep Samples.runWithoutExtension e').
Proof.
  assert (A1 : db Samples.world0 = Some Samples.emptyStore) by reflexivity.
  assert (A2 : failing Samples.emptyStore = false) by reflexivity.
  assert (A3 : shouldSkipWallet (db Samples.world0)
                 (getAddressFromPrivateKey Viem.privateKeyToAccount Samples.key1)
               = Ok false) by (vm_compute; reflexivity).
  assert (A4 : launched Samples.runWithoutExtension) by (split; reflexivity).
  assert (A5 : fatalStep Samples.runWithoutExtension extensionNotFound)
    by (apply (fatal_missing Samples.runWithoutExtension None); reflexivity).
  destruct (C3_fatal_step_recorded Viem.privateKeyToAccount
              (fun _ => Samples.runWithoutExtension) 0 Samples.key1 [js "0x1234"]
              Samples.tally0 Samples.world0 Samples.emptyStore extensionNotFound
              A1 A2 A3 A4 A5) as (w' & d' & H1 & H2 & H3 & H4 & H5 & H6).
  rewrite extensionNotFound_stored in H3.
  exists w', d'. split; [exact H1|]. split; [exact H2|]. split; [exact H3|].
  split; [exact H4|]. split; [exact H5|exact H6].
Defined.

(** An exception of the navigation to the main view does not leave the
    inner [try]: nothing is saved and the run counts as a success. *)
Lemma goto_error_is_swallowed :
  let run := processKey Viem.privateKeyToAccount Samples.runGotoFails Samples.key1
               Samples.tally0 in
  fst (run Samples.world0) = Ok (Tally 1 0 0)
  /\ savesOf (eventsOf run Samples.world0) = [].
Proof.
  cbv zeta. split; vm_compute; reflexivity.
Qed.

(** ** C4: the fund-my-wallet outcome *)

(** No run of [processWallet] saves status [empty_balance]: the signal
    never leaves [checkPointsOrUseReferralCode]. *)
Lemma empty_balance_never_saved
    (lib : jsstring -> result jsstring) (env : run_env) (key : jsstring) (w : world)
    (a : jsstring) (p : option number) (m : option jsstring) :
  ~ In (EvSave a p empty_balance m) (eventsOf (processWallet lib env key) w).
Proof.
  destruct (mkdirError env) as [e1|] eqn:Hm.
  - erewrite eventsOf_app
      by (rewrite (processWallet_mkdir_fails lib env key w e1 Hm); reflexivity).
    cbn [In]. intros [H|[H|[]]]; discriminate.
  - destruct (launchError env) as [e1|] eqn:Hl.
    + erewrite eventsOf_app
        by (rewrite (processWallet_launch_fails lib env key w e1 Hm Hl); reflexivity).
      cbn [In]. intros [H|[H|[H|[]]]]; discriminate.
    + pose proof (processWallet_exit lib env key w (conj Hm Hl)) as HX.
      destruct (exitOf env);
        (erewrite eventsOf_app
           by (rewrite HX; unfold exitWorld; cbn [snd trace]; reflexivity));
        cbn [app In]; intuition discriminate.
Qed.

(** C4, at a run in which the referral code is entered, "Sign In" is
    clicked and "Fund My Wallet" shows: the sub-flow raises the signal, the
    points check answers [null], and the turn ends with nothing saved, the
    store as it was and the success counter one higher. *)
Theorem C4_fund_wallet_run_saves_nothing :
  let lib := Viem.privateKeyToAccount in
  let env := Samples.runOn (Samples.offering Samples.fundWalletReferral) in
  let run := processKey lib env Samples.key1 Samples.tally0 in
  fundWalletSeen (page env)
  /\ enterReferralCode (referral (page env)) = Throw emptyBalanceError
  /\ checkPointsOrUseReferralCode (page env) = Ok None
  /\ fst (run Samples.world0) = Ok (Tally 1 0 0)
  /\ eventsOf run Samples.world0
     = [EvProcess Samples.key1; EvLaunch (tempPath env);
        EvClose (tempPath env); EvCleanup (tempPath env)]
  /\ db (snd (run Samples.world0)) = Some Samples.emptyStore.
Proof.
  cbv zeta.
  split; [repeat split|].
  split; [vm_compute; reflexivity|].
  split; [vm_compute; reflexivity|].
  split; [vm_compute; reflexivity|].
  split; [vm_compute; reflexivity|].
  rewrite processKey_run by (vm_compute; reflexivity).
  rewrite processWallet_exit by (split; reflexivity).
  reflexivity.
Qed.

(** ** C8: the skip before the run *)

(** C8. With the store connected and answering: [shouldSkipWallet] is
    [true] for an address whose record has status [success] and points
    above zero, and [false] for an address without a record or with any
    other record; on a key whose address is skipped the loop only counts
    the skip: the world is left as it was, so [processWallet] is not
    called; on any other key it is called. *)
Theorem C8_skip_recorded_success
    (lib : jsstring -> result jsstring) (env : run_env) (key : jsstring)
    (t : tally) (w : world) (d : database) :
  db w = Some d -> failing d = false ->
  (forall a r p,
     rows d !! a = Some r -> wstatus r = success -> points r = Some p ->
     gt0 p = true ->
     shouldSkipWallet (db w) a = Ok true)
  /\ (forall a, rows d !! a = None -> shouldSkipWallet (db w) a = Ok false)
  /\ (forall a r,
        rows d !! a = Some r ->
        wstatus r <> success \/ points r = None
          \/ (exists p, points r = Some p /\ gt0 p = false) ->
        shouldSkipWallet (db w) a = Ok false)
  /\ (shouldSkipWallet (db w) (getAddressFromPrivateKey lib key) = Ok true ->
      processKey lib env key t w
      = (Ok (Tally (successCount t) (errorCount t) (S (skippedCount t))), w))
  /\ (shouldSkipWallet (db w) (getAddressFromPrivateKey lib key) = Ok false ->
      In (EvProcess key) (eventsOf (processKey lib env key t) w)).
Proof.
  intros Hdb Hf. rewrite Hdb.
  unfold shouldSkipWallet, getWalletByAddress. rewrite Hf.
  split; [|split; [|split; [|split]]].
  - intros a r p Hr Hs Hp Hpos. rewrite Hr, Hs, Hp. now rewrite Hpos.
  - intros a Hr. now rewrite Hr.
  - intros a r Hr H. rewrite Hr.
    destruct H as [H|[H|(p & Hp & Hle)]].
    + destruct (wstatus r); try reflexivity. congruence.
    + rewrite H. now rewrite andb_false_r.
    + rewrite Hp, Hle. now rewrite andb_false_r.
  - intros Hs. apply processKey_skipped. rewrite Hdb.
    unfold shouldSkipWallet, getWalletByAddress. now rewrite Hf.
  - intros Hs.
    assert (Hs' : shouldSkipWallet (db w) (getAddressFromPrivateKey lib key) = Ok false).
    { rewrite Hdb. unfold shouldSkipWallet, getWalletByAddress. now rewrite Hf. }
    assert (HP : exists evs, trace (snd (processWallet lib env key w))
                             = trace w ++ EvProcess key :: evs).
    { destruct (mkdirError env) as [e1|] eqn:Hm.
      - rewrite (processWallet_mkdir_fails lib env key w e1 Hm). eexists. reflexivity.
      - destruct (launchError env) as [e1|] eqn:Hl.
        + rewrite (processWallet_launch_fails lib env key w e1 Hm Hl).
          eexists. reflexivity.
        + rewrite (processWallet_exit lib env key w (conj Hm Hl)).
          destruct (exitOf env); unfold exitWorld; cbn [snd trace];
            eexists; reflexivity. }
    destruct HP as (evs & HP).
    pose proof (processKey_run lib env key t w Hs') as HK.
    destruct (processWallet lib env key w) as [[[|]|e'] w'] eqn:E;
      cbn [snd] in HP;
      (erewrite eventsOf_app
         by (rewrite HK; cbn [snd trace]; rewrite HP; try rewrite <- app_assoc;
             reflexivity));
      cbn [app In]; auto.
Qed.

(** C8 on a store that holds a success with 1500 points for the address
    of the sample key. *)
Lemma C8_skip_witness :
  shouldSkipWallet (db Samples.worldDone) Samples.address1 = Ok true
  /\ processKey Viem.privateKeyToAccount
       (Samples.runOn (Samples.showing Samples.labelAndNumber)) Samples.key1
       Samples.tally0 Samples.worldDone
     = (Ok (Tally 0 0 1), Samples.worldDone).
Proof.
  pose proof (C8_skip_recorded_success Viem.privateKeyToAccount
                (Samples.runOn (Samples.showing Samples.labelAndNumber)) Samples.key1
                Samples.tally0 Samples.worldDone Samples.doneStore
                eq_refl eq_refl) as (H1 & _ & _ & H4 & _).
  assert (E : shouldSkipWallet (db Samples.worldDone) Samples.address1 = Ok true).
  { apply (H1 Samples.address1
             {| address := Samples.address1; points := Some (Num 1500);
                wstatus := success; error_message := None |} (Num 1500)).
    - vm_compute. reflexivity.
    - reflexivity.
    - reflexivity.
    - reflexivity. }
  split; [exact E|]. apply H4.
  vm_compute. reflexivity.
Defined.

(** ** C9: the teardown *)

(** The handler of the empty-balance signal in the points block saves
    [empty_balance] with zero points, closes and cleans, and returns
    [false]. *)
Lemma pointsBlockOn_signal e env addr tp w :
  isEmptyBalance e = true -> truthy tp = true ->
  pointsBlockOn (Throw e) env addr (Some tp) w
  = (Ok (Returned false),
     World (savedDb (db w) addr (Some (Num 0)) empty_balance (Some (js "Баланс пуст")))
           (dirsAfterCleanup env tp (dirs w))
           (trace w ++ [EvSave addr (Some (Num 0)) empty_balance (Some (js "Баланс пуст"));
                        EvClose tp; EvCleanup tp])).
Proof.
  intros He Ht. unfold pointsBlockOn. monad_steps_outer. rewrite He.
  rewrite ignoring_save. rewrite tearDown_session by exact Ht.
  cbn [db dirs trace]. now rewrite <- app_assoc.
Qed.

(** C9. In every run whose browser came up, whatever the exit (a success
    saved, the benign return, the error rethrown), [context.close()] is
    called exactly once and then [cleanupTempProfile] exactly once on the
    profile of the run, also when closing rejects; the profile directory
    is gone afterwards unless the file system refuses the removal. The
    block that returns on the empty-balance signal does the same. *)
Theorem C9_teardown_exactly_once
    (lib : jsstring -> result jsstring) (env : run_env) (key : jsstring) (w : world) :
  launched env ->
  List.filter (fun ev => isClose ev || isCleanup ev)
    (eventsOf (processWallet lib env key) w)
  = [EvClose (tempPath env); EvCleanup (tempPath env)]
  /\ (rmError env = false ->
      tempPath env ∉ dirs (snd (processWallet lib env key w)))
  /\ (forall e addr w1,
        isEmptyBalance e = true ->
        List.filter (fun ev => isClose ev || isCleanup ev)
          (eventsOf (pointsBlockOn (Throw e) env addr (Some (tempPath env))) w1)
        = [EvClose (tempPath env); EvCleanup (tempPath env)]).
Proof.
  intros HL. pose proof (processWallet_exit lib env key w HL) as HX.
  split; [|split].
  - destruct (exitOf env);
      (erewrite eventsOf_app
         by (rewrite HX; unfold exitWorld; cbn [snd trace]; reflexivity));
      reflexivity.
  - intros Hrm.
    assert (Hd : dirs (snd (processWallet lib env key w))
                 = dirsAfterCleanup env (tempPath env) ({[ tempPath env ]} ∪ dirs w)).
    { rewrite HX. destruct (exitOf env); reflexivity. }
    rewrite Hd. unfold dirsAfterCleanup. rewrite Hrm.
    rewrite bool_decide_eq_true_2
      by (apply elem_of_union_l; now apply elem_of_singleton).
    cbn [negb andb]. intros [_ H]%elem_of_difference.
    apply H. now apply elem_of_singleton.
  - intros e addr w1 He.
    erewrite eventsOf_app
      by (rewrite (pointsBlockOn_signal e env addr (tempPath env) w1 He
                     (truthy_tempPath env)); reflexivity).
    reflexivity.
Qed.

(** C9 on a run whose navigation fails and whose context refuses to
    close. *)
Lemma C9_teardown_witness :
  List.filter (fun ev => isClose ev || isCleanup ev)
    (eventsOf (processWallet Viem.privateKeyToAccount Samples.runGotoFails Samples.key1)
       Samples.world0)
  = [EvClose (tempPath Samples.runGotoFails); EvCleanup (tempPath Samples.runGotoFails)]
  /\ (rmError Samples.runGotoFails = false ->
      tempPath Samples.runGotoFails
        ∉ dirs (snd (processWallet Viem.privateKeyToAccount Samples.runGotoFails
                       Samples.key1 Samples.world0))).
Proof.
  pose proof (C9_teardown_exactly_once Viem.privateKeyToAccount Samples.runGotoFails
                Samples.key1 Samples.world0 (conj eq_refl eq_refl)) as (H1 & H2 & _).
  split; [exact H1|exact H2].
Defined.

(** ** C5: the rank sentence *)




(** With all of the sentence in one element there is no element to read
    alone, and the engine returns [null]. *)
Lemma rank_sentence_in_one_element : extractPoints Samples.rankFlat = None.
Proof. vm_compute. reflexivity. Qed.

(** ** C6: null or a positive integer *)



(** ** C7: the grouped number in the next sibling *)

(** The label "My Points" is visible and found, its next sibling is
    visible and reads exactly ["12,345"], and the engine returns
    12345100: the fast path runs first over the text of the body, where
    the digits of the next element follow after a space. *)
Lemma C7_following_digits_are_merged :
  let d := Samples.labelNumberFriends in
  In [1; 0; 0]%nat (myPointsElements d)
  /\ nextElementSibling (html d) [1; 0; 0]%nat = Some [1; 0; 1]%nat
  /\ (exists st inner ks,
        get (html d) [1; 0; 1]%nat = Some (Elem st inner ks)
        /\ shown st = true
        /\ textContent (Elem st inner ks) = js "12,345")
  /\ extractPoints d = Some (Num 12345100)
  /\ extractPoints d <> Some (Num 12345).
Proof.
  cbv zeta. split; [vm_compute; auto|].
  split; [vm_compute; reflexivity|].
  split.
  - eexists _, _, _. split; [vm_compute; reflexivity|].
    split; vm_compute; reflexivity.
  - split; [vm_compute; reflexivity|]. vm_compute. discriminate.
Qed.

(** C7, amended. When the next sibling element of a label is visible and
    its text, trimmed, is ["12,345"], strategy 1 finds 12345 for that
    label, and so do all strategies together; the separators (comma,
    space, no-break space) are stripped before parsing. On a page whose
    body text contains "My Points", the engine returns 12345 unless the
    fast path over the body text, or a label collected before this one,
    reads another number. *)
Theorem C7_sibling_number
    (d : document) (b : node) (el sib : path) (before after : list path)
    (st : style) (inner : jsstring) (ks : list node) :
  body d = Some b ->
  includes (textContent b) (js "My Points")
    || includes (innerText b) (js "My Points") = true ->
  myPointsElements d = before ++ el :: after ->
  nextElementSibling (html d) el = Some sib ->
  get (html d) sib = Some (Elem st inner ks) ->
  shown st = true ->
  trim (textContent (Elem st inner ks)) = js "12,345" ->
  (forall n, fastPath (or_else (innerText b) (textContent b)) = Some n ->
             n = Num 12345) ->
  (forall el' txt n, In el' before -> pointsAt (html d) el' = Some (txt, n) ->
                     n = Num 12345) ->
  strategy1 (html d) el = Some (js "12345", Num 12345)
  /\ pointsAt (html d) el = Some (js "12345", Num 12345)
  /\ extractPoints d = Some (Num 12345)
  /\ stripSeparators (js "12,345") = js "12345"
  /\ stripSeparators [49; 50; 32; 51; 52; 53] = js "12345"
  /\ stripSeparators [49; 50; 160; 51; 52; 53] = js "12345".
Proof.
  intros Hb Hl Hm Hn Hg Hs Ht Hfast Hbefore.
  pose proof (strategy1_grouped (html d) el sib st inner ks Hn Hg Hs Ht) as H1.
  pose proof (pointsAt_strategy1 (html d) el _ _ H1 eq_refl) as HP.
  split; [exact H1|]. split; [exact HP|].
  split; [|repeat split; vm_compute; reflexivity].
  unfold extractPoints. rewrite Hb.
  apply orb_true_iff in Hl.
  assert (E : negb (includes (textContent b) (js "My Points"))
              && negb (includes (innerText b) (js "My Points")) = false).
  { destruct Hl as [-> | ->]; [reflexivity|apply andb_false_r]. }
  rewrite E.
  destruct (fastPath _) as [n|] eqn:F; [now rewrite (Hfast n eq_refl)|].
  rewrite Hm. now apply (firstPoints_reaches _ _ _ _ (js "12345")).
Qed.

(** C7 on the page made of the label and its sibling in one block: the
    fast path reads 12345, and so does the block, which is collected
    before the label. *)
Lemma C7_sibling_number_witness :
  strategy1 (html Samples.labelAndNumber) [1; 0; 0]%nat = Some (js "12345", Num 12345)
  /\ extractPoints Samples.labelAndNumber = Some (Num 12345).
Proof.
  pose (b := Samples.el [Samples.el [Samples.el [Samples.txt "My Points"];
                                     Samples.el [Samples.txt "12,345"]]]).
  assert (A1 : body Samples.labelAndNumber = Some b) by reflexivity.
  assert (A2 : includes (textContent b) (js "My Points")
               || includes (innerText b) (js "My Points") = true)
    by (vm_compute; reflexivity).
  assert (A3 : myPointsElements Samples.labelAndNumber
               = [[1; 0]%nat] ++ [1; 0; 0]%nat :: [[1; 0; 0]%nat])
    by (vm_compute; reflexivity).
  assert (A4 : nextElementSibling (html Samples.labelAndNumber) [1; 0; 0]%nat
               = Some [1; 0; 1]%nat) by (vm_compute; reflexivity).
  assert (A5 : get (html Samples.labelAndNumber) [1; 0; 1]%nat
               = Some (Elem Samples.block (js "12,345") [Samples.txt "12,345"]))
    by (vm_compute; reflexivity).
  assert (A6 : shown Samples.block = true) by (vm_compute; reflexivity).
  assert (A7 : trim (textContent (Elem Samples.block (js "12,345") [Samples.txt "12,345"]))
               = js "12,345") by (vm_compute; reflexivity).
  assert (A8 : forall n, fastPath (or_else (innerText b) (textContent b)) = Some n ->
                         n = Num 12345).
  { intros n. assert (F : fastPath (or_else (innerText b) (textContent b))
                          = Some (Num 12345)) by (vm_compute; reflexivity).
    rewrite F. now intros [= <-]. }
  assert (A9 : forall el' txt n, In el' [[1; 0]%nat] ->
                 pointsAt (html Samples.labelAndNumber) el' = Some (txt, n) ->
                 n = Num 12345).
  { intros el' txt n [<-|[]].
    assert (P : pointsAt (html Samples.labelAndNumber) [1; 0]%nat
                = Some (js "12345", Num 12345)) by (vm_compute; reflexivity).
    rewrite P. now intros [= _ <-]. }
  destruct (C7_sibling_number Samples.labelAndNumber b [1; 0; 0]%nat [1; 0; 1]%nat
              [[1; 0]%nat] [[1; 0; 0]%nat]
              Samples.block (js "12,345") [Samples.txt "12,345"]
              A1 A2 A3 A4 A5 A6 A7 A8 A9) as (H1 & _ & H3 & _).
  split; [exact H1|exact H3].
Defined.

(** A rank sentence after the number: the fast path rejects its candidate
    and the label's sibling gives 12345. *)
Lemma sibling_number_before_rank :
  fastPath (js "My Points12,345750 points to rank #1,200 on the leaderboard") = None
  /\ extractPoints Samples.labelNumberRank = Some (Num 12345).
Proof. split; vm_compute; reflexivity. Qed.

(** ** C10: the keys that are loaded *)

(** When encrypted keys exist, [loadPrivateKeys] returns what
    [KeyEncryption.promptPasswordWithRetry] resolves to, without looking
    at it: a decrypted string that is no key is returned as it is. *)
Lemma C10_decrypted_keys_unchecked :
  loadPrivateKeys Samples.decryptedKeys = Ok [js "not a key"]
  /\ ~ key_shape (js "not a key")
  /\ ~ (forall keys, loadPrivateKeys Samples.decryptedKeys = Ok keys ->
                     Forall key_shape keys).
Proof.
  assert (N : ~ key_shape (js "not a key")).
  { intros (h & E & _). discriminate E. }
  split; [reflexivity|]. split; [exact N|].
  intros H. specialize (H [js "not a key"] eq_refl).
  apply N. now inversion H.
Qed.

(** C10, amended. Every string [loadPrivateKeys] returns from [keys.txt]
    has the shape [0x] and 64 hexadecimal digits. The result is made line
    by line: a trimmed line of the full shape is kept, a trimmed line of
    exactly 64 hexadecimal digits is kept with [0x] in front, and an empty
    line, a line that starts with [#] and a line of any other shape give
    nothing. When encrypted keys exist the file is not read: the result is
    the list [KeyEncryption] decrypts, as it comes, or the empty list when
    the decryption throws. *)
Theorem C10_loaded_keys_shape (src : key_source) (keys : list jsstring) :
  loadPrivateKeys src = Ok keys ->
  (hasEncryptedKeys src = false -> Forall key_shape keys)
  /\ (hasEncryptedKeys src = false ->
      forall content, keysFile src = Some (Ok content) ->
      keys = flat_map keysOfLine (split_lines content))
  /\ (hasEncryptedKeys src = true ->
      (forall ks, promptPasswordWithRetry src = Ok ks -> keys = ks)
      /\ (forall e, promptPasswordWithRetry src = Throw e -> keys = []))
  /\ (forall line, key_shape (trim line) -> keysOfLine line = [trim line])
  /\ (forall line, hex64 (trim line) = true ->
        keysOfLine line = [js "0x" ++ trim line])
  /\ (forall line, trim line = [] -> keysOfLine line = [])
  /\ (forall line, startsWith (trim line) (js "#") = true -> keysOfLine line = [])
  /\ (forall line, ~ key_shape (trim line) -> hex64 (trim line) = false ->
        keysOfLine line = []).
Proof.
  intros Hload. split; [|split; [|split]].
  - intros He. unfold loadPrivateKeys in Hload. rewrite He in Hload.
    destruct (keysFile src) as [[content|e]|]; try discriminate.
    + injection Hload as <-. apply flat_map_keys_shape.
    + injection Hload as <-. constructor.
  - intros He content Hk. unfold loadPrivateKeys in Hload.
    rewrite He, Hk in Hload. now injection Hload as <-.
  - intros He. unfold loadPrivateKeys in Hload. rewrite He in Hload.
    split.
    + intros ks Hk. rewrite Hk in Hload. now injection Hload as <-.
    + intros e Hk. rewrite Hk in Hload. now injection Hload as <-.
  - split; [|split; [|split; [|split]]]; intros line.
    + intros H. apply prefixed_key_shape in H. rewrite keysOfLine_spec. now rewrite H.
    + intros H. rewrite keysOfLine_spec, H.
      destruct (prefixed (trim line)) eqn:P; [|reflexivity].
      exfalso. unfold prefixed in P. unfold hex64 in H.
      destruct (trim line) as [|a [|b h]]; try discriminate.
      apply andb_true_iff in P. destruct P as [P _].
      apply andb_true_iff in P. destruct P as [_ Pb].
      apply andb_true_iff in H. destruct H as [_ H].
      cbn [forallb] in H.
      apply andb_true_iff in H. destruct H as [_ H].
      apply andb_true_iff in H. destruct H as [H _].
      apply N.eqb_eq in Pb. subst b. discriminate H.
    + intros H. rewrite keysOfLine_spec, H. reflexivity.
    + intros H. unfold keysOfLine. rewrite H. now rewrite andb_false_r.
    + intros Hn Hh. rewrite keysOfLine_spec, Hh.
      destruct (prefixed (trim line)) eqn:P; [|reflexivity].
      exfalso. apply Hn. now apply prefixed_key_shape.
Qed.

(** C10 on a file with a comment, a bare key, a prefixed key with spaces
    before it, a short key and an empty line. *)
Lemma C10_loaded_keys_witness :
  loadPrivateKeys Samples.plainKeys
  = Ok [Samples.key1;
        js "0xAC0974BEC39A17E36BA4A6B4D238FF944BACB478CBED5EFCAE784D7BF4F2FF80"]
  /\ Forall key_shape
       [Samples.key1;
        js "0xAC0974BEC39A17E36BA4A6B4D238FF944BACB478CBED5EFCAE784D7BF4F2FF80"].
Proof.
  assert (E : loadPrivateKeys Samples.plainKeys
              = Ok [Samples.key1;
                    js "0xAC0974BEC39A17E36BA4A6B4D238FF944BACB478CBED5EFCAE784D7BF4F2FF80"])
    by (vm_compute; reflexivity).
  split; [exact E|].
  exact (proj1 (C10_loaded_keys_shape Samples.plainKeys _ E) eq_refl).
Defined.

(** ** The whole batch on a sample *)

(** One key, a store that opens, a page that shows 12,345: the batch counts
    one success and the store holds it. *)
Lemma importWallet_sample :
  let out := importWallet Viem.privateKeyToAccount (Samples.batchOn (Ok Samples.emptyStore))
               Samples.worldOff in
  fst out = Ok (Some (Tally 1 0 0))
  /\ match db (snd out) with
     | Some d =>
       rows d !! Samples.address1
       = Some {| address := Samples.address1; points := Some (Num 12345);
                 wstatus := success; error_message := None |}
     | None => False
     end.
Proof.
  cbv zeta. split; vm_compute; reflexivity.
Qed.

(** When the store does not open, the batch goes on without it only as
    far as the first key: [shouldSkipWallet] throws outside any [try]. *)
Lemma importWallet_without_store :
  fst (importWallet Viem.privateKeyToAccount
         (Samples.batchOn (Throw (ErrorObj (js "unable to open database file"))))
         Samples.worldOff)
  = Throw notInitialised.
Proof.
  vm_compute. reflexivity.
Qed.

(* ===================================================================== *)
(** * Further properties *)
(* ===================================================================== *)

(** ** The store: writing and reading back *)

(** X1. After [saveWalletData] on a working connection, [shouldSkipWallet]
    of the saved address is [true] exactly when the saved status is
    [success] and the saved points are above zero, the row read back is
    the one saved, and every other address reads as before. *)
Theorem save_then_read (d : database) (addr : jsstring) (pts : option number)
    (st : status) (msg : option jsstring) :
  failing d = false ->
  exists c',
    saveWalletData (Some d) addr pts st msg = Ok c'
    /\ getWalletByAddress c' addr
       = Ok (Some {| address := addr; points := pts; wstatus := st;
                     error_message := orNull msg |})
    /\ shouldSkipWallet c' addr
       = Ok (status_eqb st success
             && match pts with Some p => gt0 p | None => false end)
    /\ (forall other, other <> addr ->
          getWalletByAddress c' other = getWalletByAddress (Some d) other
          /\ shouldSkipWallet c' other = shouldSkipWallet (Some d) other).
Proof.
  intros Hf. unfold saveWalletData. rewrite Hf. eexists. split; [reflexivity|].
  unfold shouldSkipWallet, getWalletByAddress. cbn [failing rows].
  rewrite Hf, lookup_insert_eq. split; [reflexivity|]. split; [reflexivity|].
  intros other Hne. now rewrite lookup_insert_ne by congruence.
Qed.

Lemma save_then_read_witness :
  exists c',
    saveWalletData (Some Samples.emptyStore) Samples.address1 (Some (Num 12345)) success None
    = Ok c'
    /\ shouldSkipWallet c' Samples.address1 = Ok true.
Proof.
  destruct (save_then_read Samples.emptyStore Samples.address1 (Some (Num 12345)) success
              None eq_refl) as (c' & H1 & _ & H3 & _).
  exists c'. split; [exact H1|exact H3].
Defined.

(** X2. The upsert keeps one row per address and the last write wins:
    saving twice at an address leaves the store that the second save alone
    leaves, on any connection, working or not. *)
Theorem save_last_write_wins (c : connection) (addr : jsstring)
    (pts1 pts2 : option number) (st1 st2 : status) (msg1 msg2 : option jsstring) :
  savedDb (savedDb c addr pts1 st1 msg1) addr pts2 st2 msg2
  = savedDb c addr pts2 st2 msg2.
Proof.
  unfold savedDb, saveWalletData. destruct c as [d|]; [|reflexivity].
  destruct (failing d) eqn:Hf; cbn [failing rows]; rewrite ?Hf; [reflexivity|].
  now rewrite insert_insert_eq.
Qed.

(** ** The statistics *)

Lemma filter_length_le {A} (f : A -> bool) l : (length (List.filter f l) <= length l)%nat.
Proof.
  induction l as [|a l IH]; cbn; [lia|]. destruct (f a); cbn; lia.
Qed.

Lemma counted_classes w :
  ((if countsWithPoints w then 1 else 0) + (if countsWithoutPoints w then 1 else 0)
   + (if countsError w then 1 else 0)
   = if counted w then 1 else 0)%nat.
Proof.
  unfold counted, countsWithPoints, countsWithoutPoints, countsError, hasPoints.
  destruct (wstatus w); cbn; destruct (points w) as [[p| |]|]; cbn; try reflexivity.
  destruct (0 <? p)%Z eqn:E1, (p =? 0)%Z eqn:E2; cbn; try reflexivity. lia.
Qed.

Lemma counted_sum l :
  (length (List.filter countsWithPoints l) + length (List.filter countsWithoutPoints l)
   + length (List.filter countsError l)
   = length (List.filter counted l))%nat.
Proof.
  induction l as [|w l IH]; [reflexivity|]. cbn [List.filter].
  pose proof (counted_classes w) as H.
  destruct (countsWithPoints w), (countsWithoutPoints w), (countsError w),
    (counted w); cbn [length] in *; lia.
Qed.

(** X3. The three counters of the statistics count disjoint rows, so they
    add up to at most the total; they add up to the total when no row is
    left [pending] or is a success with points below zero. *)
Theorem stats_counters_add_up (allWallets : list WalletRecord) :
  (withPoints (statsOf allWallets) + withoutPoints (statsOf allWallets)
   + errors (statsOf allWallets) <= total (statsOf allWallets))%nat
  /\ (forallb counted allWallets = true ->
      (withPoints (statsOf allWallets) + withoutPoints (statsOf allWallets)
       + errors (statsOf allWallets) = total (statsOf allWallets))%nat)
  /\ (forall w, counted w = false <->
        wstatus w = pending
        \/ (wstatus w = success /\ exists p, points w = Some p /\ lt0 p = true)).
Proof.
  cbn [statsOf total withPoints withoutPoints errors]. rewrite counted_sum.
  split; [apply filter_length_le|]. split.
  - intros H. f_equal. induction allWallets as [|w l IH]; [reflexivity|].
    cbn in H |- *. apply andb_true_iff in H. destruct H as [H1 H2].
    rewrite H1. f_equal. now apply IH.
  - intros w. unfold counted, countsWithPoints, countsWithoutPoints, countsError,
      hasPoints.
    destruct (wstatus w); cbn; destruct (points w) as [[p| |]|]; cbn; split;
      try discriminate; try (intros _; now left);
      try (intros [H|(H & _)]; discriminate);
      try (intros [H|(_ & q & Hq & _)]; discriminate);
      try (intros [H|(_ & q & [= <-] & Hq)]; discriminate).
    all: try reflexivity.
    + intros H. right. split; [reflexivity|]. exists (Num p). split; [reflexivity|].
      cbn. lia.
    + intros [H|(_ & q & [= <-] & Hq)]; [discriminate|]. cbn in Hq. lia.
    + intros _. right. split; [reflexivity|]. exists NegInfinity. now split.
Qed.




















(** ** The referral sub-flow and the points check, further *)

Lemma pointsEarnedOf_positive text n : pointsEarnedOf text = Some n -> gt0 n = true.
Proof.
  unfold pointsEarnedOf. destruct (group1 _) as [[m g]|]; [|discriminate].
  destruct (parseClean g) as [[c num]|] eqn:E; [|discriminate].
  intros [= <-]. now apply (parseClean_positive g c).
Qed.

Lemma afterSignIn_some r n :
  afterSignIn r = Ok (Some n) ->
  signInButtonFound r = true /\ closedAfterSignIn r = false
  /\ fundWalletButtonFound r = false /\ pointsEarnedShown r = true
  /\ doneButtonFound r = true /\ pointsEarnedOf (earnedText r) = Some n.
Proof.
  unfold afterSignIn.
  destruct (signInButtonFound r); [|discriminate].
  destruct (closedAfterSignIn r); [discriminate|].
  destruct (fundWalletButtonFound r); [discriminate|].
  destruct (pointsEarnedShown r); [|discriminate].
  destruct (doneButtonFound r); [|discriminate]. cbn [andb].
  destruct (pointsEarnedOf (earnedText r)) as [k|]; [|discriminate].
  intros [= <-]. repeat split; reflexivity.
Qed.

Lemma enterReferralCode_some r n :
  enterReferralCode r = Ok (Some n) -> afterSignIn r = Ok (Some n).
Proof.
  unfold enterReferralCode, enterReferralCode_body.
  destruct (if inputByLocator r then Ok true else fillSweep r) as [[|]|e].
  - cbn [negb].
    destruct (if enterByLocator r then None else pressSweepError r) as [e|].
    + destruct (isEmptyBalance e); discriminate.
    + destruct (afterSignIn r) as [v|e]; [now intros [= ->]|].
      destruct (isEmptyBalance e); discriminate.
  - discriminate.
  - destruct (isEmptyBalance e); discriminate.
Qed.

Lemma enterReferralCode_throw r e :
  enterReferralCode r = Throw e -> isEmptyBalance e = true.
Proof.
  unfold enterReferralCode.
  destruct (enterReferralCode_body r) as [v|e']; [discriminate|].
  destruct (isEmptyBalance e') eqn:E; [|discriminate]. now intros [= <-].
Qed.

Lemma checkPoints_value p n :
  checkPointsOrUseReferralCode p = Ok (Some n) ->
  isClosed p = false
  /\ (if buttonFound p then enterReferralCode (referral p) = Ok (Some n)
      else exists d, evaluated p = Some d /\ extractPoints d = Some n).
Proof.
  unfold checkPointsOrUseReferralCode, checkPoints_body.
  destruct (isClosed p); [discriminate|]. intros H. split; [reflexivity|].
  revert H. destruct (buttonFound p).
  - destruct (enterReferralCode (referral p)) as [[k|]|e]; try discriminate.
    + now intros [= ->].
    + destruct (isEmptyBalance e); discriminate.
  - destruct (evaluated p) as [d|]; [|discriminate].
    intros [= E]. now exists d.
Qed.

Lemma checkPoints_positive p n :
  checkPointsOrUseReferralCode p = Ok (Some n) -> gt0 n = true.
Proof.
  intros H. apply checkPoints_value in H. destruct H as [_ H].
  destruct (buttonFound p).
  - apply enterReferralCode_some, afterSignIn_some in H.
    destruct H as (_ & _ & _ & _ & _ & H). now apply pointsEarnedOf_positive in H.
  - destruct H as (d & _ & H). now apply extractPoints_positive in H.
Qed.

(** X6. [enterReferralCode] lets an exception out only when its message
    holds the empty-balance phrase, whichever step raised it; it returns a
    number only after "Sign In" was clicked, the page stayed open, "Fund My
    Wallet" did not show, "Points Earned:" showed and "Done" was found, and
    that number is the one read after "Points Earned:" and is above zero.
    Seeing "Fund My Wallet" after "Sign In" is such an exception. *)
Theorem referral_code_outcomes (r : referral_env) :
  (forall e, enterReferralCode r = Throw e -> isEmptyBalance e = true)
  /\ (forall n, enterReferralCode r = Ok (Some n) ->
        gt0 n = true
        /\ signInButtonFound r = true /\ closedAfterSignIn r = false
        /\ fundWalletButtonFound r = false /\ pointsEarnedShown r = true
        /\ doneButtonFound r = true /\ pointsEarnedOf (earnedText r) = Some n)
  /\ (afterSignIn r = Throw emptyBalanceError <->
        signInButtonFound r = true /\ closedAfterSignIn r = false
        /\ fundWalletButtonFound r = true).
Proof.
  split; [intros e; apply enterReferralCode_throw|]. split.
  - intros n H. apply enterReferralCode_some, afterSignIn_some in H.
    split; [|exact H]. destruct H as (_ & _ & _ & _ & _ & H).
    now apply pointsEarnedOf_positive in H.
  - unfold afterSignIn. split.
    + destruct (signInButtonFound r); [|discriminate].
      destruct (closedAfterSignIn r); [discriminate|].
      destruct (fundWalletButtonFound r); [now repeat split|].
      destruct (pointsEarnedShown r && doneButtonFound r); [|discriminate].
      destruct (pointsEarnedOf (earnedText r)); discriminate.
    + intros (-> & -> & ->). reflexivity.
Qed.

(** X7. [checkPointsOrUseReferralCode] never throws; a number it returns
    is above zero and comes from an open page, through the referral
    sub-flow when "Use Referral Code" is visible and from the extraction
    over the document otherwise; an empty-balance exception of the sub-flow
    ends as [null]. *)
Theorem points_check_outcomes (p : page_env) :
  (exists v, checkPointsOrUseReferralCode p = Ok v)
  /\ (forall n, checkPointsOrUseReferralCode p = Ok (Some n) ->
        gt0 n = true /\ isClosed p = false
        /\ (buttonFound p = true -> enterReferralCode (referral p) = Ok (Some n))
        /\ (buttonFound p = false ->
            exists d, evaluated p = Some d /\ extractPoints d = Some n))
  /\ (forall e, buttonFound p = true -> enterReferralCode (referral p) = Throw e ->
        checkPointsOrUseReferralCode p = Ok None)
  /\ (isClosed p = true -> checkPointsOrUseReferralCode p = Ok None).
Proof.
  split; [|split; [|split]].
  - unfold checkPointsOrUseReferralCode. destruct (checkPoints_body p); eauto.
  - intros n H. split; [now apply (checkPoints_positive p)|].
    apply checkPoints_value in H. destruct H as [Hc H]. split; [exact Hc|].
    destruct (buttonFound p); split; try discriminate; intros _; exact H.
  - intros e Hb He. unfold checkPointsOrUseReferralCode, checkPoints_body.
    rewrite Hb, He. destruct (isClosed p); [reflexivity|].
    destruct (isEmptyBalance e); reflexivity.
  - intros Hc. unfold checkPointsOrUseReferralCode, checkPoints_body. now rewrite Hc.
Qed.

(** ** The shuffle *)

Lemma insert_cons_perm {A} (l : list A) (j : nat) (x y : A) :
  l !! j = Some y -> y :: <[j := x]> l ≡ₚ x :: l.
Proof.
  revert j. induction l as [|a l IH]; intros [|j] H; try discriminate.
  - cbn in H. injection H as ->. cbn. apply perm_swap.
  - cbn in H |- *. rewrite (perm_swap a y). rewrite (IH j H). apply perm_swap.
Qed.

Lemma swap_perm {A} (l : list A) (i j : nat) (x y : A) :
  l !! i = Some x -> l !! j = Some y -> <[j := x]> (<[i := y]> l) ≡ₚ l.
Proof.
  revert i j. induction l as [|a l IH]; intros [|i] [|j] Hi Hj; try discriminate;
    cbn in Hi, Hj |- *.
  - now injection Hi as ->.
  - injection Hi as ->. now apply insert_cons_perm.
  - injection Hj as ->. now apply insert_cons_perm.
  - constructor. now apply IH.
Qed.

Lemma shuffle_loop_perm {A} (rand : nat -> nat) (i : nat) (l : list A) :
  shuffle_loop rand i l ≡ₚ l.
Proof.
  revert l. induction i as [|i IH]; intros l; cbn [shuffle_loop]; [reflexivity|].
  destruct (l !! S i) as [temp|] eqn:Hi; [|apply IH].
  destruct (l !! Nat.min (rand (S i)) (S i)) as [other|] eqn:Hj; [|apply IH].
  rewrite IH. now apply swap_perm.
Qed.

Lemma shuffleArray_perm {A} (rand : nat -> nat) (array : list A) :
  shuffleArray rand array ≡ₚ array.
Proof. apply shuffle_loop_perm. Qed.

(** The swap of [shuffle_loop] takes place at every step: both indices
    are within the list. *)
Lemma shuffle_loop_step {A} (rand : nat -> nat) (i : nat) (l : list A) :
  (S i < length l)%nat ->
  exists temp other,
    l !! S i = Some temp /\ l !! Nat.min (rand (S i)) (S i) = Some other
    /\ shuffle_loop rand (S i) l
       = shuffle_loop rand i (<[Nat.min (rand (S i)) (S i) := temp]> (<[S i := other]> l)).
Proof.
  intros H.
  destruct (lookup_lt_is_Some_2 l (S i) H) as [temp Ht].
  destruct (lookup_lt_is_Some_2 l (Nat.min (rand (S i)) (S i)) ltac:(lia)) as [other Ho].
  exists temp, other. cbn [shuffle_loop]. now rewrite Ht, Ho.
Qed.

(** X8. [shuffleArray] returns a rearrangement of its argument: the same
    elements as often, whatever the draws; a list of at most one element
    comes back as it is, and a draw that always picks the current index
    leaves any list as it is. *)
Theorem shuffle_rearranges {A} (rand : nat -> nat) (array : list A) :
  shuffleArray rand array ≡ₚ array
  /\ length (shuffleArray rand array) = length array
  /\ (forall x, In x (shuffleArray rand array) <-> In x array)
  /\ ((length array <= 1)%nat -> shuffleArray rand array = array)
  /\ ((forall i, (i <= rand i)%nat) -> shuffleArray rand array = array).
Proof.
  pose proof (shuffleArray_perm rand array) as P.
  split; [exact P|]. split; [now apply Permutation_length|].
  split; [intros x; split; apply Permutation_in; [exact P|now symmetry]|].
  split.
  - intros H. unfold shuffleArray.
    replace (length array - 1)%nat with 0%nat by lia. reflexivity.
  - intros H. unfold shuffleArray.
    assert (G : forall i (l : list A), (i < length l)%nat -> shuffle_loop rand i l = l).
    { clear array P. induction i as [|i IH]; intros l Hl; [reflexivity|].
      destruct (shuffle_loop_step rand i l Hl) as (temp & other & Ht & Ho & ->).
      rewrite Nat.min_r in Ho |- * by apply H.
      rewrite Ht in Ho. injection Ho as <-.
      rewrite list_insert_insert_eq, list_insert_id by exact Ht.
      apply IH. lia. }
    destruct array as [|a l]; [reflexivity|]. apply G. cbn. lia.
Qed.

(** ** The batch, further *)

Lemma savedDb_other c a' pts st msg a :
  a' <> a ->
  getWalletByAddress (savedDb c a' pts st msg) a = getWalletByAddress c a.
Proof.
  intros Hn. unfold savedDb, saveWalletData, getWalletByAddress.
  destruct c as [d|]; [|reflexivity].
  destruct (failing d) eqn:Hf; cbn [failing rows]; [now rewrite Hf|].
  now rewrite lookup_insert_ne.
Qed.

Lemma savedDb_answering d addr pts st msg :
  failing d = false ->
  exists d', savedDb (Some d) addr pts st msg = Some d' /\ failing d' = false.
Proof.
  intros Hf. destruct (savedDb_row d addr pts st msg Hf) as (d' & E & Hf' & _). eauto.
Qed.

Lemma skip_answering c a :
  shouldSkipWallet c a = Ok true -> exists d, c = Some d /\ failing d = false.
Proof.
  unfold shouldSkipWallet, getWalletByAddress. destruct c as [d|]; [|discriminate].
  destruct (failing d) eqn:Hf; [discriminate|]. intros _. now exists d.
Qed.

Lemma skip_of_row c c' a :
  getWalletByAddress c' a = getWalletByAddress c a ->
  shouldSkipWallet c' a = shouldSkipWallet c a.
Proof. unfold shouldSkipWallet. now intros ->. Qed.

Section BatchFurther.

Variable lib : jsstring -> result jsstring.

(** What a run leaves in the store: nothing, a success with points above
    zero, or the error it throws; it never returns [false]. *)
Lemma processWallet_store env key w :
  let a := getAddressFromPrivateKey lib key in
  match processWallet lib env key w with
  | (Ok true, w') =>
    db w' = db w
    \/ exists pts, gt0 pts = true /\ db w' = savedDb (db w) a (Some pts) success None
  | (Ok false, _) => False
  | (Throw e, w') => db w' = savedDb (db w) a None error (Some (messageOf e))
  end.
Proof.
  intros a. subst a.
  destruct (mkdirError env) as [e1|] eqn:Hm.
  { now rewrite (processWallet_mkdir_fails lib env key w e1 Hm). }
  destruct (launchError env) as [e1|] eqn:Hl.
  { now rewrite (processWallet_launch_fails lib env key w e1 Hm Hl). }
  rewrite (processWallet_exit lib env key w (conj Hm Hl)).
  destruct (exitOf env) as [pts| |e1] eqn:E; unfold exitWorld; cbn [db].
  - right. exists pts. split; [|reflexivity].
    unfold exitOf in E.
    destruct (findRainbowExtensionId env) as [ext|]; [|discriminate].
    destruct (extensionPresent ext); [|discriminate].
    destruct (openRainbowWallet env); [discriminate|].
    destruct (gotoError env); [discriminate|].
    destruct (checkPointsOrUseReferralCode (page env)) as [[n|]|] eqn:C;
      try discriminate.
    injection E as <-. now apply (checkPoints_positive (page env)).
  - now left.
  - reflexivity.
Qed.

(** One turn of the loop adds one to exactly one counter. *)
Lemma processKey_counts env key t w t' w' :
  processKey lib env key t w = (Ok t', w') ->
  (successCount t' + errorCount t' + skippedCount t'
   = S (successCount t + errorCount t + skippedCount t))%nat.
Proof.
  unfold processKey. monad_steps_outer.
  destruct (shouldSkipWallet (db w) _) as [[|]|e]; [| |discriminate].
  - intros [= <- _]. cbn. lia.
  - pose proof (processWallet_store env key w) as S. cbv zeta in S.
    destruct (processWallet lib env key w) as [[[|]|e] w1]; [|destruct S|].
    + intros [= <- _]. cbn. lia.
    + rewrite ignoring_save. intros [= <- _]. cbn. lia.
Qed.

Lemma processKeys_counts runs i keys t w t' w' :
  processKeys lib runs i keys t w = (Ok t', w') ->
  (successCount t' + errorCount t' + skippedCount t'
   = successCount t + errorCount t + skippedCount t + length keys)%nat.
Proof.
  revert i t w. induction keys as [|key keys IH]; intros i t w; cbn [processKeys].
  - unfold ret. intros [= <- _]. cbn. lia.
  - unfold bind. destruct (processKey lib (runs i) key t w) as [[t1|e] w1] eqn:E;
      [|discriminate].
    intros H. apply IH in H. apply processKey_counts in E. cbn [length]. lia.
Qed.

(** A turn of the loop leaves the row of an address that is already
    skipped as it is. *)
Lemma processKey_keeps env key t w a :
  shouldSkipWallet (db w) a = Ok true ->
  getWalletByAddress (db (snd (processKey lib env key t w))) a
  = getWalletByAddress (db w) a.
Proof.
  intros Hs. destruct (skip_answering _ _ Hs) as (d & Hd & Hf).
  destruct (shouldSkipWallet_connected (db w) (getAddressFromPrivateKey lib key))
    as [[|] Hk]; [rewrite Hd; eauto| |].
  - now rewrite (processKey_skipped lib env key t w Hk).
  - assert (Hn : getAddressFromPrivateKey lib key <> a) by congruence.
    rewrite (processKey_run lib env key t w Hk).
    pose proof (processWallet_store env key w) as S. cbv zeta in S.
    destruct (processWallet lib env key w) as [[[|]|e] w1]; cbn [snd db].
    + destruct S as [->|(pts & _ & ->)]; [reflexivity|now apply savedDb_other].
    + destruct S.
    + rewrite S. now rewrite !savedDb_other.
Qed.

Lemma processKeys_keeps runs i keys t w a :
  shouldSkipWallet (db w) a = Ok true ->
  getWalletByAddress (db (snd (processKeys lib runs i keys t w))) a
  = getWalletByAddress (db w) a.
Proof.
  revert i t w. induction keys as [|key keys IH]; intros i t w Hs; cbn [processKeys].
  - reflexivity.
  - unfold bind.
    pose proof (processKey_keeps (runs i) key t w a Hs) as K.
    destruct (skip_answering _ _ Hs) as (d & Hd & _).
    destruct (processKey_returns lib (runs i) key t w) as (t1 & w1 & E & _);
      [rewrite Hd; eauto|].
    rewrite E in K |- *. cbn [snd] in K.
    rewrite IH; [exact K|]. rewrite (skip_of_row _ _ _ K). exact Hs.
Qed.

End BatchFurther.

(** X9. A batch over any keys and any runs leaves every wallet that is
    already recorded as a success with points as it is: its row is the
    same at the end, so it is still skipped. *)
Theorem recorded_success_is_kept (lib : jsstring -> result jsstring)
    (runs : nat -> run_env) (keys : list jsstring) (t : tally) (w : world)
    (a : jsstring) :
  shouldSkipWallet (db w) a = Ok true ->
  exists t' w',
    processKeys lib runs 0 keys t w = (Ok t', w')
    /\ getWalletByAddress (db w') a = getWalletByAddress (db w) a
    /\ shouldSkipWallet (db w') a = Ok true.
Proof.
  intros Hs. destruct (skip_answering _ _ Hs) as (d & Hd & _).
  destruct (processKeys_returns lib runs 0 keys t w) as (t' & w' & E & _);
    [rewrite Hd; eauto|].
  pose proof (processKeys_keeps lib runs 0 keys t w a Hs) as K.
  rewrite E in K. cbn [snd] in K.
  exists t', w'. split; [exact E|]. split; [exact K|].
  rewrite (skip_of_row _ _ _ K). exact Hs.
Qed.

Lemma recorded_success_witness :
  let lib := Viem.privateKeyToAccount in
  exists t' w',
    processKeys lib (fun _ => Samples.runWithoutExtension) 0 [Samples.key1]
      Samples.tally0 Samples.worldDone = (Ok t', w')
    /\ getWalletByAddress (db w') Samples.address1
       = getWalletByAddress (db Samples.worldDone) Samples.address1
    /\ shouldSkipWallet (db w') Samples.address1 = Ok true.
Proof.
  intros lib.
  refine (recorded_success_is_kept lib (fun _ => Samples.runWithoutExtension)
            [Samples.key1] Samples.tally0 Samples.worldDone Samples.address1 _).
  vm_compute. reflexivity.
Defined.

(** ** A store whose statements fail *)

Lemma savedDb_failing d a pts st msg :
  failing d = true -> savedDb (Some d) a pts st msg = Some d.
Proof. intros Hf. unfold savedDb, saveWalletData. now rewrite Hf. Qed.

Lemma processKey_failing lib env key t w d :
  db w = Some d -> failing d = true ->
  exists t' w',
    processKey lib env key t w = (Ok t', w')
    /\ db w' = Some d
    /\ skippedCount t' = skippedCount t
    /\ (successCount t' + errorCount t' = S (successCount t + errorCount t))%nat.
Proof.
  intros Hd Hf.
  assert (Hs : shouldSkipWallet (db w) (getAddressFromPrivateKey lib key) = Ok false).
  { rewrite Hd. unfold shouldSkipWallet, getWalletByAddress. now rewrite Hf. }
  rewrite (processKey_run lib env key t w Hs).
  pose proof (processWallet_store lib env key w) as S. cbv zeta in S.
  destruct (processWallet lib env key w) as [[[|]|e] w1].
  - eexists _, w1. split; [reflexivity|]. split.
    + destruct S as [->|(pts & _ & ->)]; [exact Hd|].
      rewrite Hd. now apply savedDb_failing.
    + cbn. split; [reflexivity|lia].
  - destruct S.
  - eexists _, _. split; [reflexivity|]. cbn [db]. split.
    + rewrite S, Hd. now rewrite !savedDb_failing.
    + cbn. split; [reflexivity|lia].
Qed.

(** X10. When the statements of the connection fail, nothing is written
    and nothing is read: [saveWalletData] returns without a change and
    [shouldSkipWallet] answers [false] for every address, also one recorded
    as a success. A batch on such a store therefore skips no key, runs
    every wallet again, counts each as a success or an error, and leaves
    the store as it was; no exception reaches the caller. *)
Theorem failing_store_runs_every_key (lib : jsstring -> result jsstring)
    (runs : nat -> run_env) (keys : list jsstring) (t : tally) (w : world)
    (d : database) :
  db w = Some d -> failing d = true ->
  (forall addr pts st msg,
     saveWalletData (Some d) addr pts st msg = Ok (Some d)
     /\ getWalletByAddress (Some d) addr = Ok None
     /\ shouldSkipWallet (Some d) addr = Ok false)
  /\ exists t' w',
       processKeys lib runs 0 keys t w = (Ok t', w')
       /\ db w' = Some d
       /\ skippedCount t' = skippedCount t
       /\ (successCount t' + errorCount t'
           = successCount t + errorCount t + length keys)%nat.
Proof.
  intros Hd Hf. split.
  - intros addr pts st msg.
    unfold shouldSkipWallet, getWalletByAddress, saveWalletData. rewrite Hf.
    repeat split.
  - generalize 0%nat as i. revert t w Hd.
    induction keys as [|key keys IH]; intros t w Hd i; cbn [processKeys].
    + exists t, w. unfold ret. cbn [length]. repeat split; try assumption. lia.
    + destruct (processKey_failing lib (runs i) key t w d Hd Hf)
        as (t1 & w1 & E & Hd1 & Hk & Hc).
      unfold bind. rewrite E.
      destruct (IH t1 w1 Hd1 (S i)) as (t' & w' & E' & Hd' & Hk' & Hc').
      exists t', w'. split; [exact E'|]. split; [exact Hd'|].
      split; [congruence|]. cbn [length]. lia.
Qed.

Lemma failing_store_witness :
  let d := {| rows := rows Samples.doneStore; failing := true |} in
  exists t' w',
    processKeys Viem.privateKeyToAccount (fun _ => Samples.runWithoutExtension) 0
      [Samples.key1] Samples.tally0 (World (Some d) ∅ []) = (Ok t', w')
    /\ db w' = Some d
    /\ skippedCount t' = skippedCount Samples.tally0
    /\ (successCount t' + errorCount t'
        = successCount Samples.tally0 + errorCount Samples.tally0
          + length [Samples.key1])%nat.
Proof.
  intros d.
  exact (proj2 (failing_store_runs_every_key Viem.privateKeyToAccount
                  (fun _ => Samples.runWithoutExtension) [Samples.key1] Samples.tally0
                  (World (Some d) ∅ []) d eq_refl eq_refl)).
Defined.

Lemma initDatabase_connects b w :
  (is_Some (db w) \/ exists d, opened b = Ok d) ->
  exists w0, ignoring (initDatabase b) w = (Ok tt, w0) /\ is_Some (db w0).
Proof.
  intros H. unfold initDatabase.
  destruct (opened b) as [d|e] eqn:E.
  - destruct (setupError b); monad_steps; cbn [db]; eauto.
  - destruct H as [H|[d H]]; [|discriminate]. monad_steps. eauto.
Qed.

(** X11. With the store connected, before the call or by it, and the
    extension directory present, [importWallet] on a key file that yields
    keys runs the loop to its end and counts every key exactly once: the
    successes, the errors and the skipped add up to the number of keys
    loaded, whatever the runs do. *)
Theorem every_key_is_counted (lib : jsstring -> result jsstring) (b : batch_env)
    (w : world) (keys : list jsstring) :
  (is_Some (db w) \/ exists d, opened b = Ok d) ->
  checkAndOfferEncryption b = Ok false ->
  loadPrivateKeys (keySource b) = Ok keys ->
  keys <> [] ->
  extensionExists b = true ->
  exists t w',
    importWallet lib b w = (Ok (Some t), w')
    /\ (successCount t + errorCount t + skippedCount t = length keys)%nat.
Proof.
  intros Hdb Hc Hk Hn He.
  destruct (initDatabase_connects b w Hdb) as (w0 & E0 & Hc0).
  unfold importWallet. unfold bind at 1. rewrite E0.
  rewrite Hc, Hk. monad_steps. destruct keys as [|k ks]; [contradiction|].
  rewrite He. cbn [negb].
  destruct (processKeys_returns lib (runs b) 0 (shuffleArray (rand b) (k :: ks))
              (Tally 0 0 0) w0 Hc0) as (t & w' & E & _).
  rewrite E. exists t, w'. split; [reflexivity|].
  apply processKeys_counts in E. cbn [successCount errorCount skippedCount] in E.
  rewrite E. cbn [Nat.add]. apply Permutation_length, shuffleArray_perm.
Qed.

Lemma every_key_witness :
  exists t w',
    importWallet Viem.privateKeyToAccount (Samples.batchOn (Ok Samples.emptyStore))
      Samples.worldOff = (Ok (Some t), w')
    /\ (successCount t + errorCount t + skippedCount t = length [Samples.key1])%nat.
Proof.
  refine (every_key_is_counted Viem.privateKeyToAccount
            (Samples.batchOn (Ok Samples.emptyStore)) Samples.worldOff [Samples.key1]
            _ _ _ _ _).
  - right. exists Samples.emptyStore. reflexivity.
  - reflexivity.
  - vm_compute. reflexivity.
  - discriminate.
  - reflexivity.
Defined.

(** X12. Once a launched run has found points for a key on an answering
    store, the wallet is skipped from then on: the next turn on that key
    adds one to the skipped counter and does nothing else, whatever the
    browser would have done. *)
Theorem found_points_skip_next (lib : jsstring -> result jsstring)
    (env env' : run_env) (key : jsstring) (t t1 : tally) (w : world)
    (d : database) (pts : number) :
  db w = Some d -> failing d = false ->
  launched env -> pointsFound env pts ->
  exists t' w',
    processKey lib env key t w = (Ok t', w')
    /\ shouldSkipWallet (db w') (getAddressFromPrivateKey lib key) = Ok true
    /\ processKey lib env' key t1 w'
       = (Ok (Tally (successCount t1) (errorCount t1) (S (skippedCount t1))), w').
Proof.
  intros Hd Hf HL HP.
  destruct (shouldSkipWallet_connected (db w) (getAddressFromPrivateKey lib key))
    as [[|] Hs]; [rewrite Hd; eauto| |].
  - rewrite (processKey_skipped lib env key t w Hs).
    eexists _, w. split; [reflexivity|]. split; [exact Hs|].
    now apply processKey_skipped.
  - rewrite (processKey_run lib env key t w Hs).
    rewrite (processWallet_exit lib env key w HL), (pointsFound_exit env pts HP).
    eexists _, _. split; [reflexivity|].
    assert (Hk : shouldSkipWallet
                   (db (exitWorld env key w
                          (savedDb (db w) (getAddressFromPrivateKey lib key)
                             (Some pts) success None)
                          [EvSave (getAddressFromPrivateKey lib key) (Some pts)
                             success None]))
                   (getAddressFromPrivateKey lib key) = Ok true).
    { unfold exitWorld. cbn [db]. rewrite Hd.
      destruct (savedDb_row d (getAddressFromPrivateKey lib key) (Some pts) success
                  None Hf) as (d' & -> & Hf' & Hr).
      unfold shouldSkipWallet, getWalletByAddress. rewrite Hf', Hr. cbn.
      destruct HP as (ext & _ & _ & _ & _ & HC).
      apply checkPoints_positive in HC. now rewrite HC. }
    split; [exact Hk|]. now apply processKey_skipped.
Qed.

Lemma found_points_witness :
  let lib := Viem.privateKeyToAccount in
  let env := Samples.runOn (Samples.showing Samples.labelAndNumber) in
  exists t' w',
    processKey lib env Samples.key1 Samples.tally0 Samples.world0 = (Ok t', w')
    /\ shouldSkipWallet (db w') (getAddressFromPrivateKey lib Samples.key1) = Ok true
    /\ processKey lib Samples.runWithoutExtension Samples.key1 Samples.tally0 w'
       = (Ok (Tally (successCount Samples.tally0) (errorCount Samples.tally0)
                (S (skippedCount Samples.tally0))), w').
Proof.
  intros lib env.
  refine (found_points_skip_next lib env Samples.runWithoutExtension Samples.key1
            Samples.tally0 Samples.tally0 Samples.world0 Samples.emptyStore (Num 12345)
            _ _ _ _).
  - reflexivity.
  - reflexivity.
  - split; reflexivity.
  - eexists. repeat split; reflexivity.
Defined.

(** X13. The profile directory of a run whose directory was made: when
    the browser comes up the directory is gone at the end of the run (its
    removal not failing), on every exit; when the launch fails the run
    throws the launch error, makes no call to close or to clean up, and
    the directory stays behind. *)
Theorem profile_directory_fate (lib : jsstring -> result jsstring)
    (env : run_env) (key : jsstring) (w : world) :
  mkdirError env = None ->
  rmError env = false ->
  (launchError env = None ->
     tempPath env ∉ dirs (snd (processWallet lib env key w)))
  /\ (forall e, launchError env = Some e ->
        fst (processWallet lib env key w) = Throw e
        /\ tempPath env ∈ dirs (snd (processWallet lib env key w))
        /\ List.filter (fun ev => isClose ev || isCleanup ev)
             (eventsOf (processWallet lib env key) w) = []).
Proof.
  intros Hm Hr. split.
  - intros Hl. rewrite (processWallet_exit lib env key w (conj Hm Hl)).
    assert (G : forall c evs, tempPath env ∉ dirs (exitWorld env key w c evs)).
    { intros c evs. unfold exitWorld, dirsAfterCleanup. cbn [dirs].
      rewrite Hr, bool_decide_eq_true_2
        by (apply elem_of_union_l, elem_of_singleton; reflexivity).
      cbn [negb andb]. intros H. apply elem_of_difference in H.
      destruct H as [_ H]. apply H, elem_of_singleton. reflexivity. }
    destruct (exitOf env); cbn [snd]; apply G.
  - intros e Hl. rewrite (eventsOf_app (processWallet lib env key) w
      [EvProcess key; EvLaunch (tempPath env);
       EvSave (getAddressFromPrivateKey lib key) None error (Some (messageOf e))])
      by now rewrite (processWallet_launch_fails lib env key w e Hm Hl).
    rewrite (processWallet_launch_fails lib env key w e Hm Hl). cbn [fst snd dirs].
    split; [reflexivity|]. split; [|reflexivity].
    apply elem_of_union_l, elem_of_singleton. reflexivity.
Qed.

Lemma profile_directory_witness :
  let lib := Viem.privateKeyToAccount in
  let env := Cases.runLaunchFails in
  let e := ErrorObj (js "browserType.launchPersistentContext: Failed to launch") in
  fst (processWallet lib env Samples.key1 Samples.world0) = Throw e
  /\ tempPath env ∈ dirs (snd (processWallet lib env Samples.key1 Samples.world0))
  /\ List.filter (fun ev => isClose ev || isCleanup ev)
       (eventsOf (processWallet lib env Samples.key1) Samples.world0) = [].
Proof.
  intros lib env e.
  exact (proj2 (profile_directory_fate lib env Samples.key1 Samples.world0
                  eq_refl eq_refl) e eq_refl).
Defined.

(** ** The statistics screen *)

Section SortFacts.

Context {A : Type}.
Variable comparefn : A -> A -> Z.

Lemma insertBy_perm (x : A) (l : list A) : insertBy comparefn x l ≡ₚ x :: l.
Proof.
  induction l as [|y l IH]; cbn [insertBy]; [reflexivity|].
  destruct (comparefn x y <=? 0)%Z; [reflexivity|].
  rewrite IH. apply perm_swap.
Qed.

Lemma sortBy_perm (l : list A) : sortBy comparefn l ≡ₚ l.
Proof.
  induction l as [|x l IH]; [reflexivity|].
  cbn [sortBy fold_right]. fold (sortBy comparefn l).
  rewrite insertBy_perm. now constructor.
Qed.

(** The comparator is a total preorder. *)
Hypothesis total : forall a b, (0 < comparefn a b)%Z -> (comparefn b a <= 0)%Z.
Hypothesis trans :
  forall a b c, (comparefn a b <= 0)%Z -> (comparefn b c <= 0)%Z ->
                (comparefn a c <= 0)%Z.

Lemma insertBy_sorted (x : A) (l : list A) :
  StronglySorted (fun a b => (comparefn a b <= 0)%Z) l ->
  StronglySorted (fun a b => (comparefn a b <= 0)%Z) (insertBy comparefn x l).
Proof.
  induction 1 as [|y l Hs IH Hy]; cbn [insertBy].
  - repeat constructor.
  - destruct (comparefn x y <=? 0)%Z eqn:E.
    + apply Z.leb_le in E. constructor; [now constructor|].
      constructor; [exact E|].
      eapply List.Forall_impl; [|exact Hy]. intros b Hb. now apply (trans x y b).
    + apply Z.leb_gt in E. constructor; [exact IH|].
      rewrite (insertBy_perm x l). constructor; [now apply total|exact Hy].
Qed.

Lemma sortBy_sorted (l : list A) :
  StronglySorted (fun a b => (comparefn a b <= 0)%Z) (sortBy comparefn l).
Proof.
  induction l as [|x l IH]; [constructor|].
  cbn [sortBy fold_right]. now apply insertBy_sorted.
Qed.

(** Stability: the elements of one class of the comparator keep their
    order. *)
Variable P : A -> bool.
Hypothesis class :
  forall a b, P a = true -> P b = true -> comparefn a b = 0%Z.

Lemma insertBy_filter (x : A) (l : list A) :
  List.filter P (insertBy comparefn x l) = List.filter P (x :: l).
Proof.
  induction l as [|y l IH]; cbn [insertBy]; [reflexivity|].
  destruct (comparefn x y <=? 0)%Z eqn:E; [reflexivity|].
  apply Z.leb_gt in E. cbn [List.filter] in IH |- *. rewrite IH.
  destruct (P x) eqn:Px, (P y) eqn:Py; try reflexivity.
  rewrite (class x y Px Py) in E. lia.
Qed.

Lemma sortBy_filter (l : list A) :
  List.filter P (sortBy comparefn l) = List.filter P l.
Proof.
  induction l as [|x l IH]; [reflexivity|].
  cbn [sortBy fold_right]. fold (sortBy comparefn l).
  rewrite insertBy_filter. cbn [List.filter]. now rewrite IH.
Qed.

End SortFacts.

Lemma StronglySorted_weaken {A} (R R' : A -> A -> Prop) (l : list A) :
  (forall a b, R a b -> R' a b) -> StronglySorted R l -> StronglySorted R' l.
Proof.
  intros H. induction 1 as [|x l Hs IH Hx]; constructor; [exact IH|].
  eapply List.Forall_impl; [|exact Hx]. intros b. apply H.
Qed.

Lemma compareWallets_total order a b :
  (0 < compareWallets order a b)%Z -> (compareWallets order b a <= 0)%Z.
Proof.
  unfold compareWallets.
  destruct (order !! toLowerCase (address a)), (order !! toLowerCase (address b)); lia.
Qed.

Lemma compareWallets_trans order a b c :
  (compareWallets order a b <= 0)%Z -> (compareWallets order b c <= 0)%Z ->
  (compareWallets order a c <= 0)%Z.
Proof.
  unfold compareWallets.
  destruct (order !! toLowerCase (address a)), (order !! toLowerCase (address b)),
    (order !! toLowerCase (address c)); lia.
Qed.

Lemma compareWallets_class order r a b :
  bool_decide (order !! toLowerCase (address a) = r) = true ->
  bool_decide (order !! toLowerCase (address b) = r) = true ->
  compareWallets order a b = 0%Z.
Proof.
  intros Ha Hb. apply bool_decide_eq_true in Ha, Hb. unfold compareWallets.
  rewrite Ha, Hb. destruct r; lia.
Qed.

(** X14. The rows of the statistics table, once keys are loaded: the same
    rows, those whose lower-cased address belongs to a key first and by the
    index of the key, the others after them; rows of one index, and the
    rows without a key, keep the order they had. Without keys, or when
    loading them throws, the rows stay as they are. *)
Theorem table_follows_key_order (lib : jsstring -> result jsstring)
    (src : key_source) (wallets : list WalletRecord) :
  orderedWallets lib src wallets ≡ₚ wallets
  /\ (forall k ks, loadPrivateKeys src = Ok (k :: ks) ->
      let order := addressOrder lib (k :: ks) in
      let rank := fun w : WalletRecord => order !! toLowerCase (address w) in
      StronglySorted
        (fun a b => match rank a, rank b with
                    | Some i, Some j => (i <= j)%nat
                    | Some _, None => True
                    | None, Some _ => False
                    | None, None => True
                    end)
        (orderedWallets lib src wallets)
      /\ (forall r, List.filter (fun w => bool_decide (rank w = r))
                      (orderedWallets lib src wallets)
                    = List.filter (fun w => bool_decide (rank w = r)) wallets))
  /\ (loadPrivateKeys src = Ok [] -> orderedWallets lib src wallets = wallets)
  /\ (forall e, loadPrivateKeys src = Throw e ->
        orderedWallets lib src wallets = wallets).
Proof.
  unfold orderedWallets. split; [|split; [|split]].
  - destruct (loadPrivateKeys src) as [[|k ks]|e]; try reflexivity.
    apply sortBy_perm.
  - intros k ks ->. cbv zeta. split.
    + eapply StronglySorted_weaken;
        [|apply (sortBy_sorted _ (compareWallets_total _) (compareWallets_trans _))].
      intros a b. unfold compareWallets.
      destruct (_ !! toLowerCase (address a)), (_ !! toLowerCase (address b)); lia.
    + intros r. apply sortBy_filter. apply compareWallets_class.
  - now intros ->.
  - now intros e ->.
Qed.

Lemma addressOrder_snoc lib keys k :
  addressOrder lib (keys ++ [k])
  = <[toLowerCase (getAddressFromPrivateKey lib k) := length keys]>
      (addressOrder lib keys).
Proof.
  unfold addressOrder. rewrite imap_app, fold_left_app. cbn.
  now rewrite Nat.add_0_r.
Qed.

(** X15. The index that the statistics screen gives an address is the
    index of the last key of the list with that address, compared in lower
    case; an address that belongs to no key has none. *)
Theorem addressOrder_last_key (lib : jsstring -> result jsstring)
    (privateKeys : list jsstring) (a : jsstring) :
  (forall i, addressOrder lib privateKeys !! a = Some i <->
     (exists k, privateKeys !! i = Some k
                /\ toLowerCase (getAddressFromPrivateKey lib k) = a)
     /\ (forall j k', (i < j)%nat -> privateKeys !! j = Some k' ->
                      toLowerCase (getAddressFromPrivateKey lib k') <> a))
  /\ (addressOrder lib privateKeys !! a = None <->
      forall k, In k privateKeys ->
                toLowerCase (getAddressFromPrivateKey lib k) <> a).
Proof.
  induction privateKeys as [|k keys [IH1 IH2]] using rev_ind.
  - split.
    + intros i. unfold addressOrder. cbn. rewrite lookup_empty. split; [discriminate|].
      intros [(k & Hk & _) _]. now rewrite lookup_nil in Hk.
    + split; [intros _ k []|reflexivity].
  - rewrite addressOrder_snoc.
    destruct (decide (toLowerCase (getAddressFromPrivateKey lib k) = a)) as [E|E].
    + rewrite E, lookup_insert_eq. split.
      * intros i. split.
        -- intros [= <-]. split.
           ++ exists k. split; [|exact E]. apply list_lookup_middle. reflexivity.
           ++ intros j k' Hj Hk'. apply lookup_lt_Some in Hk'.
              rewrite length_app in Hk'. cbn in Hk'. lia.
        -- intros [(k0 & Hk0 & _) Hlast]. f_equal.
           pose proof (lookup_lt_Some _ _ _ Hk0) as Hlt.
           rewrite length_app in Hlt. cbn in Hlt.
           destruct (decide (i = length keys)) as [->|Hne]; [reflexivity|].
           exfalso. apply (Hlast (length keys) k); [lia| |exact E].
           apply list_lookup_middle. reflexivity.
      * split; [discriminate|]. intros H. exfalso. apply (H k); [|exact E].
        apply in_or_app. right. now left.
    + rewrite lookup_insert_ne by exact E. split.
      * intros i. rewrite IH1. split.
        -- intros [(k0 & Hk0 & Ek0) Hlast]. split.
           ++ exists k0. split; [|exact Ek0]. now apply lookup_app_l_Some.
           ++ intros j k' Hj Hk'. apply lookup_app_Some in Hk'.
              destruct Hk' as [Hk'|[_ Hk']]; [now apply (Hlast j)|].
              apply list_lookup_singleton_Some in Hk'. destruct Hk' as [_ <-]. exact E.
        -- intros [(k0 & Hk0 & Ek0) Hlast]. split.
           ++ exists k0. split; [|exact Ek0].
              apply lookup_app_Some in Hk0. destruct Hk0 as [Hk0|[_ Hk0]]; [exact Hk0|].
              apply list_lookup_singleton_Some in Hk0. destruct Hk0 as [_ <-].
              contradiction.
           ++ intros j k' Hj Hk'. apply (Hlast j); [exact Hj|].
              now apply lookup_app_l_Some.
      * rewrite IH2. split.
        -- intros H k0 Hk0. apply in_app_or in Hk0.
           destruct Hk0 as [Hk0|[<-|[]]]; [now apply H|exact E].
        -- intros H k0 Hk0. apply H, in_or_app. now left.
Qed.

Lemma substring_prefix (s : jsstring) (n : nat) :
  substring s 0 (Z.of_nat n) = firstn n s.
Proof.
  unfold substring, clamp, jslength.
  replace (Z.to_nat (Z.min (Z.max 0 0) (Z.of_nat (length s)))) with 0%nat by lia.
  replace (Z.to_nat (Z.min (Z.max (Z.of_nat n) 0) (Z.of_nat (length s))))
    with (Nat.min n (length s)) by lia.
  rewrite Nat.min_0_l, Nat.max_0_l, Nat.sub_0_r, drop_0.
  destruct (Nat.le_ge_cases n (length s)) as [H|H].
  - now rewrite Nat.min_l.
  - rewrite Nat.min_r by exact H. rewrite firstn_all. symmetry. apply firstn_all2. lia.
Qed.

Lemma padEnd_length (s : jsstring) (n : nat) :
  (length s <= n)%nat -> length (padEnd s (Z.of_nat n)) = n.
Proof.
  intros H. unfold padEnd. rewrite length_app, repeat_length. lia.
Qed.

(** X16. The status column of the statistics table is always 18 code
    units wide. An error message is shown whole after the word for error
    when it has at most 10 units; a longer one is cut to its first 7 units
    and three dots, so the 15 units taken from it first never show. *)
Theorem status_cell_fits (wallet : WalletRecord) :
  length (statusCell wallet) = 18%nat
  /\ (forall m, wstatus wallet = error -> error_message wallet = Some m ->
      m <> [] ->
      statusCell wallet
      = if (length m <=? 10)%nat
        then padEnd (js "Ошибка: " ++ m) 18
        else js "Ошибка: " ++ firstn 7 m ++ js "...").
Proof.
  assert (E : forall m, m <> [] ->
            padEnd (if (col3Width - 2 <? jslength (js "Ошибка: " ++ substring m 0 15))%Z
                    then substring (js "Ошибка: " ++ substring m 0 15) 0
                           (col3Width - 5) ++ js "..."
                    else js "Ошибка: " ++ substring m 0 15) (col3Width - 2)
            = if (length m <=? 10)%nat
              then padEnd (js "Ошибка: " ++ m) 18
              else js "Ошибка: " ++ firstn 7 m ++ js "...").
  { intros m _. change 15%Z with (Z.of_nat 15).
    rewrite substring_prefix. unfold jslength, col3Width.
    change (js "Ошибка: ") with [1054; 1096; 1080; 1073; 1082; 1072; 58; 32].
    rewrite length_app, length_firstn. cbn [length].
    destruct (Nat.leb_spec (length m) 10) as [H|H].
    - destruct (Z.ltb_spec (20 - 2) (Z.of_nat (8 + Nat.min 15 (length m)))) as [K|K];
        [lia|]. now rewrite firstn_all2 by lia.
    - destruct (Z.ltb_spec (20 - 2) (Z.of_nat (8 + Nat.min 15 (length m)))) as [K|K];
        [|lia].
      change (20 - 5)%Z with (Z.of_nat 15). rewrite substring_prefix.
      cbn [firstn app]. rewrite firstn_firstn.
      change (Nat.min 7 15) with 7%nat.
      unfold padEnd. change (js "...") with [46; 46; 46].
      cbn [app length]. rewrite !length_app, length_firstn. cbn [length].
      replace (Z.to_nat (20 - 2) - _)%nat with 0%nat by lia.
      cbn [repeat]. now rewrite app_nil_r. }
  split.
  - unfold statusCell, statusText.
    destruct (wstatus wallet); try (vm_compute; reflexivity).
    destruct (error_message wallet) as [[|c m]|]; try (vm_compute; reflexivity).
    cbv zeta. cbn [truthy].
    etransitivity; [apply (f_equal (@length N)), (E (c :: m)); discriminate|].
    destruct (Nat.leb_spec (length (c :: m)) 10) as [H|H].
    + change 18%Z with (Z.of_nat 18). apply padEnd_length.
      rewrite length_app. change (length (js "Ошибка: ")) with 8%nat. lia.
    + rewrite !length_app, length_firstn.
      change (length (js "Ошибка: ")) with 8%nat. change (length (js "...")) with 3%nat.
      lia.
  - intros m Hs Hm Hn. unfold statusCell, statusText. rewrite Hs, Hm.
    destruct m as [|c m]; [contradiction|]. cbv zeta. cbn [truthy]. now apply E.
Qed.

(** ** The proxy list *)

Lemma afterCalls_state (k : nat) (m : Proxy.ProxyManager) :
  (Proxy.currentIndex m < length (Proxy.proxies m))%nat ->
  Proxy.proxies (Proxy.afterCalls k m) = Proxy.proxies m
  /\ Proxy.currentIndex (Proxy.afterCalls k m)
     = ((Proxy.currentIndex m + k) mod length (Proxy.proxies m))%nat.
Proof.
  revert m. induction k as [|k IH]; intros m H; cbn [Proxy.afterCalls].
  - split; [reflexivity|]. rewrite Nat.add_0_r. symmetry. now apply Nat.mod_small.
  - unfold Proxy.getNextProxy.
    destruct (Proxy.proxies m) as [|p ps] eqn:E; [cbn in H; lia|].
    cbn [snd].
    destruct (IH {| Proxy.proxies := p :: ps;
                    Proxy.currentIndex :=
                      ((Proxy.currentIndex m + 1) mod length (p :: ps))%nat |})
      as [I1 I2].
    { cbn [Proxy.proxies Proxy.currentIndex]. apply Nat.mod_upper_bound.
      discriminate. }
    cbn [Proxy.proxies Proxy.currentIndex] in I1, I2.
    split; [exact I1|]. rewrite I2.
    rewrite Nat.Div0.add_mod_idemp_l. f_equal. lia.
Qed.

(** X17. [getNextProxy] hands out the loaded proxies in turn: on a fresh
    manager with [n] proxies, call number [k] (from 0) returns the proxy at
    index [k mod n], so [n] calls in a row return every proxy once, in the
    order of the file, and then the cycle starts again; with no proxy
    loaded every call returns [null]. *)
Theorem proxies_in_turn (file : option (result jsstring)) (k : nat) :
  let m := Proxy.newProxyManager file in
  let n := length (Proxy.proxies m) in
  fst (Proxy.getNextProxy (Proxy.afterCalls k m))
  = (if (n =? 0)%nat then None else Proxy.proxies m !! (k mod n)%nat)
  /\ ((0 < n)%nat ->
      is_Some (fst (Proxy.getNextProxy (Proxy.afterCalls k m)))
      /\ Proxy.afterCalls (k + n) m = Proxy.afterCalls k m).
Proof.
  intros m n. subst n.
  destruct (Proxy.proxies m) as [|p ps] eqn:E.
  - assert (H : forall j, Proxy.afterCalls j m = m).
    { induction j as [|j IH]; [reflexivity|]. cbn [Proxy.afterCalls].
      unfold Proxy.getNextProxy. rewrite E. exact IH. }
    rewrite H. unfold Proxy.getNextProxy. rewrite E. split; [reflexivity|].
    cbn. lia.
  - assert (H0 : (Proxy.currentIndex m < length (Proxy.proxies m))%nat)
      by (rewrite E; cbn; lia).
    destruct (afterCalls_state k m H0) as [S1 S2].
    assert (G : fst (Proxy.getNextProxy (Proxy.afterCalls k m))
                = (p :: ps) !! (k mod length (p :: ps))%nat).
    { unfold Proxy.getNextProxy. rewrite S1, S2, E. reflexivity. }
    split; [exact G|]. intros _. split.
    + rewrite G. apply lookup_lt_is_Some_2. apply Nat.mod_upper_bound. discriminate.
    + destruct (afterCalls_state (k + length (p :: ps)) m H0) as [T1 T2].
      rewrite E in T2, S2. cbn [Proxy.currentIndex Proxy.newProxyManager m] in T2, S2.
      destruct (Proxy.afterCalls (k + length (p :: ps)) m) as [a b],
        (Proxy.afterCalls k m) as [a' b'].
      cbn [Proxy.proxies Proxy.currentIndex] in *. subst a a' b b'. f_equal.
      rewrite Nat.add_assoc.
      rewrite <- (Nat.Div0.add_mod_idemp_r _ (length (p :: ps))), Nat.Div0.mod_same.
      now rewrite Nat.add_0_r.
Qed.

(** *** [trim] and [split] *)

Lemma trimStart_idem s : trimStart (trimStart s) = trimStart s.
Proof.
  induction s as [|c s IH]; [reflexivity|]. cbn [trimStart].
  destruct (isWhiteSpace c) eqn:E; [exact IH|]. cbn [trimStart]. now rewrite E.
Qed.

Lemma trimStart_app c h r :
  isWhiteSpace c = false -> trimStart (h ++ c :: r) = trimStart h ++ c :: r.
Proof.
  intros Hc. induction h as [|a h IH]; cbn [app trimStart]; [now rewrite Hc|].
  destruct (isWhiteSpace a); [exact IH|reflexivity].
Qed.

Lemma trimStart_snoc r c :
  trimStart (r ++ [c])
  = match trimStart r with
    | [] => if isWhiteSpace c then [] else [c]
    | t => t ++ [c]
    end.
Proof.
  induction r as [|a r IH]; cbn [app trimStart]; [now destruct (isWhiteSpace c)|].
  destruct (isWhiteSpace a); [exact IH|reflexivity].
Qed.

Lemma trimEnd_cons c s :
  trimEnd (c :: s)
  = match trimEnd s with
    | [] => if isWhiteSpace c then [] else [c]
    | t => c :: t
    end.
Proof.
  unfold trimEnd. cbn [rev]. rewrite trimStart_snoc.
  destruct (trimStart (rev s)) as [|x t]; [now destruct (isWhiteSpace c)|].
  rewrite rev_app_distr. cbn [rev app].
  destruct (rev t ++ [x]) eqn:E; [|reflexivity].
  now destruct (rev t).
Qed.

Lemma trimEnd_app c r pw :
  isWhiteSpace c = false -> trimEnd (r ++ c :: pw) = r ++ c :: trimEnd pw.
Proof.
  intros Hc. unfold trimEnd. rewrite rev_app_distr. cbn [rev].
  rewrite <- app_assoc. cbn [app]. rewrite (trimStart_app c _ _ Hc).
  rewrite rev_app_distr. cbn [rev]. rewrite rev_involutive, <- app_assoc. reflexivity.
Qed.

Lemma trimEnd_idem s : trimEnd (trimEnd s) = trimEnd s.
Proof.
  unfold trimEnd. now rewrite rev_involutive, trimStart_idem.
Qed.

Lemma trim_commute s : trimStart (trimEnd s) = trimEnd (trimStart s).
Proof.
  induction s as [|c s IH]; [reflexivity|].
  rewrite trimEnd_cons. cbn [trimStart].
  destruct (isWhiteSpace c) eqn:E.
  - rewrite <- IH. destruct (trimEnd s) as [|x t]; [reflexivity|].
    cbn [trimStart]. now rewrite E.
  - rewrite trimEnd_cons.
    destruct (trimEnd s) as [|x t]; cbn [trimStart]; now rewrite E.
Qed.

Lemma trim_trimStart s : trim (trimStart s) = trim s.
Proof. unfold trim. now rewrite trimStart_idem. Qed.

Lemma trim_trimEnd s : trim (trimEnd s) = trim s.
Proof. unfold trim. now rewrite trim_commute, trimEnd_idem. Qed.

Lemma trimStart_in c s : In c (trimStart s) -> In c s.
Proof.
  induction s as [|a s IH]; [trivial|]. cbn [trimStart].
  destruct (isWhiteSpace a); [|trivial]. intros H. right. now apply IH.
Qed.

Lemma trimEnd_in c s : In c (trimEnd s) -> In c s.
Proof.
  unfold trimEnd. intros H. apply in_rev in H. apply trimStart_in in H.
  now apply in_rev.
Qed.

Lemma split_aux_field sep cur f r :
  ~ In sep f ->
  Proxy.split_aux sep cur (f ++ sep :: r) = (rev cur ++ f) :: Proxy.split_aux sep [] r.
Proof.
  revert cur. induction f as [|a f IH]; intros cur H; cbn [app Proxy.split_aux].
  - rewrite N.eqb_refl. now rewrite app_nil_r.
  - destruct (N.eqb_spec a sep) as [->|_]; [exfalso; apply H; now left|].
    rewrite IH by (intros K; apply H; now right).
    cbn [rev]. now rewrite <- app_assoc.
Qed.

Lemma split_aux_last sep cur f :
  ~ In sep f -> Proxy.split_aux sep cur f = [rev cur ++ f].
Proof.
  revert cur. induction f as [|a f IH]; intros cur H; cbn [Proxy.split_aux].
  - now rewrite app_nil_r.
  - destruct (N.eqb_spec a sep) as [->|_]; [exfalso; apply H; now left|].
    rewrite IH by (intros K; apply H; now right).
    cbn [rev]. now rewrite <- app_assoc.
Qed.

Lemma split_lines_single s : ~ In 10 s -> split_lines s = [s].
Proof.
  unfold split_lines. intros H.
  assert (G : forall cur, split_lines_aux cur s = [rev cur ++ s]).
  { induction s as [|a s IH]; intros cur; cbn [split_lines_aux].
    - now rewrite app_nil_r.
    - destruct (N.eqb_spec a 10) as [->|_]; [exfalso; apply H; now left|].
      rewrite IH by (intros K; apply H; now right).
      cbn [rev]. now rewrite <- app_assoc. }
  apply G.
Qed.

(** X18. A line of [proxy.txt] made of four fields without a colon, put
    together with colons, loads one proxy: its host, user name and password
    are the fields trimmed, its port is what [parseInt] reads of the second
    field. A file of that one line loads this proxy, unless the line
    starts with [#]. *)
Theorem proxy_line_is_read (h p u pw : jsstring) :
  ~ In 58 h -> ~ In 58 p -> ~ In 58 u -> ~ In 58 pw ->
  let line := h ++ [58] ++ p ++ [58] ++ u ++ [58] ++ pw in
  let proxy := {| Proxy.host := trim h; Proxy.port := parseInt (trim p);
                  Proxy.username := trim u; Proxy.password := trim pw |} in
  Proxy.proxiesOfLine line = [proxy]
  /\ (~ In 10 line ->
      Proxy.loadProxies (Some (Ok line))
      = if startsWith line (js "#") then [] else [proxy]).
Proof.
  intros Hh Hp Hu Hw line proxy.
  assert (Ht : trim line
               = trimStart h ++ 58 :: p ++ 58 :: u ++ 58 :: trimEnd pw).
  { subst line. unfold trim. cbn [app].
    rewrite (trimStart_app 58) by reflexivity.
    replace (trimStart h ++ 58 :: p ++ 58 :: u ++ 58 :: pw)
      with ((trimStart h ++ 58 :: p ++ 58 :: u) ++ 58 :: pw)
      by (rewrite <- !app_assoc; cbn [app]; now rewrite <- !app_assoc).
    rewrite (trimEnd_app 58) by reflexivity.
    rewrite <- !app_assoc. cbn [app]. now rewrite <- !app_assoc. }
  assert (E : Proxy.proxiesOfLine line = [proxy]).
  { unfold Proxy.proxiesOfLine, Proxy.split. rewrite Ht.
    rewrite split_aux_field by (intros K; now apply Hh, trimStart_in).
    rewrite split_aux_field by exact Hp.
    rewrite split_aux_field by exact Hu.
    rewrite split_aux_last by (intros K; now apply Hw, trimEnd_in).
    cbn [rev app]. now rewrite trim_trimStart, trim_trimEnd. }
  split; [exact E|]. intros Hn.
  unfold Proxy.loadProxies. rewrite (split_lines_single line Hn).
  cbn [List.filter]. unfold Proxy.keptLine. rewrite Ht.
  replace (truthy (trimStart h ++ 58 :: p ++ 58 :: u ++ 58 :: trimEnd pw)) with true
    by (now destruct (trimStart h)).
  cbn [andb]. destruct (startsWith line (js "#")); cbn [negb flat_map]; [reflexivity|].
  now rewrite E.
Qed.

Lemma proxy_line_witness :
  Proxy.proxiesOfLine (js " 10.0.0.1:8080 :user: secret ")
  = [ {| Proxy.host := js "10.0.0.1"; Proxy.port := Some (Num 8080);
         Proxy.username := js "user"; Proxy.password := js "secret" |} ].
Proof.
  refine (proj1 (proxy_line_is_read (js " 10.0.0.1") (js "8080 ") (js "user")
                   (js " secret ") _ _ _ _));
    vm_compute; intuition discriminate.
Defined.

(** ** The fast path of the extraction, further *)

Lemma fastPattern_prefix tl c :
  run fastPattern (MState 0 (js "My Points" ++ tl) None) c
  = run (Cat (star_g nondigit) number_group) (MState 9 tl None) c.
Proof. reflexivity. Qed.

(** A greedy [p*] over a run of units of the class, followed by a unit
    outside it: when the rest of the pattern matches after the whole run,
    that is the match. *)
Lemma star_class_greedy p l ch tl c z :
  Forall (fun a => p a = true) l -> p ch = false ->
  forall n i cp,
    (length l < n)%nat ->
    c (MState (i + length l) (ch :: tl) cp) = Some z ->
    star n (run (Cls p)) None true (MState i (l ++ ch :: tl) cp) c = Some z.
Proof.
  intros Hl Hch. induction Hl as [|a l Ha Hl IH]; intros n i cp Hn Hc.
  - destruct n as [|n]; [lia|]. cbn [star max_is_zero app].
    rewrite run_cls. cbn [rest]. rewrite Hch.
    cbn [length] in Hc. now rewrite Nat.add_0_r in Hc.
  - destruct n as [|n]; [cbn in Hn; lia|]. cbn [star max_is_zero app].
    rewrite run_cls. cbn [rest pos cap]. rewrite Ha.
    replace (length (l ++ ch :: tl) <? length (a :: l ++ ch :: tl))%nat with true
      by (symmetry; apply Nat.ltb_lt; cbn; lia).
    cbn [max_pred]. rewrite (IH n (S i) cp).
    + reflexivity.
    + cbn in Hn. lia.
    + cbn [length] in Hc. now rewrite Nat.add_succ_r in Hc.
Qed.

Lemma digit_is_plain d :
  isDigit d = true ->
  isWhiteSpace d = false /\ (d =? 160) = false /\ (d =? 44) = false
  /\ (d =? 45) = false /\ (d =? 43) = false.
Proof.
  unfold isDigit. intros H. apply andb_true_iff in H. destruct H as [H1 H2].
  apply N.leb_le in H1, H2.
  assert (E : d = 48 \/ d = 49 \/ d = 50 \/ d = 51 \/ d = 52 \/ d = 53 \/ d = 54
              \/ d = 55 \/ d = 56 \/ d = 57) by lia.
  repeat destruct E as [->|E]; try subst d; repeat split; reflexivity.
Qed.

(** The number group on four digits in a row takes the first three. *)
Lemma number_group_three d1 d2 d3 d4 tl i cp c :
  isDigit d1 = true -> isDigit d2 = true -> isDigit d3 = true -> isDigit d4 = true ->
  forall z, c (MState (S (S (S i))) (d4 :: tl) (Some (i, S (S (S i))))) = Some z ->
  run number_group (MState i (d1 :: d2 :: d3 :: d4 :: tl) cp) c = Some z.
Proof.
  intros H1 H2 H3 H4 z Hc.
  destruct (digit_is_plain d4 H4) as (W & A & B & _).
  unfold number_group, times, star_g, digit, separator.
  cbn [run rep max_is_zero max_pred rest pos cap length star].
  rewrite H1. cbn [rest pos cap length star max_is_zero max_pred].
  rewrite H2. cbn [rest pos cap length].
  replace (S (S (length tl)) <? S (S (S (length tl))))%nat with true
    by (symmetry; apply Nat.ltb_lt; lia).
  cbn [star max_is_zero max_pred rest pos cap length].
  rewrite H3. cbn [rest pos cap length].
  replace (S (length tl) <? S (S (length tl)))%nat with true
    by (symmetry; apply Nat.ltb_lt; lia).
  rewrite star_max_zero. cbn [rest pos cap length star max_is_zero].
  rewrite B, W, A. cbn [orb]. cbn [pos rest cap]. rewrite Hc. reflexivity.
Qed.

Lemma substring_window (s : jsstring) (a : nat) :
  (a <= length s)%nat ->
  substring s (Z.of_nat a) (Z.of_nat a + 30) = firstn 30 (skipn a s).
Proof.
  intros H. unfold substring, clamp, jslength.
  replace (Z.to_nat (Z.min (Z.max (Z.of_nat a) 0) (Z.of_nat (length s)))) with a by lia.
  replace (Z.to_nat (Z.min (Z.max (Z.of_nat a + 30) 0) (Z.of_nat (length s))))
    with (Nat.min (a + 30) (length s)) by lia.
  destruct (Nat.le_ge_cases (a + 30) (length s)) as [K|K].
  - rewrite (Nat.min_l (a + 30)) by exact K.
    rewrite Nat.min_l, Nat.max_r by lia. f_equal. lia.
  - rewrite (Nat.min_r (a + 30)) by exact K.
    rewrite Nat.min_l, Nat.max_r by lia.
    rewrite !firstn_all2; [reflexivity| |]; rewrite length_skipn; lia.
Qed.

(** The match of the fast pattern on a text that starts with the label
    and has four digits in a row after it. *)
Lemma fastPattern_four_digits between d1 d2 d3 d4 tl :
  Forall (fun a => isDigit a = false) between ->
  isDigit d1 = true -> isDigit d2 = true -> isDigit d3 = true -> isDigit d4 = true ->
  let text := js "My Points" ++ between ++ d1 :: d2 :: d3 :: d4 :: tl in
  exec fastPattern text
  = Some (JSMatch 0 (js "My Points" ++ between ++ [d1; d2; d3]) (Some [d1; d2; d3])).
Proof.
  intros Hb H1 H2 H3 H4 text.
  assert (R : run fastPattern (MState 0 text None) Some
              = Some (MState (S (S (S (9 + length between)))) (d4 :: tl)
                        (Some (9 + length between, S (S (S (9 + length between))))))%nat).
  { subst text. rewrite fastPattern_prefix, run_cat.
    unfold star_g, nondigit. rewrite run_rep. cbn [rep rest].
    apply star_class_greedy.
    - eapply List.Forall_impl; [|exact Hb]. intros a Ha. now rewrite Ha.
    - now rewrite H1.
    - rewrite length_app. cbn. lia.
    - now apply number_group_three. }
  unfold exec. destruct text as [|t0 text'] eqn:Et; [discriminate|].
  cbn [exec_from]. rewrite R. cbn [pos cap]. rewrite <- Et. f_equal.
  assert (L : length (js "My Points" ++ between) = (9 + length between)%nat)
    by (rewrite length_app; reflexivity).
  unfold slice. f_equal.
  - rewrite Nat.sub_0_r, drop_0. subst text.
    replace (js "My Points" ++ between ++ d1 :: d2 :: d3 :: d4 :: tl)
      with ((js "My Points" ++ between ++ [d1; d2; d3]) ++ d4 :: tl)
      by (rewrite <- !app_assoc; reflexivity).
    rewrite <- (firstn_all (js "My Points" ++ between ++ [d1; d2; d3])) at 2.
    rewrite firstn_app.
    replace (length (js "My Points" ++ between ++ [d1; d2; d3]))
      with (S (S (S (9 + length between))))
      by (rewrite app_assoc, length_app, L; cbn [length]; lia).
    rewrite Nat.sub_diag. cbn [firstn]. now rewrite app_nil_r.
  - f_equal. subst text. rewrite app_assoc, <- L, drop_app_length.
    replace (S (S (S (length (js "My Points" ++ between)))) - length (js "My Points" ++ between))%nat
      with 3%nat by lia.
    reflexivity.
Qed.

(** Below 2^53 the double of an integer is the integer. *)
Lemma toDouble_small (v : Z) : (Z.abs v < 2 ^ 53)%Z -> toDouble v = Num v.
Proof.
  intros H. unfold toDouble. apply Z.ltb_lt in H. now rewrite H.
Qed.

Lemma three_digits_small d1 d2 d3 :
  isDigit d1 = true -> isDigit d2 = true -> isDigit d3 = true ->
  (0 <= 100 * Z.of_N (d1 - 48) + 10 * Z.of_N (d2 - 48) + Z.of_N (d3 - 48) < 1000)%Z.
Proof.
  unfold isDigit. intros H1 H2 H3.
  apply andb_true_iff in H1, H2, H3.
  destruct H1 as [_ H1], H2 as [_ H2], H3 as [_ H3].
  apply N.leb_le in H1, H2, H3. lia.
Qed.

Lemma parseClean_three d1 d2 d3 :
  isDigit d1 = true -> isDigit d2 = true -> isDigit d3 = true ->
  let n := (100 * Z.of_N (d1 - 48) + 10 * Z.of_N (d2 - 48) + Z.of_N (d3 - 48))%Z in
  parseClean [d1; d2; d3] = if (0 <? n)%Z then Some ([d1; d2; d3], Num n) else None.
Proof.
  intros H1 H2 H3 n.
  pose proof (three_digits_small d1 d2 d3 H1 H2 H3) as Hsmall. fold n in Hsmall.
  destruct (digit_is_plain d1 H1) as (W1 & A1 & B1 & M1 & P1).
  destruct (digit_is_plain d2 H2) as (W2 & A2 & B2 & _).
  destruct (digit_is_plain d3 H3) as (W3 & A3 & B3 & _).
  unfold parseClean, stripSeparators. cbn [List.filter].
  rewrite W1, A1, B1, W2, A2, B2, W3, A3, B3. cbn [orb negb].
  unfold parseInt. cbn [trimStart]. rewrite W1, M1, P1.
  cbn [digits_prefix]. rewrite H1, H2, H3.
  unfold digits_value. cbn [fold_left].
  replace (((0 * 10 + Z.of_N (d1 - 48)) * 10 + Z.of_N (d2 - 48)) * 10
           + Z.of_N (d3 - 48))%Z with n by (subst n; lia).
  rewrite toDouble_small; [reflexivity|].
  rewrite Z.abs_eq by lia. change (2 ^ 53)%Z with 9007199254740992%Z. lia.
Qed.

(** X19. When the text starts with the label and the first digits after
    it are four or more in a row, the fast path reads the first three of
    them only: the pattern tries one to three digits with groups of three
    after a separator before it tries a plain run of digits, and the first
    always matches. A balance shown as 1500 is read as 150; the value is
    below 1000 whatever the digits, and it is what [extractPoints]
    returns for a page with that text. *)
Theorem fast_path_reads_three_digits (between tl : jsstring) (d1 d2 d3 d4 : N) :
  Forall (fun a => isDigit a = false) between ->
  isDigit d1 = true -> isDigit d2 = true -> isDigit d3 = true -> isDigit d4 = true ->
  notToRank (firstn 30 (d4 :: tl)) = true ->
  let text := js "My Points" ++ between ++ d1 :: d2 :: d3 :: d4 :: tl in
  let n := (100 * Z.of_N (d1 - 48) + 10 * Z.of_N (d2 - 48) + Z.of_N (d3 - 48))%Z in
  fastPath text = (if (0 <? n)%Z then Some (Num n) else None)
  /\ (n < 1000)%Z
  /\ (forall d b, body d = Some b -> innerText b = text -> (0 < n)%Z ->
        extractPoints d = Some (Num n)).
Proof.
  intros Hb H1 H2 H3 H4 Hr text n.
  assert (F : fastPath text = (if (0 <? n)%Z then Some (Num n) else None)).
  { unfold fastPath. subst text.
    rewrite (fastPattern_four_digits between d1 d2 d3 d4 tl Hb H1 H2 H3 H4).
    cbn [group1 m_1 truthy m_index m_0].
    assert (L : length (js "My Points" ++ between ++ [d1; d2; d3])
                = (12 + length between)%nat).
    { rewrite app_assoc, length_app, length_app. cbn [length].
      change (length (js "My Points")) with 9%nat. lia. }
    unfold jslength. rewrite L.
    change (Z.of_nat 0 + Z.of_nat (12 + length between))%Z
      with (Z.of_nat (12 + length between)).
    rewrite substring_window.
    - replace (js "My Points" ++ between ++ d1 :: d2 :: d3 :: d4 :: tl)
        with ((js "My Points" ++ between ++ [d1; d2; d3]) ++ d4 :: tl)
        by (rewrite <- !app_assoc; reflexivity).
      rewrite <- L, drop_app_length, Hr.
      pose proof (parseClean_three d1 d2 d3 H1 H2 H3) as P. cbv zeta in P.
      rewrite P. fold n. now destruct (0 <? n)%Z.
    - rewrite app_assoc, length_app, length_app. cbn [length].
      change (length (js "My Points")) with 9%nat. lia. }
  split; [exact F|]. split.
  - unfold isDigit in H1, H2, H3.
    apply andb_true_iff in H1, H2, H3.
    destruct H1 as [_ H1], H2 as [_ H2], H3 as [_ H3].
    apply N.leb_le in H1, H2, H3. subst n. lia.
  - intros d b Hd Hi Hn. unfold extractPoints. rewrite Hd, Hi.
    assert (I : includes text (js "My Points") = true).
    { subst text. apply includes_app. }
    rewrite I. cbn [negb andb]. rewrite andb_false_r.
    assert (O : or_else text (textContent b) = text) by (subst text; reflexivity).
    rewrite O, F. apply Z.ltb_lt in Hn. now rewrite Hn.
Qed.

Lemma fast_path_witness :
  fastPath (js "My Points 1500") = Some (Num 150)
  /\ forall d b, body d = Some b -> innerText b = js "My Points 1500" ->
                 extractPoints d = Some (Num 150).
Proof.
  pose proof (fast_path_reads_three_digits (js " ") [] 49 53 48 48
                ltac:(repeat constructor) eq_refl eq_refl eq_refl eq_refl eq_refl)
    as (F & _ & E).
  split; [exact F|]. intros d b Hd Hi. now apply (E d b Hd Hi).
Defined.

(** ** The statistics of what the batch writes *)

Lemma savedDb_pipeline c a pts st msg :
  pipelineStore c ->
  pipelineRow {| address := a; points := pts; wstatus := st;
                 error_message := orNull msg |} = true ->
  pipelineStore (savedDb c a pts st msg).
Proof.
  intros Hc Hr. unfold savedDb, saveWalletData.
  destruct c as [d|]; [|exact I].
  destruct (failing d); [exact Hc|].
  cbn [pipelineStore rows]. now apply map_Forall_insert_2.
Qed.

Lemma savedDb_success_pipeline c a pts :
  pipelineStore c -> gt0 pts = true ->
  pipelineStore (savedDb c a (Some pts) success None).
Proof.
  intros Hc Hp. apply savedDb_pipeline; [exact Hc|].
  unfold pipelineRow, countsWithPoints, hasPoints. cbn. now rewrite Hp.
Qed.

Lemma savedDb_error_pipeline c a msg :
  pipelineStore c -> pipelineStore (savedDb c a None error msg).
Proof. intros Hc. now apply savedDb_pipeline. Qed.

Lemma processKey_pipeline lib env key t w :
  pipelineStore (db w) -> pipelineStore (db (snd (processKey lib env key t w))).
Proof.
  intros Hc. unfold processKey. monad_steps_outer.
  destruct (shouldSkipWallet (db w) _) as [[|]|e]; cbn [snd]; try exact Hc.
  pose proof (processWallet_store lib env key w) as S. cbv zeta in S.
  destruct (processWallet lib env key w) as [[[|]|e] w1]; cbn [snd].
  - destruct S as [->|(pts & Hp & ->)]; [exact Hc|].
    now apply savedDb_success_pipeline.
  - destruct S.
  - rewrite ignoring_save. cbn [snd db]. rewrite S.
    now apply savedDb_error_pipeline, savedDb_error_pipeline.
Qed.

Lemma processKeys_pipeline lib runs i keys t w :
  pipelineStore (db w) -> pipelineStore (db (snd (processKeys lib runs i keys t w))).
Proof.
  revert i t w. induction keys as [|key keys IH]; intros i t w Hc; cbn [processKeys].
  - exact Hc.
  - unfold bind.
    pose proof (processKey_pipeline lib (runs i) key t w Hc) as K.
    destruct (processKey lib (runs i) key t w) as [[t1|e] w1]; cbn [snd] in K |- *.
    + now apply IH.
    + exact K.
Qed.

Lemma filter_none {A} (f : A -> bool) (l : list A) :
  (forall x, In x l -> f x = false) -> List.filter f l = [].
Proof.
  induction l as [|a l IH]; intros H; [reflexivity|]. cbn [List.filter].
  rewrite (H a (or_introl eq_refl)). apply IH. intros x Hx. apply H. now right.
Qed.

Lemma filter_all {A} (f : A -> bool) (l : list A) :
  (forall x, In x l -> f x = true) -> List.filter f l = l.
Proof.
  induction l as [|a l IH]; intros H; [reflexivity|]. cbn [List.filter].
  rewrite (H a (or_introl eq_refl)). f_equal. apply IH. intros x Hx. apply H. now right.
Qed.

Lemma pipelineRow_classes w :
  pipelineRow w = true -> countsWithoutPoints w = false /\ counted w = true.
Proof.
  unfold pipelineRow, counted, countsWithPoints, countsWithoutPoints, countsError,
    hasPoints.
  destruct (wstatus w); cbn; destruct (points w) as [p|]; cbn; try discriminate;
    try (intros _; split; reflexivity).
  rewrite orb_false_r. intros H. rewrite H. split; [|reflexivity].
  destruct p as [z| |]; cbn in *; [|reflexivity|reflexivity].
  apply Z.ltb_lt in H. apply Z.eqb_neq. lia.
Qed.

(** X20. The statistics of a store that only the batch has written:
    whatever the keys and the runs, every row counts as one with points or
    as an error, and none counts as without points, since the batch writes
    a success only with points above zero and never writes an empty
    balance. *)
Theorem batch_rows_in_statistics (lib : jsstring -> result jsstring)
    (runs : nat -> run_env) (keys : list jsstring) (t : tally) (w : world) :
  is_Some (db w) ->
  pipelineStore (db w) ->
  exists t' w' s,
    processKeys lib runs 0 keys t w = (Ok t', w')
    /\ getWalletStats (db w') = Ok s
    /\ withoutPoints s = 0%nat
    /\ (withPoints s + errors s = total s)%nat.
Proof.
  intros Hc Hp.
  destruct (processKeys_returns lib runs 0 keys t w Hc) as (t' & w' & E & [d Hd]).
  pose proof (processKeys_pipeline lib runs 0 keys t w Hp) as K.
  rewrite E in K. cbn [snd] in K. rewrite Hd in K. cbn [pipelineStore] in K.
  exists t', w'. rewrite Hd. unfold getWalletStats, getAllWallets.
  destruct (failing d).
  { eexists. split; [exact E|]. split; [reflexivity|]. split; reflexivity. }
  eexists. split; [exact E|]. split; [reflexivity|].
  assert (R : forall x, In x (map snd (map_to_list (rows d))) -> pipelineRow x = true).
  { intros x Hx. apply in_map_iff in Hx. destruct Hx as ([a x'] & <- & Hx).
    apply list_elem_of_In, elem_of_map_to_list in Hx. exact (K a x' Hx). }
  pose proof (counted_sum (map snd (map_to_list (rows d)))) as S.
  cbn [statsOf total withPoints withoutPoints errors].
  assert (W : List.filter countsWithoutPoints (map snd (map_to_list (rows d))) = []).
  { apply filter_none. intros x Hx. now apply pipelineRow_classes, R. }
  assert (C : List.filter counted (map snd (map_to_list (rows d)))
              = map snd (map_to_list (rows d))).
  { apply filter_all. intros x Hx. now apply pipelineRow_classes, R. }
  rewrite W in S |- *. rewrite C in S. cbn [length] in S |- *.
  split; [reflexivity|]. lia.
Qed.

Lemma batch_rows_witness :
  exists t' w' s,
    processKeys Viem.privateKeyToAccount
      (fun _ => Samples.runOn (Samples.showing Samples.labelAndNumber)) 0
      [Samples.key1] Samples.tally0 Samples.world0 = (Ok t', w')
    /\ getWalletStats (db w') = Ok s
    /\ withoutPoints s = 0%nat
    /\ (withPoints s + errors s = total s)%nat.
Proof.
  refine (batch_rows_in_statistics Viem.privateKeyToAccount
            (fun _ => Samples.runOn (Samples.showing Samples.labelAndNumber))
            [Samples.key1] Samples.tally0 Samples.world0 _ _).
  - eexists. reflexivity.
  - apply map_Forall_empty.
Defined.

(** ** The labels of the extraction *)

Lemma get_snoc root p i :
  get root (p ++ [i])
  = match get root p with
    | Some (Elem _ _ ks) => ks !! i
    | _ => None
    end.
Proof.
  revert root. induction p as [|j p IH]; intros root; cbn [app get].
  - destruct root as [d|st inner ks]; [reflexivity|].
    now destruct (ks !! i).
  - destruct root as [d|st inner ks]; [reflexivity|].
    destruct (ks !! j) as [k|]; [apply IH|reflexivity].
Qed.

Lemma node_size_child k ks :
  In k ks -> (node_size k <= fold_right (fun k acc => (node_size k + acc)%nat) 0%nat ks)%nat.
Proof.
  induction ks as [|a ks IH]; [intros []|]. cbn [fold_right].
  intros [->|H]; [lia|]. specialize (IH H). lia.
Qed.

(** Every node that [descendants] lists sits at the path listed with it. *)
Lemma descendants_get root N :
  forall n p, (node_size n <= N)%nat -> get root p = Some n ->
  forall q m, In (q, m) (descendants p n) -> get root q = Some m.
Proof.
  induction N as [|N IH]; intros [d|st inner ks] p Hs Hp q m Hin;
    try (cbn in Hin; contradiction); cbn [node_size] in Hs; [lia|].
  cbn [descendants] in Hin.
  assert (G : forall ks' pre, ks = pre ++ ks' ->
            In (q, m)
               ((fix go (ks : list node) (i : nat) {struct ks} : list (path * node) :=
                   match ks with
                   | [] => []
                   | k :: ks' =>
                     (p ++ [i], k) :: descendants (p ++ [i]) k ++ go ks' (S i)
                   end) ks' (length pre)) ->
            get root q = Some m).
  { induction ks' as [|k ks' IHk]; intros pre E H; [destruct H|].
    assert (Hk : get root (p ++ [length pre]) = Some k).
    { rewrite get_snoc, Hp, E. apply list_lookup_middle. reflexivity. }
    destruct H as [H|H].
    - injection H as <- <-. exact Hk.
    - apply in_app_or in H. destruct H as [H|H].
      + apply (IH k (p ++ [length pre])); [|exact Hk|exact H].
        assert (In k ks) by (rewrite E; apply in_or_app; right; now left).
        pose proof (node_size_child k ks ltac:(assumption)). lia.
      + apply (IHk (pre ++ [k])).
        * rewrite <- app_assoc. exact E.
        * rewrite length_app. cbn [length]. now rewrite Nat.add_1_r. }
  exact (G ks [] eq_refl Hin).
Qed.

Lemma collectLabels_visible root ns el :
  (forall q m, In (q, m) ns -> get root q = Some m) ->
  In el (collectLabels root ns) ->
  exists st, styleAt root el = Some st /\ shownOpaque st = true.
Proof.
  induction ns as [|[p n] ns IH]; intros Hg Hin; [destruct Hin|].
  assert (Hg' : forall q m, In (q, m) ns -> get root q = Some m)
    by (intros q m H; apply Hg; now right).
  cbn [collectLabels] in Hin.
  destruct (acceptNode n); [|now apply IH].
  destruct n as [d|st inner ks].
  - destruct (parentElement p) as [q|]; [|now apply IH].
    destruct (styleAt root q) as [st|] eqn:Es; [|now apply IH].
    destruct (shownOpaque st) eqn:Ev; [|now apply IH].
    destruct Hin as [<-|Hin]; [now exists st|now apply IH].
  - destruct (shownOpaque st) eqn:Ev; [|now apply IH].
    destruct Hin as [<-|Hin]; [|now apply IH].
    exists st. split; [|exact Ev]. unfold styleAt.
    now rewrite (Hg p (Elem st inner ks) (or_introl eq_refl)).
Qed.

(** X21. The labels the extraction works from are elements of the page
    whose own computed style has a display other than [none], a visibility
    other than [hidden] and an opacity other than [0]; a number it
    returns comes from the fast path over the text of the body or from one
    of the five strategies applied to such a label, so a label in a hidden
    element is never the source of a number. *)
Theorem labels_are_visible (d : document) :
  (forall el, In el (myPointsElements d) ->
     exists st, styleAt (html d) el = Some st /\ shownOpaque st = true)
  /\ (forall n, extractPoints d = Some n ->
        exists b, body d = Some b
        /\ (fastPath (or_else (innerText b) (textContent b)) = Some n
            \/ exists el txt st,
                 In el (myPointsElements d)
                 /\ styleAt (html d) el = Some st /\ shownOpaque st = true
                 /\ pointsAt (html d) el = Some (txt, n))).
Proof.
  assert (V : forall el, In el (myPointsElements d) ->
              exists st, styleAt (html d) el = Some st /\ shownOpaque st = true).
  { intros el. unfold myPointsElements.
    destruct (body d) as [b|] eqn:Hb; [|intros []].
    apply collectLabels_visible. intros q m.
    apply (descendants_get (html d) (node_size b) b (body_path d)); [lia|].
    unfold body in Hb.
    destruct (get (html d) (body_path d)) as [[t|st inner ks]|]; try discriminate.
    now injection Hb as <-. }
  split; [exact V|].
  intros n. unfold extractPoints.
  destruct (body d) as [b|] eqn:Hb; [|discriminate].
  destruct (_ && _); [discriminate|].
  destruct (fastPath _) as [num|] eqn:F.
  - intros [= <-]. exists b. split; [reflexivity|]. now left.
  - intros H. exists b. split; [reflexivity|]. right.
    destruct (firstPoints_source _ _ _ H) as (el & txt & Hin & Hp).
    destruct (V el Hin) as (st & Hs & Hv).
    now exists el, txt, st.
Qed.

(** ** The extension id *)

Lemma split_str_some sep k cur s : exists a l, Extension.split_str_aux sep k cur s = a :: l.
Proof.
  revert k cur. induction s as [|c s IH]; intros k cur; cbn [Extension.split_str_aux].
  - eauto.
  - destruct k as [|k]; [|apply IH].
    destruct (startsWith (c :: s) sep); [eauto|apply IH].
Qed.

Lemma split_str_two sep cur s :
  sep <> [] -> includes s sep = true ->
  exists a b l, Extension.split_str_aux sep 0 cur s = a :: b :: l.
Proof.
  intros Hsep. revert cur. induction s as [|c s IH]; intros cur H.
  - destruct sep; [contradiction|discriminate].
  - cbn [includes] in H. cbn [Extension.split_str_aux].
    destruct (startsWith (c :: s) sep) eqn:E.
    + destruct (split_str_some sep (length sep - 1) [] s) as (b & l & ->). eauto.
    + cbn [orb] in H. now apply IH.
Qed.

Lemma split_aux_some sep cur s : exists a l, Proxy.split_aux sep cur s = a :: l.
Proof.
  revert cur. induction s as [|c s IH]; intros cur; cbn [Proxy.split_aux]; [eauto|].
  destruct (c =? sep); [eauto|apply IH].
Qed.

Lemma extensionId_defined url :
  includes url Extension.scheme = true -> exists id, Extension.extensionIdOfUrl url = Ok id.
Proof.
  intros H. unfold Extension.extensionIdOfUrl, Extension.splitStr.
  destruct (split_str_two Extension.scheme [] url ltac:(discriminate) H)
    as (a & b & l & ->).
  unfold Proxy.split. destruct (split_aux_some 47 [] b) as (f & r & ->). eauto.
Qed.

Lemma split_str_skip sep pre cur rest :
  Extension.split_str_aux sep (length pre) cur (pre ++ rest)
  = Extension.split_str_aux sep 0 cur rest.
Proof.
  induction pre as [|c pre IH]; [reflexivity|]. exact IH.
Qed.

Lemma split_str_prefix sep rest :
  sep <> [] ->
  Extension.splitStr (sep ++ rest) sep = [] :: Extension.split_str_aux sep 0 [] rest.
Proof.
  intros H. destruct sep as [|c sep]; [contradiction|].
  unfold Extension.splitStr. cbn [app Extension.split_str_aux].
  pose proof (startsWith_app (c :: sep) rest) as E. cbn [app] in E. rewrite E.
  replace (length (c :: sep) - 1)%nat with (length sep) by (cbn [length]; lia).
  now rewrite split_str_skip.
Qed.

(** While no occurrence of the separator starts, the units pile up in the
    piece at hand. *)
Lemma split_str_walk sep pre cur rest :
  (forall t1 t2, pre = t1 ++ t2 -> t2 <> [] -> startsWith (t2 ++ rest) sep = false) ->
  Extension.split_str_aux sep 0 cur (pre ++ rest)
  = Extension.split_str_aux sep 0 (rev pre ++ cur) rest.
Proof.
  revert cur. induction pre as [|c pre IH]; intros cur H; [reflexivity|].
  cbn [app Extension.split_str_aux].
  pose proof (H [] (c :: pre) eq_refl ltac:(discriminate)) as E0.
  cbn [app] in E0. rewrite E0, IH.
  - cbn [rev]. now rewrite <- app_assoc.
  - intros t1 t2 E Hn. apply (H (c :: t1) t2); [now rewrite E|exact Hn].
Qed.

(** The first piece is the piece at hand and a prefix of what is left. *)
Lemma split_str_head sep cur rest :
  exists x y l,
    Extension.split_str_aux sep 0 cur rest = (rev cur ++ x) :: l /\ rest = x ++ y.
Proof.
  revert cur. induction rest as [|c rest IH]; intros cur; cbn [Extension.split_str_aux].
  - exists [], [], []. now rewrite app_nil_r.
  - destruct (startsWith (c :: rest) sep).
    + exists [], (c :: rest). eexists. now rewrite app_nil_r.
    + destruct (IH (c :: cur)) as (x & y & l & -> & ->).
      exists (c :: x), y, l. cbn [rev]. now rewrite <- app_assoc.
Qed.

Lemma first_unit_unique (c : N) a t x y :
  ~ In c a -> ~ In c t -> a ++ c :: x = t ++ c :: y -> a = t /\ x = y.
Proof.
  revert t. induction a as [|u a IH]; intros [|v t] Ha Ht E; cbn [app] in E.
  - injection E as <-. now split.
  - injection E as <- _. exfalso. apply Ht. now left.
  - injection E as -> _. exfalso. apply Ha. now left.
  - injection E as <- E. destruct (IH t) as [-> ->]; try exact E.
    + intros K. apply Ha. now right.
    + intros K. apply Ht. now right.
    + now split.
Qed.

(** No occurrence of the scheme starts inside an id without a slash that
    is followed by [/popup.html]. *)
Lemma no_scheme_inside t :
  ~ In 47 t -> startsWith (t ++ js "/popup.html") Extension.scheme = false.
Proof.
  intros Ht. destruct (startsWith _ _) eqn:E; [|reflexivity]. exfalso.
  apply startsWith_true in E. destruct E as [r E].
  change Extension.scheme with (js "chrome-extension:" ++ 47 :: [47]) in E.
  change (js "/popup.html") with (47 :: js "popup.html") in E.
  rewrite <- app_assoc in E. cbn [app] in E.
  destruct (first_unit_unique 47 t (js "chrome-extension:") (js "popup.html") (47 :: r))
    as [_ K]; [exact Ht| |exact E|discriminate].
  vm_compute. intuition discriminate.
Qed.

(** X22. The id read from the URL of a page is always defined when the
    URL holds the scheme, so the pass over the open pages never throws;
    read from the URL that [openRainbowWallet] builds for an id without a
    slash, it is that id; and the pass returns it when that page is the
    first with the scheme and its content names the extension. *)
Theorem extension_id_round_trip (extensionId : jsstring) :
  ~ In 47 extensionId ->
  Extension.extensionIdOfUrl (Extension.walletUrl extensionId) = Ok extensionId
  /\ (forall url, includes url Extension.scheme = true ->
        exists id, Extension.extensionIdOfUrl url = Ok id)
  /\ (forall pages, exists r, Extension.idFromPages pages = Ok r)
  /\ (forall before pageContent after,
        Forall (fun p => includes (fst p) Extension.scheme = false) before ->
        includes (toLowerCase pageContent) (js "rainbow") = true ->
        Extension.idFromPages
          (before ++ (Extension.walletUrl extensionId, pageContent) :: after)
        = Ok (Some extensionId)).
Proof.
  intros Hid.
  assert (R : Extension.extensionIdOfUrl (Extension.walletUrl extensionId)
              = Ok extensionId).
  { unfold Extension.extensionIdOfUrl, Extension.walletUrl.
    rewrite split_str_prefix by discriminate. rewrite split_str_walk.
    - destruct (split_str_head Extension.scheme (rev extensionId ++ []) (js "/popup.html"))
        as (x & y & l & -> & E).
      rewrite app_nil_r, rev_involutive. unfold Proxy.split.
      destruct x as [|c x].
      + rewrite app_nil_r, split_aux_last by exact Hid. reflexivity.
      + assert (c = 47) by (change (js "/popup.html") with (47 :: js "popup.html") in E;
                             now injection E).
        subst c. rewrite split_aux_field by exact Hid. reflexivity.
    - intros t1 t2 E _. apply no_scheme_inside. intros K. apply Hid.
      rewrite E. apply in_or_app. now right. }
  split; [exact R|]. split; [exact extensionId_defined|]. split.
  - induction pages as [|[url c] pages IH]; cbn [Extension.idFromPages]; [eauto|].
    destruct (includes url Extension.scheme) eqn:E; [|exact IH].
    destruct (extensionId_defined url E) as [id ->].
    destruct (_ || _); [eauto|exact IH].
  - intros before c after Hb Hc. induction Hb as [|[u cu] before Hu Hb IH]; cbn [app].
    + cbn [Extension.idFromPages]. rewrite R, Hc. cbn [orb].
      unfold Extension.walletUrl. now rewrite includes_app.
    + cbn [Extension.idFromPages]. cbn [fst] in Hu. rewrite Hu. exact IH.
Qed.

Lemma extension_id_witness :
  Extension.extensionIdOfUrl
    (Extension.walletUrl (js "opfgelmcmbiajamepnmloijbpoleiama"))
  = Ok (js "opfgelmcmbiajamepnmloijbpoleiama").
Proof.
  refine (proj1 (extension_id_round_trip (js "opfgelmcmbiajamepnmloijbpoleiama") _)).
  vm_compute. intuition discriminate.
Defined.

(** ** The number after "Points Earned:" *)

Lemma earnedPattern_prefix tl c :
  run earnedPattern (MState 0 (js "Points Earned:" ++ tl) None) c
  = run (Cat (star_g space) number_group) (MState 14 tl None) c.
Proof. reflexivity. Qed.

(** X23. The number read after "Points Earned:" in the referral sub-flow
    is cut in the same way as in the fast path: when the text starts with
    the phrase, followed by white space and four or more digits in a row,
    the first three digits are read and the rest is dropped, so a reward
    shown as 1500 is returned as 150; a value of zero is not returned. *)
Theorem points_earned_reads_three_digits (gap tl : jsstring) (d1 d2 d3 d4 : N) :
  Forall (fun a => isWhiteSpace a = true) gap ->
  isDigit d1 = true -> isDigit d2 = true -> isDigit d3 = true -> isDigit d4 = true ->
  let text := js "Points Earned:" ++ gap ++ d1 :: d2 :: d3 :: d4 :: tl in
  let n := (100 * Z.of_N (d1 - 48) + 10 * Z.of_N (d2 - 48) + Z.of_N (d3 - 48))%Z in
  pointsEarnedOf text = (if (0 <? n)%Z then Some (Num n) else None)
  /\ (n < 1000)%Z
  /\ (forall r, inputByLocator r = true -> enterByLocator r = true ->
        signInButtonFound r = true -> closedAfterSignIn r = false ->
        fundWalletButtonFound r = false -> pointsEarnedShown r = true ->
        doneButtonFound r = true -> earnedText r = text -> (0 < n)%Z ->
        enterReferralCode r = Ok (Some (Num n))).
Proof.
  intros Hg H1 H2 H3 H4 text n.
  assert (R : run earnedPattern (MState 0 text None) Some
              = Some (MState (S (S (S (14 + length gap)))) (d4 :: tl)
                        (Some (14 + length gap, S (S (S (14 + length gap))))))%nat).
  { subst text. rewrite earnedPattern_prefix, run_cat.
    unfold star_g, space. rewrite run_rep. cbn [rep rest].
    apply star_class_greedy.
    - exact Hg.
    - now destruct (digit_is_plain d1 H1).
    - rewrite length_app. cbn. lia.
    - now apply number_group_three. }
  assert (F : pointsEarnedOf text = (if (0 <? n)%Z then Some (Num n) else None)).
  { unfold pointsEarnedOf, exec.
    destruct text as [|t0 text'] eqn:Et; [discriminate|].
    cbn [exec_from]. rewrite R. cbn [pos cap group1 m_1]. rewrite <- Et.
    assert (L : length (js "Points Earned:" ++ gap) = (14 + length gap)%nat)
      by (rewrite length_app; reflexivity).
    assert (S1 : slice text (14 + length gap) (S (S (S (14 + length gap))))
                 = [d1; d2; d3]).
    { unfold slice. subst text. rewrite app_assoc, <- L, drop_app_length.
      replace (S (S (S (length (js "Points Earned:" ++ gap))))
               - length (js "Points Earned:" ++ gap))%nat with 3%nat by lia.
      reflexivity. }
    rewrite S1. cbn [truthy].
    pose proof (parseClean_three d1 d2 d3 H1 H2 H3) as P. cbv zeta in P.
    rewrite P. fold n. now destruct (0 <? n)%Z. }
  split; [exact F|]. split.
  - unfold isDigit in H1, H2, H3.
    apply andb_true_iff in H1, H2, H3.
    destruct H1 as [_ H1], H2 as [_ H2], H3 as [_ H3].
    apply N.leb_le in H1, H2, H3. subst n. lia.
  - intros r Hi He Hs Hc Hf Hp Hd Ht Hn.
    unfold enterReferralCode, enterReferralCode_body, afterSignIn.
    rewrite Hi, He, Hs, Hc, Hf, Hp, Hd, Ht, F. cbn [negb andb].
    apply Z.ltb_lt in Hn. now rewrite Hn.
Qed.

Lemma points_earned_witness :
  pointsEarnedOf (js "Points Earned: 1500") = Some (Num 150).
Proof.
  exact (proj1 (points_earned_reads_three_digits (js " ") [] 49 53 48 48
                  ltac:(repeat constructor) eq_refl eq_refl eq_refl eq_refl)).
Defined.

(** ** The browsers and directories of a batch *)

Lemma countOf_app kind evs1 evs2 :
  countOf kind (evs1 ++ evs2) = (countOf kind evs1 + countOf kind evs2)%nat.
Proof. unfold countOf. now rewrite List.filter_app, length_app. Qed.

Lemma balanced_refl w : balanced w w.
Proof.
  exists []. rewrite app_nil_r. repeat split; reflexivity.
Qed.

Lemma balanced_trans w w1 w2 : balanced w w1 -> balanced w1 w2 -> balanced w w2.
Proof.
  intros (e1 & T1 & C1 & U1 & D1) (e2 & T2 & C2 & U2 & D2).
  exists (e1 ++ e2). rewrite T2, T1, <- app_assoc, !countOf_app.
  repeat split; try lia. etransitivity; eassumption.
Qed.

Lemma balanced_save w a p s m c :
  balanced w (World c (dirs w) (trace w ++ [EvSave a p s m])).
Proof.
  exists [EvSave a p s m]. repeat split; reflexivity.
Qed.

Lemma processWallet_balanced lib env key w :
  launchError env = None -> rmError env = false ->
  balanced w (snd (processWallet lib env key w)).
Proof.
  intros Hl Hr. destruct (mkdirError env) as [e1|] eqn:Hm.
  - rewrite (processWallet_mkdir_fails lib env key w e1 Hm). cbn [snd].
    eexists. cbn [trace dirs]. repeat split; reflexivity.
  - rewrite (processWallet_exit lib env key w (conj Hm Hl)).
    assert (G : forall c saves, countOf isClose saves = 0%nat ->
                countOf isCleanup saves = 0%nat -> countOf isLaunch saves = 0%nat ->
                balanced w (exitWorld env key w c saves)).
    { intros c saves S1 S2 S3. unfold exitWorld. eexists. cbn [trace dirs].
      split; [reflexivity|]. rewrite !countOf_app, S1, S2, S3.
      split; [reflexivity|]. split; [reflexivity|].
      unfold dirsAfterCleanup.
      rewrite Hr, bool_decide_eq_true_2
        by (apply elem_of_union_l, elem_of_singleton; reflexivity).
      cbn [negb andb]. intros x Hx. apply elem_of_difference in Hx.
      destruct Hx as [Hx Hn]. apply elem_of_union in Hx.
      destruct Hx as [Hx|Hx]; [contradiction|exact Hx]. }
    destruct (exitOf env); cbn [snd]; apply G; reflexivity.
Qed.

Lemma processKey_balanced lib env key t w :
  launchError env = None -> rmError env = false ->
  balanced w (snd (processKey lib env key t w)).
Proof.
  intros Hl Hr. unfold processKey. monad_steps_outer.
  destruct (shouldSkipWallet (db w) _) as [[|]|e]; cbn [snd];
    try apply balanced_refl.
  pose proof (processWallet_balanced lib env key w Hl Hr) as B.
  destruct (processWallet lib env key w) as [[[|]|e] w1]; cbn [snd] in B |- *;
    try exact B.
  rewrite ignoring_save. cbn [snd].
  eapply balanced_trans; [exact B|apply balanced_save].
Qed.

(** X24. A batch in which no launch fails and no removal fails leaves no
    profile directory behind and no browser open: over the whole loop the
    calls to close a context and to clean a profile are as many as the
    launches, and every directory that exists at the end existed before,
    whatever else the runs do and however they end. *)
Theorem batch_cleans_up (lib : jsstring -> result jsstring)
    (runs : nat -> run_env) (keys : list jsstring) (t : tally) (w : world) :
  (forall i, launchError (runs i) = None /\ rmError (runs i) = false) ->
  let w' := snd (processKeys lib runs 0 keys t w) in
  exists evs,
    trace w' = trace w ++ evs
    /\ countOf isClose evs = countOf isLaunch evs
    /\ countOf isCleanup evs = countOf isLaunch evs
    /\ dirs w' ⊆ dirs w.
Proof.
  intros H. cbv zeta. change (balanced w (snd (processKeys lib runs 0 keys t w))).
  generalize 0%nat as i. revert t w.
  induction keys as [|key keys IH]; intros t w i; cbn [processKeys].
  - apply balanced_refl.
  - unfold bind. destruct (H i) as [Hl Hr].
    pose proof (processKey_balanced lib (runs i) key t w Hl Hr) as B.
    destruct (processKey lib (runs i) key t w) as [[t1|e] w1]; cbn [snd] in B |- *.
    + eapply balanced_trans; [exact B|apply IH].
    + exact B.
Qed.

Lemma batch_cleans_up_witness :
  let w' := snd (processKeys Viem.privateKeyToAccount
                   (fun _ => Samples.runOn (Samples.showing Samples.labelAndNumber)) 0
                   [Samples.key1] Samples.tally0 Samples.world0) in
  exists evs,
    trace w' = trace Samples.world0 ++ evs
    /\ countOf isClose evs = countOf isLaunch evs
    /\ countOf isCleanup evs = countOf isLaunch evs
    /\ dirs w' ⊆ dirs Samples.world0.
Proof.
  exact (batch_cleans_up Viem.privateKeyToAccount
           (fun _ => Samples.runOn (Samples.showing Samples.labelAndNumber))
           [Samples.key1] Samples.tally0 Samples.world0
           (fun _ => conj eq_refl eq_refl)).
Defined.
